(** * Room / round lifecycle coordinator of scribo (Socket.IO backend)

    A shallow embedding of the server source (the file that sets up
    Express, Socket.IO and the Upstash Redis client) and the properties of
    its event handlers.

    Modelling choices, all visible in the definitions below:
    - the Redis keyspace is one finite map from key strings to values that
      are either a hash (field map) or a plain string; a command applied
      to a key of the other kind is rejected, which rejects the promise the
      handler awaits and aborts the rest of that handler;
    - the store client hands replies back the way [@upstash/redis] does:
      [hgetall] answers [null] for a key that holds nothing and otherwise
      passes every field value through [JSON.parse], unless it reads as a
      number that is no safe integer; [get] passes the reply through
      [JSON.parse], unless that gives a number which does not print as
      the reply; a text that [JSON.parse] rejects is kept as it is. So a
      stored ["123"] comes back as the number 123 and a stored ["null"]
      as [null]; what is written is sent as the string it is;
    - reading a property of [null] throws, which aborts the handler like
      a rejected command;
    - handlers run in a small state-and-error monad over the server state
      (store, Socket.IO room table, interval timers, emitted events);
    - a unit of work is one handler run at one clock reading [now], with
      no other handler in between; the turns of [start_round] between its
      [await]s are also given one by one, to follow two overlapping calls;
    - a call that the source does not [await] ([broadcastUsers],
      [broadcastMeta], [startTimer]) is run in place by [spawn], which does
      not propagate its rejection to the caller; of the two broadcasts
      that [join] starts together, the one that needs fewer replies of the
      store is run first;
    - when the transport reports a disconnection, the connection has left
      its rooms before the [disconnect] handler runs. *)

From Stdlib Require Import ZArith Lia Ascii String DecimalString DecimalZ.
From stdpp Require Import base option strings gmap list sorting.

Local Open Scope Z_scope.

(** ** JavaScript primitives used by the server *)

(** A JavaScript number as the server handles it: an integer (timestamps in
    milliseconds and differences of them, all far below 2^53) or [NaN]. *)
Inductive jsnum : Type :=
  | Num (z : Z)
  | NaN.

#[global] Instance jsnum_eq_dec : EqDecision jsnum.
Proof. solve_decision. Defined.

(** [String(value)] on an integer number: its decimal numeral. *)
Definition js_String (z : Z) : string :=
  NilZero.string_of_int (Z.to_int z).

(** [Number(raw)] on a string. Exact on decimal numerals, the only strings
    the server stores under its numeric fields (lemma [numerals_ok_run]
    below); anything else is [NaN]. The server applies it to non-empty
    strings only. *)
Definition js_Number (s : string) : jsnum :=
  match NilZero.int_of_string s with
  | Some d => Num (Z.of_int d)
  | None => NaN
  end.

(** A value as the store client returns it: [null], a boolean, a number, a
    string, or an array or object (kept as the JSON text it was parsed
    from). *)
Inductive jsval : Type :=
  | JNull
  | JBool (b : bool)
  | JNum (n : jsnum)
  | JStr (s : string)
  | JObj (json : string).

#[global] Instance jsval_eq_dec : EqDecision jsval.
Proof. solve_decision. Defined.

(** A record with string keys; a missing key reads as [undefined]. *)
Abbreviation record := (gmap string jsval) (only parsing).

(** Truthiness of a value, and of a property that may be missing. *)
Definition truthy (v : jsval) : bool :=
  match v with
  | JNull => false
  | JBool b => b
  | JNum (Num z) => negb (z =? 0)
  | JNum NaN => false
  | JStr s => negb (String.eqb s "")
  | JObj _ => true
  end.

Definition truthy_prop (o : option jsval) : bool := from_option truthy false o.

(** [value ?? fallback] with a string fallback. *)
Definition or_default (o : option jsval) (fallback : string) : jsval :=
  match o with
  | None | Some JNull => JStr fallback
  | Some v => v
  end.

(** [Number(value)]; on an array or object it is taken as [NaN]. *)
Definition to_number (v : jsval) : jsnum :=
  match v with
  | JNull => Num 0
  | JBool b => Num (if b then 1 else 0)
  | JNum n => n
  | JStr s => js_Number s
  | JObj _ => NaN
  end.

(** [a === b] for a payload field (a string, or missing) and a property
    read from a record. *)
Definition strict_eq (a : option string) (b : option jsval) : bool :=
  match a, b with
  | None, None => true
  | Some s, Some (JStr s') => String.eqb s s'
  | _, _ => false
  end.

(** Truthiness of a possibly missing string of a payload ([!roomId]). *)
Definition truthy_str (o : option string) : bool :=
  match o with
  | Some s => negb (String.eqb s "")
  | None => false
  end.

(** Truthiness of a number-or-null ([meta.roundEnd && ...], [!meta.roundEnd]). *)
Definition truthy_num (o : option jsnum) : bool :=
  match o with
  | Some (Num z) => negb (z =? 0)
  | Some NaN => false
  | None => false
  end.

(** [a > b] on numbers; any comparison with [NaN] is false. *)
Definition js_gt (a : jsnum) (b : Z) : bool :=
  match a with
  | Num z => b <? z
  | NaN => false
  end.

(** [s.split(sep)] for a one-character separator. *)
Fixpoint split (sep : ascii) (s : string) : list string :=
  match s with
  | EmptyString => [EmptyString]
  | String c s' =>
      match split sep s' with
      | [] => [String c EmptyString]
      | seg :: rest =>
          if decide (c = sep) then EmptyString :: seg :: rest
          else String c seg :: rest
      end
  end.

(** [key.split(":").pop()!] *)
Definition last_segment (key : string) : string :=
  List.last (split ":" key) EmptyString.

(** [id.startsWith(p)] *)
Definition startsWith (id p : string) : bool := String.prefix p id.

(** The string has no [":"] in it. *)
Fixpoint colon_free (s : string) : bool :=
  match s with
  | EmptyString => true
  | String c s' => negb (Ascii.eqb c ":") && colon_free s'
  end.

(** ** [JSON.parse], as far as the client's replies need it

    The parser classifies a text as [null], a boolean, a number (kept as
    mantissa and decimal exponent), a string (with its escapes decoded) or
    an array or object (accepted, not decoded). Strings are sequences of
    bytes, the UTF-8 form of the JavaScript string. *)
Inductive json : Type :=
  | J_null
  | J_bool (b : bool)
  | J_number (mantissa exponent : Z)
  | J_string (s : string)
  | J_composite.

Definition is_ws (c : ascii) : bool :=
  Ascii.eqb c " " || Ascii.eqb c "009" || Ascii.eqb c "010" || Ascii.eqb c "013".

Fixpoint skip_ws (s : string) : string :=
  match s with
  | String c s' => if is_ws c then skip_ws s' else s
  | EmptyString => s
  end.

Definition is_digit (c : ascii) : bool :=
  let n := N_of_ascii c in ((48 <=? n) && (n <=? 57))%N.

Definition digit_val (c : ascii) : Z := Z.of_N (N_of_ascii c) - 48.

Fixpoint take_digits (s : string) : string * string :=
  match s with
  | String c r =>
      if is_digit c then let (d, r') := take_digits r in (String c d, r')
      else (EmptyString, s)
  | EmptyString => (EmptyString, EmptyString)
  end.

Fixpoint digits_value (acc : Z) (d : string) : Z :=
  match d with
  | String c r => digits_value (10 * acc + digit_val c) r
  | EmptyString => acc
  end.

(** A number at the head of [s]: [-? int frac? exp?], no leading zero.
    The result is the value [m * 10^e] as [(m, e)] and the rest of [s]. *)
Definition json_number (s : string) : option (Z * Z * string) :=
  let (neg, s1) := match s with
                   | String "-" r => (true, r)
                   | _ => (false, s)
                   end in
  let (ip, s2) := take_digits s1 in
  match ip with
  | EmptyString => None
  | String "0" (String _ _) => None
  | _ =>
      let frac := match s2 with
                  | String "." r =>
                      let (fp, s3) := take_digits r in
                      match fp with
                      | EmptyString => None
                      | _ => Some (fp, s3)
                      end
                  | _ => Some (EmptyString, s2)
                  end in
      match frac with
      | None => None
      | Some (fp, s3) =>
          let ex := match s3 with
                    | String c r =>
                        if Ascii.eqb c "e" || Ascii.eqb c "E" then
                          let (sgn, r1) := match r with
                                           | String "+" r' => (1, r')
                                           | String "-" r' => (-1, r')
                                           | _ => (1, r)
                                           end in
                          let (ep, s4) := take_digits r1 in
                          match ep with
                          | EmptyString => None
                          | _ => Some (sgn * digits_value 0 ep, s4)
                          end
                        else Some (0, s3)
                    | EmptyString => Some (0, s3)
                    end in
          match ex with
          | None => None
          | Some (e, s4) =>
              let m := digits_value 0 (ip +:+ fp) in
              Some (if neg then - m else m, e - Z.of_nat (String.length fp), s4)
          end
      end
  end.

Definition hex_val (c : ascii) : option N :=
  let n := N_of_ascii c in
  if ((48 <=? n) && (n <=? 57))%N then Some (n - 48)%N
  else if ((65 <=? n) && (n <=? 70))%N then Some (n - 55)%N
  else if ((97 <=? n) && (n <=? 102))%N then Some (n - 87)%N
  else None.

Definition hex4 (a b c d : ascii) : option N :=
  match hex_val a, hex_val b, hex_val c, hex_val d with
  | Some x, Some y, Some z, Some w => Some (((x * 16 + y) * 16 + z) * 16 + w)%N
  | _, _, _, _ => None
  end.

(** The UTF-8 bytes of a code point. *)
Definition utf8 (cp : N) : string :=
  let byte n := ascii_of_N n in
  (if cp <? 128 then String (byte cp) EmptyString
   else if cp <? 2048 then
     String (byte (192 + cp / 64)) (String (byte (128 + cp mod 64)) EmptyString)
   else if cp <? 65536 then
     String (byte (224 + cp / 4096))
       (String (byte (128 + (cp / 64) mod 64)) (String (byte (128 + cp mod 64)) EmptyString))
   else
     String (byte (240 + cp / 262144))
       (String (byte (128 + (cp / 4096) mod 64))
          (String (byte (128 + (cp / 64) mod 64))
             (String (byte (128 + cp mod 64)) EmptyString))))%N.

Definition is_high_surrogate (u : N) : bool := ((55296 <=? u) && (u <=? 56319))%N.
Definition is_low_surrogate (u : N) : bool := ((56320 <=? u) && (u <=? 57343))%N.

(** The characters of a string literal after its opening quote, decoded,
    and what follows the closing quote. A pair of surrogate escapes is one
    code point; a surrogate on its own is kept as U+FFFD. *)
Fixpoint json_string_body (s : string) : option (string * string) :=
  match s with
  | EmptyString => None
  | String c r =>
      if Ascii.eqb c "034" then Some (EmptyString, r)
      else if Ascii.eqb c "\" then
        match r with
        | String "u" (String h1 (String h2 (String h3 (String h4 r')))) =>
            match hex4 h1 h2 h3 h4 with
            | None => None
            | Some u =>
                let single :=
                  match json_string_body r' with
                  | Some (d, rest) =>
                      Some (utf8 (if is_high_surrogate u || is_low_surrogate u
                                  then 65533%N else u) +:+ d, rest)
                  | None => None
                  end in
                if is_high_surrogate u then
                  match r' with
                  | String "\" (String "u" (String l1 (String l2 (String l3 (String l4 r''))))) =>
                      match hex4 l1 l2 l3 l4 with
                      | Some l =>
                          if is_low_surrogate l then
                            match json_string_body r'' with
                            | Some (d, rest) =>
                                Some (utf8 (65536 + (u - 55296) * 1024 + (l - 56320))%N +:+ d,
                                      rest)
                            | None => None
                            end
                          else single
                      | None => single
                      end
                  | _ => single
                  end
                else single
            end
        | String e r' =>
            let plain (x : ascii) :=
              match json_string_body r' with
              | Some (d, rest) => Some (String x d, rest)
              | None => None
              end in
            if Ascii.eqb e "034" || Ascii.eqb e "\" || Ascii.eqb e "/" then plain e
            else if Ascii.eqb e "b" then plain "008"%char
            else if Ascii.eqb e "f" then plain "012"%char
            else if Ascii.eqb e "n" then plain "010"%char
            else if Ascii.eqb e "r" then plain "013"%char
            else if Ascii.eqb e "t" then plain "009"%char
            else None
        | EmptyString => None
        end
      else if (N_of_ascii c <? 32)%N then None
      else
        match json_string_body r with
        | Some (d, rest) => Some (String c d, rest)
        | None => None
        end
  end.

(** [s] without the prefix [p], when it starts with it. *)
Fixpoint strip_prefix (p s : string) : option string :=
  match p, s with
  | EmptyString, _ => Some s
  | String a p', String b s' => if Ascii.eqb a b then strip_prefix p' s' else None
  | String _ _, EmptyString => None
  end.

(** One value at the head of [s] (no white space before it): the value
    and the rest of [s]. [json_elements] reads the elements of an array
    after its first one has been found to be there, [json_members] the
    members of an object. *)
Fixpoint json_value (fuel : nat) (s : string) : option (json * string) :=
  match fuel with
  | O => None
  | S fuel' =>
      match s with
      | EmptyString => None
      | String c r =>
          if Ascii.eqb c "[" then
            match skip_ws r with
            | String "]" r' => Some (J_composite, r')
            | r1 => match json_elements fuel' r1 with
                    | Some r' => Some (J_composite, r')
                    | None => None
                    end
            end
          else if Ascii.eqb c "{" then
            match skip_ws r with
            | String "}" r' => Some (J_composite, r')
            | r1 => match json_members fuel' r1 with
                    | Some r' => Some (J_composite, r')
                    | None => None
                    end
            end
          else if Ascii.eqb c "034" then
            match json_string_body r with
            | Some (d, r') => Some (J_string d, r')
            | None => None
            end
          else if Ascii.eqb c "n" then
            match strip_prefix "null" s with
            | Some r' => Some (J_null, r')
            | None => None
            end
          else if Ascii.eqb c "t" then
            match strip_prefix "true" s with
            | Some r' => Some (J_bool true, r')
            | None => None
            end
          else if Ascii.eqb c "f" then
            match strip_prefix "false" s with
            | Some r' => Some (J_bool false, r')
            | None => None
            end
          else
            match json_number s with
            | Some (m, e, r') => Some (J_number m e, r')
            | None => None
            end
      end
  end
with json_elements (fuel : nat) (s : string) : option string :=
  match fuel with
  | O => None
  | S fuel' =>
      match json_value fuel' s with
      | None => None
      | Some (_, r) =>
          match skip_ws r with
          | String "," r' => json_elements fuel' (skip_ws r')
          | String "]" r' => Some r'
          | _ => None
          end
      end
  end
with json_members (fuel : nat) (s : string) : option string :=
  match fuel with
  | O => None
  | S fuel' =>
      match s with
      | String "034" r =>
          match json_string_body r with
          | None => None
          | Some (_, r1) =>
              match skip_ws r1 with
              | String ":" r2 =>
                  match json_value fuel' (skip_ws r2) with
                  | None => None
                  | Some (_, r3) =>
                      match skip_ws r3 with
                      | String "," r4 => json_members fuel' (skip_ws r4)
                      | String "}" r4 => Some r4
                      | _ => None
                      end
                  end
              | _ => None
              end
          end
      | _ => None
      end
  end.

(** [JSON.parse(text)]; [None] when it throws. *)
Definition JSON_parse (text : string) : option json :=
  match json_value (2 * String.length text + 2) (skip_ws text) with
  | Some (v, r) => match skip_ws r with
                   | EmptyString => Some v
                   | _ => None
                   end
  | None => None
  end.

(** [Number.MAX_SAFE_INTEGER] *)
Definition max_safe : Z := 9007199254740991.

Definition is_safe (z : Z) : bool := (- max_safe <=? z) && (z <=? max_safe).

(** The safe integer that the double nearest to [a / b] is, for a
    positive fraction with [0 < b]: [None] when that double is no integer
    or lies beyond [max_safe]. Between the integers [n] and [n + 1], with
    [2^k <= n < 2^(k+1)], doubles are [2^(k-52)] apart; below [1] they go
    down to [2^-1074]; a tie goes to the even mantissa. *)
Definition nearest_safe (a b : Z) : option Z :=
  let n := a / b in
  let r := a mod b in
  if 2 ^ 53 <=? n then None
  else if r =? 0 then Some n
  else if n =? 0 then
    if a * 2 ^ 1075 <=? b then Some 0
    else if (b - a) * 2 ^ 54 <=? b then Some 1
    else None
  else
    let k := Z.log2 n in
    let w := 2 ^ (53 - k) in
    if (r * w <? b) || ((r * w =? b) && ((k <? 52) || Z.even n)) then Some n
    else if ((b - r) * w <? b) || (((b - r) * w =? b) && ((k <? 52) || Z.even (n + 1)))
    then (if n + 1 <? 2 ^ 53 then Some (n + 1) else None)
    else None.

(** [Number(text)] for a text that reads [m * 10^e], when it is a safe
    integer ([Number.isSafeInteger]). *)
Definition safe_integer (m e : Z) : option Z :=
  if m =? 0 then Some 0
  else if 16 <? e then None
  else
    let r := if 0 <=? e then nearest_safe (Z.abs m * 10 ^ e) 1
             else nearest_safe (Z.abs m) (10 ^ (- e)) in
    match r with
    | Some n => Some (Z.sgn m * n)
    | None => None
    end.

(** The text is the decimal numeral of an integer: what [String(n)]
    gives for an integer [n]. *)
Definition numeral_of (text : string) : option Z :=
  match js_Number text with
  | Num z => if String.eqb text (js_String z) then Some z else None
  | NaN => None
  end.

(** ** The replies of the store client

    A field value of [hgetall]: unless the text reads as a number that is
    not a safe integer, it goes through [JSON.parse] and is kept as the
    string it is when that throws. Numerals, the only numeric texts the
    server writes, are recognised first. *)
Definition parse_field (text : string) : jsval :=
  match numeral_of text with
  | Some z => if is_safe z then JNum (Num z) else JStr text
  | None =>
      match JSON_parse text with
      | Some J_null => JNull
      | Some (J_bool b) => JBool b
      | Some (J_number m e) =>
          match safe_integer m e with
          | Some z => JNum (Num z)
          | None => JStr text
          end
      | Some (J_string s) => JStr s
      | Some J_composite => JObj text
      | None => JStr text
      end
  end.

(** The reply of [get]: it goes through [JSON.parse], and is kept as the
    string it is when that throws or when it gives a number that
    JavaScript does not print as this very text. The safe integers print
    as their numerals. For another text that reads as a number the reply
    is that number or the text, by how the number prints: the server only
    tests it for truthiness and passes it on, and true it is either way
    (a number that prints as a text other than ["0"] is not zero, and the
    text is not empty). *)
Inductive reply : Type :=
  | Reply (v : jsval)
  | Reply_number (text : string).

#[global] Instance reply_eq_dec : EqDecision reply.
Proof. solve_decision. Defined.

Definition reply_truthy (r : reply) : bool :=
  match r with
  | Reply v => truthy v
  | Reply_number _ => true
  end.

Definition parse_reply (text : string) : reply :=
  match numeral_of text with
  | Some z => if is_safe z then Reply (JNum (Num z)) else Reply_number text
  | None =>
      match JSON_parse text with
      | Some J_null => Reply JNull
      | Some (J_bool b) => Reply (JBool b)
      | Some (J_number _ _) => Reply_number text
      | Some (J_string s) => Reply (JStr s)
      | Some J_composite => Reply (JObj text)
      | None => Reply (JStr text)
      end
  end.

(** ** Glob patterns of the store's [KEYS] command

    [*] matches any run of characters, [?] one character, [[...]] one
    character of a class (with [^] negation and [a-z] ranges) and a
    backslash quotes the next character. *)
Fixpoint glob (p : string) : string -> bool :=
  match p with
  | EmptyString => fun s => match s with EmptyString => true | _ => false end
  | String c p' =>
      if decide (c = "*"%char) then
        fix star (s : string) : bool :=
          glob p' s || match s with
                       | EmptyString => false
                       | String _ s' => star s'
                       end
      else if decide (c = "?"%char) then
        fun s => match s with
                 | EmptyString => false
                 | String _ s' => glob p' s'
                 end
      else if decide (c = "\"%char) then
        match p' with
        | EmptyString =>
            fun s => match s with
                     | String d EmptyString => bool_decide (d = c)
                     | _ => false
                     end
        | String q p'' =>
            fun s => match s with
                     | EmptyString => false
                     | String d s' => bool_decide (d = q) && glob p'' s'
                     end
        end
      else if decide (c = "["%char) then
        fun s => match s with
                 | EmptyString => false
                 | String d s' =>
                     match p' with
                     | String "^"%char p'' => glob_class p'' true false d s'
                     | _ => glob_class p' false false d s'
                     end
                 end
      else
        fun s => match s with
                 | EmptyString => false
                 | String d s' => bool_decide (d = c) && glob p' s'
                 end
  end
with glob_class (p : string) (neg matched : bool) (d : ascii) : string -> bool :=
  match p with
  | EmptyString => fun _ => false
  | String c p' =>
      if decide (c = "]"%char) then
        fun s => xorb neg matched && glob p' s
      else
        match p' with
        | String "-"%char (String hi p'') =>
            let lo_n := nat_of_ascii c in
            let hi_n := nat_of_ascii hi in
            let d_n := nat_of_ascii d in
            let hit := ((Nat.min lo_n hi_n <=? d_n) && (d_n <=? Nat.max lo_n hi_n))%nat in
            glob_class p'' neg (matched || hit) d
        | _ => glob_class p' neg (matched || bool_decide (d = c)) d
        end
  end.

(** ** Types of the server *)

(** [type DrawingData = string] (serialized canvas state), as a client
    submits it. *)
Abbreviation DrawingData := string (only parsing).

(** [PlayerData] and [RoomMeta] as the parsing helpers build them: the
    fields declared [string] hold whatever the store client returned. *)
Record PlayerData : Type := {
  nickname : jsval;
  wallet : jsval;
  joinedAt : jsnum
}.

Record RoomMeta : Type := {
  fee : jsval;
  createdAt : jsnum;
  asset : option jsval;
  roundEnd : option jsnum;   (* [None] is [null] *)
  owner : option jsval
}.

(** [Partial<RoomMeta>] as the handlers pass it: every field may be absent
    ([None], [undefined]); [roundEnd] may also be supplied as [null]
    ([Some None]). *)
Record PartialRoomMeta : Type := {
  p_fee : option string;
  p_createdAt : option Z;
  p_asset : option string;
  p_roundEnd : option (option Z);
  p_owner : option string
}.

(** [Partial<PlayerData>] *)
Record PartialPlayerData : Type := {
  p_nickname : option string;
  p_wallet : option string;
  p_joinedAt : option Z
}.

(** One entry of the [users] broadcast. *)
Record UserEntry : Type := {
  u_id : string;
  u_nickname : jsval;
  u_wallet : jsval;
  u_isSelf : bool
}.

(** Outbound events with their payloads. *)
Inductive out_event : Type :=
  | E_room_create_error (error : string)
  | E_room_created (roomId : string)
  | E_users (us : list UserEntry)
  | E_meta (m : RoomMeta)
  | E_round_started (roundEnd : Z) (owner : option jsval)
  | E_start_round_error (error : string)
  | E_timer (timeLeft : Z)
  | E_drawing (id : string) (data : DrawingData)
  | E_round_end (m : RoomMeta) (players : gmap string PlayerData)
                (drawings : gmap string reply).

(** Where an emit is addressed: [socket.emit] or [io.to(roomId).emit]. *)
Inductive target : Type :=
  | ToSocket (sid : string)
  | ToRoom (roomId : string).

(** An emitted event, with the connections it is delivered to. *)
Record Emit : Type := {
  e_target : target;
  e_recipients : gset string;
  e_event : out_event
}.

(** A value held under a key of the store. *)
Inductive rval : Type :=
  | RHash (h : gmap string string)
  | RStr (s : string).

(** A [setInterval] handle created by [startTimer]: the closure keeps the
    room id and the [roundEnd] read when it was created; [t_period] is the
    delay given to [setInterval]; [t_active] is false once [clearInterval]
    has run. The clock reading of each firing comes with the [tick] event. *)
Record Timer : Type := {
  t_room : string;
  t_roundEnd : Z;
  t_period : Z;
  t_active : bool
}.

Record State : Type := {
  redis : gmap string rval;             (* the external store *)
  rooms : gmap string (gset string);    (* [socket.rooms] of each connection *)
  timers : list Timer;                  (* interval handles of this process *)
  outbox : list Emit                    (* events emitted so far, oldest first *)
}.

Definition set_redis (f : gmap string rval -> gmap string rval) (st : State) : State :=
  {| redis := f (redis st); rooms := rooms st; timers := timers st; outbox := outbox st |}.

Definition set_rooms (f : gmap string (gset string) -> gmap string (gset string))
    (st : State) : State :=
  {| redis := redis st; rooms := f (rooms st); timers := timers st; outbox := outbox st |}.

Definition set_timers (f : list Timer -> list Timer) (st : State) : State :=
  {| redis := redis st; rooms := rooms st; timers := f (timers st); outbox := outbox st |}.

Definition push_out (e : Emit) (st : State) : State :=
  {| redis := redis st; rooms := rooms st; timers := timers st; outbox := outbox st ++ [e] |}.

(** ** The handler monad: state, and rejection of an awaited promise *)

Definition M (A : Type) : Type := State -> option A * State.

Definition ret {A} (a : A) : M A := fun st => (Some a, st).

Definition bind {A B} (m : M A) (f : A -> M B) : M B :=
  fun st =>
    match m st with
    | (Some a, st') => f a st'
    | (None, st') => (None, st')
    end.

(** A rejected store command ([WRONGTYPE]: the key holds a value of the
    other kind) or a thrown [TypeError]. *)
Definition throw {A} : M A := fun st => (None, st).

(** A call that is not awaited: its effects happen, its rejection is lost. *)
Definition spawn (m : M unit) : M unit := fun st => (Some tt, snd (m st)).

Declare Scope handler_scope.
Delimit Scope handler_scope with handler.
Notation "x <- m ;; k" := (bind m (fun x => k))
  (at level 100, m at next level, right associativity) : handler_scope.
Notation "m ;;; k" := (bind m (fun _ => k))
  (at level 100, right associativity) : handler_scope.
Local Open Scope handler_scope.

(** ** The store adapter (Redis commands the server uses) *)

(** [redis.hset(key, fields)]: merges the fields into the hash at [key],
    creating it when the key is free. *)
Definition redis_hset (key : string) (fields : gmap string string) : M unit :=
  fun st =>
    match redis st !! key with
    | Some (RStr _) => throw st
    | Some (RHash h) => (Some tt, set_redis (insert key (RHash (fields ∪ h))) st)
    | None => (Some tt, set_redis (insert key (RHash fields)) st)
    end.

(** The record the client builds from the fields of a hash. *)
Definition client_record (h : gmap string string) : gmap string jsval :=
  parse_field <$> h.

(** [redis.hgetall(key)]: [null] ([None]) when the reply has no field, as
    for a key that holds nothing, and otherwise the record of the parsed
    field values. *)
Definition redis_hgetall (key : string) : M (option (gmap string jsval)) :=
  fun st =>
    match redis st !! key with
    | Some (RStr _) => throw st
    | Some (RHash h) =>
        (Some (if decide (h = ∅) then None else Some (client_record h)), st)
    | None => (Some None, st)
    end.

(** [redis.set(key, value)] replaces whatever the key held. *)
Definition redis_set (key value : string) : M unit :=
  fun st => (Some tt, set_redis (insert key (RStr value)) st).

(** [redis.get(key)]: [null] for a key that holds nothing, and otherwise
    the parsed reply. *)
Definition redis_get (key : string) : M reply :=
  fun st =>
    match redis st !! key with
    | Some (RStr s) => (Some (parse_reply s), st)
    | Some (RHash _) => throw st
    | None => (Some (Reply JNull), st)
    end.

(** [redis.del(key)] *)
Definition redis_del (key : string) : M unit :=
  fun st => (Some tt, set_redis (delete key) st).

(** [redis.keys(pattern)]: the keys matching the glob pattern. *)
Definition redis_keys (pattern : string) : M (list string) :=
  fun st => (Some (filter (fun k => glob pattern k = true) (map fst (map_to_list (redis st)))), st).

(** ** Socket.IO adapter *)

(** [socket.rooms] of a connection: the rooms it has joined. The room of
    its own id, which Socket.IO puts every socket in, is left out: room
    ids are taken not to be session ids. *)
Definition rooms_of (st : State) (sid : string) : gset string :=
  default ∅ (rooms st !! sid).

(** The connections subscribed to a room. *)
Definition members (st : State) (roomId : string) : gset string :=
  dom (filter (fun p : string * gset string => roomId ∈ p.2) (rooms st)).

(** [socket.join(roomId)] *)
Definition socket_join (sid roomId : string) : M unit :=
  fun st => (Some tt, set_rooms (insert sid ({[roomId]} ∪ rooms_of st sid)) st).

(** [socket.emit(event, payload)]: to this connection only. *)
Definition socket_emit (sid : string) (ev : out_event) : M unit :=
  fun st => (Some tt, push_out {| e_target := ToSocket sid; e_recipients := {[sid]}; e_event := ev |} st).

(** [io.to(roomId).emit(event, payload)]: to every connection in the room. *)
Definition io_to_emit (roomId : string) (ev : out_event) : M unit :=
  fun st => (Some tt, push_out {| e_target := ToRoom roomId; e_recipients := members st roomId;
                                  e_event := ev |} st).

(** ** Persisted key layout *)

Definition metaKey (roomId : string) : string := "room:" +:+ roomId +:+ ":meta".
Definition playerKey (roomId socketId : string) : string :=
  "room:" +:+ roomId +:+ ":player:" +:+ socketId.
Definition graphKey (roomId socketId : string) : string :=
  "room:" +:+ roomId +:+ ":graph:" +:+ socketId.

(** ** Parsing helpers *)

(** The helpers on a record. Called with [null] they throw when they read
    the first property: [with_record] is that call. *)
Definition parseRoomMeta (raw : gmap string jsval) (now : Z) : RoomMeta :=
  {| fee := or_default (raw !! "fee") "";
     createdAt := if truthy_prop (raw !! "createdAt")
                  then from_option to_number NaN (raw !! "createdAt") else Num now;
     asset := raw !! "asset";
     roundEnd := if truthy_prop (raw !! "roundEnd")
                 then Some (from_option to_number NaN (raw !! "roundEnd")) else None;
     owner := raw !! "owner" |}.

Definition parsePlayerData (raw : gmap string jsval) (now : Z) : PlayerData :=
  {| nickname := or_default (raw !! "nickname") "";
     wallet := or_default (raw !! "wallet") "";
     joinedAt := if truthy_prop (raw !! "joinedAt")
                 then from_option to_number NaN (raw !! "joinedAt") else Num now |}.

Definition with_record {A} (raw : option (gmap string jsval))
    (parse : gmap string jsval -> A) : M A :=
  match raw with
  | Some r => ret (parse r)
  | None => throw
  end.

(** ** Helpers *)

(** One turn of the loop [for (const key in data)] of [setRoomMeta] and
    [setPlayer]: a value that is neither [undefined] nor [null] is written
    as [String(value)]. *)
Definition add_field {A} (key : string) (render : A -> string) (value : option A)
    (fieldsToSet : gmap string string) : gmap string string :=
  match value with
  | Some v => <[key := render v]> fieldsToSet
  | None => fieldsToSet
  end.

(** A number-or-null field: [null] is skipped like [undefined]. *)
Definition non_null {A} (value : option (option A)) : option A :=
  match value with
  | Some (Some v) => Some v
  | _ => None
  end.

Definition roomMetaFields (meta : PartialRoomMeta) : gmap string string :=
  add_field "owner" id (p_owner meta)
    (add_field "roundEnd" js_String (non_null (p_roundEnd meta))
       (add_field "asset" id (p_asset meta)
          (add_field "createdAt" js_String (p_createdAt meta)
             (add_field "fee" id (p_fee meta) ∅)))).

Definition playerFields (data : PartialPlayerData) : gmap string string :=
  add_field "joinedAt" js_String (p_joinedAt data)
    (add_field "wallet" id (p_wallet data)
       (add_field "nickname" id (p_nickname data) ∅)).

Definition setRoomMeta (roomId : string) (meta : PartialRoomMeta) : M unit :=
  let fieldsToSet := roomMetaFields meta in
  if bool_decide (0 < size fieldsToSet)%nat
  then redis_hset (metaKey roomId) fieldsToSet
  else ret tt.

Definition setPlayer (roomId socketId : string) (data : PartialPlayerData) : M unit :=
  let fieldsToSet := playerFields data in
  if bool_decide (0 < size fieldsToSet)%nat
  then redis_hset (playerKey roomId socketId) fieldsToSet
  else ret tt.

Fixpoint getAllPlayers_loop (now : Z) (keys : list string)
    (result : gmap string PlayerData) : M (gmap string PlayerData) :=
  match keys with
  | [] => ret result
  | key :: keys' =>
      let id := last_segment key in
      dataRaw <- redis_hgetall key ;;
      getAllPlayers_loop now keys'
        (match dataRaw with
         | Some raw => <[id := parsePlayerData raw now]> result
         | None => result
         end)
  end.

Definition getAllPlayers (now : Z) (roomId : string) : M (gmap string PlayerData) :=
  keys <- redis_keys ("room:" +:+ roomId +:+ ":player:*") ;;
  getAllPlayers_loop now keys ∅.

Fixpoint getAllDrawings_loop (keys : list string)
    (result : gmap string reply) : M (gmap string reply) :=
  match keys with
  | [] => ret result
  | key :: keys' =>
      let id := last_segment key in
      drawing <- redis_get key ;;
      getAllDrawings_loop keys'
        (if reply_truthy drawing then <[id := drawing]> result else result)
  end.

Definition getAllDrawings (roomId : string) : M (gmap string reply) :=
  keys <- redis_keys ("room:" +:+ roomId +:+ ":graph:*") ;;
  getAllDrawings_loop keys ∅.

Definition getRoomMeta (now : Z) (roomId : string) : M RoomMeta :=
  metaRaw <- redis_hgetall (metaKey roomId) ;;
  with_record metaRaw (fun raw => parseRoomMeta raw now).

Definition broadcastMeta (now : Z) (roomId : string) : M unit :=
  m <- getRoomMeta now roomId ;;
  io_to_emit roomId (E_meta m).

(** ** User list broadcast *)

Definition broadcastUsers (now : Z) (roomId selfId : string) : M unit :=
  players <- getAllPlayers now roomId ;;
  let us := map (fun p : string * PlayerData =>
                   {| u_id := p.1; u_nickname := nickname p.2;
                      u_wallet := wallet p.2; u_isSelf := bool_decide (p.1 = selfId) |})
                (map_to_list players) in
  io_to_emit roomId (E_users us).

(** ** Timer logic *)

(** [setInterval(callback, 1000)]: a new active handle. *)
Definition setInterval (roomId : string) (roundEnd : Z) : M unit :=
  fun st => (Some tt, set_timers (fun ts => ts ++ [{| t_room := roomId; t_roundEnd := roundEnd;
                                                       t_period := 1000; t_active := true |}]) st).

(** [clearInterval(interval)] *)
Definition clearInterval (handle : nat) : M unit :=
  fun st => (Some tt, set_timers (alter (fun t => {| t_room := t_room t; t_roundEnd := t_roundEnd t;
                                                      t_period := t_period t; t_active := false |})
                                        handle) st).

Definition startTimer (now : Z) (roomId : string) : M unit :=
  metaRaw <- redis_hgetall (metaKey roomId) ;;
  m <- with_record metaRaw (fun raw => parseRoomMeta raw now) ;;
  if negb (truthy_num (roundEnd m)) then ret tt
  else
    match roundEnd m with
    | Some (Num roundEnd) => setInterval roomId roundEnd
    | _ => ret tt
    end.

(** [Math.max(0, Math.floor((roundEnd - now) / 1000))] *)
Definition timeLeft_at (roundEnd now : Z) : Z := Z.max 0 ((roundEnd - now) / 1000).

(** The body of the interval callback of [startTimer], for one firing. *)
Definition timer_callback (now : Z) (handle : nat) (t : Timer) : M unit :=
  let roomId := t_room t in
  let timeLeft := timeLeft_at (t_roundEnd t) now in
  io_to_emit roomId (E_timer timeLeft) ;;;
  if timeLeft <=? 0 then
    clearInterval handle ;;;
    drawings <- getAllDrawings roomId ;;
    players <- getAllPlayers now roomId ;;
    metaRawFinal <- redis_hgetall (metaKey roomId) ;;
    metaFinal <- with_record metaRawFinal (fun raw => parseRoomMeta raw now) ;;
    io_to_emit roomId (E_round_end metaFinal players drawings)
  else ret tt.

(** A firing of the interval [handle]: nothing once it is cleared. *)
Definition timer_tick (now : Z) (handle : nat) : M unit :=
  fun st =>
    match timers st !! handle with
    | Some t => if t_active t then timer_callback now handle t st else (Some tt, st)
    | None => (Some tt, st)
    end.

(** ** Socket.IO logic: the event handlers of one connection [sid] *)

(** Payload fields of the untyped handlers are strings when present;
    [None] is a field the client left out ([undefined]). *)
Definition on_create_lobby_room (now : Z) (sid : string)
    (entryFee maxParticipants wallet nickname roomId : option string) : M unit :=
  if negb (truthy_str roomId) then
    socket_emit sid (E_room_create_error "No roomId from contract.")
  else
    let roomId := default "" roomId in
    setRoomMeta roomId {| p_fee := entryFee; p_createdAt := Some now; p_asset := None;
                          p_roundEnd := Some None; p_owner := wallet |} ;;;
    setPlayer roomId sid {| p_nickname := nickname; p_wallet := wallet;
                            p_joinedAt := Some now |} ;;;
    socket_emit sid (E_room_created roomId).

(** The two broadcasts at the end of [join] are started one after the
    other and neither is awaited: both read the store as the handler left
    it, and their events come out as the replies come in, [meta] after one
    reply, [users] after the reply to [keys] and one more per player. *)
Definition on_join (now : Z) (sid : string)
    (roomId nickname wallet fee : string) (asset : option string) : M unit :=
  socket_join sid roomId ;;;
  setRoomMeta roomId {| p_fee := None; p_createdAt := None; p_asset := asset;
                        p_roundEnd := None; p_owner := None |} ;;;
  redis_hset (playerKey roomId sid)
    (<["joinedAt" := js_String now]> (<["wallet" := wallet]> (<["nickname" := nickname]> ∅))) ;;;
  spawn (broadcastMeta now roomId) ;;;
  spawn (broadcastUsers now roomId sid).

Definition on_start_round (now : Z) (sid : string)
    (roomId : string) (wallet : option string) : M unit :=
  metaRaw <- redis_hgetall (metaKey roomId) ;;
  m <- with_record metaRaw (fun raw => parseRoomMeta raw now) ;;
  if negb (strict_eq wallet (owner m)) then
    socket_emit sid (E_start_round_error "Only room owner can start round.")
  else if truthy_num (roundEnd m) && from_option (fun n => js_gt n now) false (roundEnd m) then
    socket_emit sid (E_start_round_error "Round already started.")
  else
    let roundEnd := now + 5 * 60 * 1000 in
    setRoomMeta roomId {| p_fee := None; p_createdAt := None; p_asset := None;
                          p_roundEnd := Some (Some roundEnd); p_owner := None |} ;;;
    io_to_emit roomId (E_round_started roundEnd (owner m)) ;;;
    spawn (startTimer now roomId).

Definition on_set_nickname (now : Z) (sid : string)
    (roomId : string) (nickname : option string) : M unit :=
  setPlayer roomId sid {| p_nickname := nickname; p_wallet := None; p_joinedAt := None |} ;;;
  spawn (broadcastUsers now roomId sid).

Definition on_drawing_submit (sid : string) (roomId : string) (drawing : DrawingData) : M unit :=
  redis_set (graphKey roomId sid) drawing ;;;
  io_to_emit roomId (E_drawing sid drawing).

Fixpoint disconnect_loop (now : Z) (sid : string) (rooms : list string) : M unit :=
  match rooms with
  | [] => ret tt
  | room :: rooms' =>
      redis_del (playerKey room sid) ;;;
      redis_del (graphKey room sid) ;;;
      spawn (broadcastUsers now room sid) ;;;
      disconnect_loop now sid rooms'
  end.

Definition on_disconnect (now : Z) (sid : string) : M unit :=
  fun st =>
    let rooms := filter (fun id => startsWith id "room:" = true) (elements (rooms_of st sid)) in
    disconnect_loop now sid rooms st.

(** ** Dispatch *)

(** What can happen to the server: an inbound event of a connection, or a
    firing of one of its interval timers. On a disconnection the transport
    first takes the connection out of its rooms and then calls the
    [disconnect] handler, which finds [socket.rooms] empty. *)
Inductive request : Type :=
  | create_lobby_room (entryFee maxParticipants wallet nickname roomId : option string)
  | join (roomId nickname wallet fee : string) (asset : option string)
  | start_round (roomId : string) (wallet : option string)
  | set_nickname (roomId : string) (nickname : option string)
  | drawing_submit (roomId : string) (drawing : DrawingData)
  | disconnect
  | tick (handle : nat).

Definition handle (now : Z) (sid : string) (req : request) : M unit :=
  match req with
  | create_lobby_room entryFee maxParticipants wallet nickname roomId =>
      on_create_lobby_room now sid entryFee maxParticipants wallet nickname roomId
  | join roomId nickname wallet fee asset => on_join now sid roomId nickname wallet fee asset
  | start_round roomId wallet => on_start_round now sid roomId wallet
  | set_nickname roomId nickname => on_set_nickname now sid roomId nickname
  | drawing_submit roomId drawing => on_drawing_submit sid roomId drawing
  | disconnect => (fun st => (Some tt, set_rooms (delete sid) st)) ;;; on_disconnect now sid
  | tick h => timer_tick now h
  end.

(** The state after the unit of work, whether it ran to its end or was
    aborted by a rejected store command. *)
Definition step (now : Z) (sid : string) (req : request) (st : State) : State :=
  (handle now sid req st).2.

Record Event : Type := { ev_now : Z; ev_sid : string; ev_req : request }.

Definition run (evs : list Event) (st : State) : State :=
  fold_left (fun s e => step (ev_now e) (ev_sid e) (ev_req e) s) evs st.

Definition empty_state : State :=
  {| redis := ∅; rooms := ∅; timers := []; outbox := [] |}.

(** ** [start_round] turn by turn

    Between its [await]s the handler gives way to whatever else is ready
    to run. Its turns: the store answers the [hgetall] of the handler's
    first line; the handler resumes with the reply, checks the two guards,
    reads the clock and sends the [hset]; the store applies the write; the
    handler resumes, emits [round_started] and calls [startTimer]. *)
Inductive sr_stage : Type :=
  | SR_called
  | SR_replied (metaRaw : option (gmap string jsval))
  | SR_writing (roundEnd : Z) (owner : option jsval)
  | SR_written (roundEnd : Z) (owner : option jsval)
  | SR_done.

Record sr_call : Type := { sr_sid : string; sr_room : string; sr_wallet : option string }.

(** The store serves the command the call is waiting for. *)
Definition sr_store (c : sr_call) (stage : sr_stage) (st : State) : sr_stage * State :=
  match stage with
  | SR_called =>
      match redis_hgetall (metaKey (sr_room c)) st with
      | (Some metaRaw, st') => (SR_replied metaRaw, st')
      | (None, st') => (SR_done, st')
      end
  | SR_writing roundEnd owner =>
      match setRoomMeta (sr_room c)
              {| p_fee := None; p_createdAt := None; p_asset := None;
                 p_roundEnd := Some (Some roundEnd); p_owner := None |} st with
      | (Some _, st') => (SR_written roundEnd owner, st')
      | (None, st') => (SR_done, st')
      end
  | _ => (stage, st)
  end.

(** The handler resumes with the reply it was waiting for, at clock
    reading [now]. *)
Definition sr_resume (now : Z) (c : sr_call) (stage : sr_stage) (st : State) :
    sr_stage * State :=
  match stage with
  | SR_replied None => (SR_done, st)
  | SR_replied (Some raw) =>
      let m := parseRoomMeta raw now in
      if negb (strict_eq (sr_wallet c) (owner m)) then
        (SR_done, (socket_emit (sr_sid c)
                     (E_start_round_error "Only room owner can start round.") st).2)
      else if truthy_num (roundEnd m) && from_option (fun n => js_gt n now) false (roundEnd m) then
        (SR_done, (socket_emit (sr_sid c) (E_start_round_error "Round already started.") st).2)
      else (SR_writing (now + 5 * 60 * 1000) (owner m), st)
  | SR_written roundEnd owner =>
      (SR_done, ((io_to_emit (sr_room c) (E_round_started roundEnd owner) ;;;
                  spawn (startTimer now (sr_room c))) st).2)
  | _ => (stage, st)
  end.

(** A schedule of turns over several calls of [start_round]. *)
Inductive sr_turn : Type :=
  | Store_serves (call : nat)
  | Handler_resumes (call : nat) (now : Z).

Definition sr_advance (calls : list sr_call) (t : sr_turn)
    (x : list sr_stage * State) : list sr_stage * State :=
  let i := match t with Store_serves i | Handler_resumes i _ => i end in
  match calls !! i, x.1 !! i with
  | Some c, Some stage =>
      let r := match t with
               | Store_serves _ => sr_store c stage x.2
               | Handler_resumes _ now => sr_resume now c stage x.2
               end in
      (<[i := r.1]> x.1, r.2)
  | _, _ => x
  end.

Definition sr_schedule (calls : list sr_call) (turns : list sr_turn) (st : State) :
    list sr_stage * State :=
  fold_left (fun x t => sr_advance calls t x) turns (map (fun _ => SR_called) calls, st).
(** * Properties *)

(** ** Keys: segments and collisions *)

Lemma split_nonempty (sep : ascii) (s : string) : split sep s <> [].
Proof.
  destruct s as [|c s]; simpl; [discriminate|].
  destruct (split sep s); [discriminate|]. now destruct (decide (c = sep)).
Qed.

Lemma split_colon_free (s : string) : colon_free s = true -> split ":" s = [s].
Proof.
  induction s as [|c s IH]; simpl; [done|].
  intros [Hc Hs]%andb_prop. rewrite (IH Hs).
  destruct (decide (c = ":"%char)) as [->|]; [discriminate|done].
Qed.

Lemma last_segment_colon_free (s : string) : colon_free s = true -> last_segment s = s.
Proof. intros H. unfold last_segment. now rewrite split_colon_free. Qed.

Lemma last_segment_cons_colon (s : string) :
  last_segment (String ":" s) = last_segment s.
Proof.
  unfold last_segment. simpl.
  destruct (split ":" s) as [|seg rest] eqn:E; [now apply split_nonempty in E|].
  destruct (decide (":"%char = ":"%char)); [|done]. reflexivity.
Qed.

Lemma last_segment_app (p t : string) :
  colon_free t = true -> last_segment (p +:+ String ":" t) = t.
Proof.
  intros Ht. induction p as [|c p IH].
  - change ("" +:+ String ":" t) with (String ":" t).
    rewrite last_segment_cons_colon. now apply last_segment_colon_free.
  - change (String c p +:+ String ":" t) with (String c (p +:+ String ":" t)).
    unfold last_segment in *. cbn [split].
    destruct (split ":" (p +:+ String ":" t)) as [|seg rest] eqn:E;
      [now apply split_nonempty in E|].
    destruct rest as [|seg' rest].
    + (* the tail has a colon, so it has at least two segments *)
      exfalso. clear IH. revert seg E.
      induction p as [|d p IHp]; simpl; intros seg E.
      * destruct (split ":" t) as [|x xs] eqn:Et; [now apply split_nonempty in Et|].
        destruct (decide (":"%char = ":"%char)); [discriminate|done].
      * destruct (split ":" (p +:+ String ":" t)) as [|x xs] eqn:Ep;
          [now apply split_nonempty in Ep|].
        destruct (decide (d = ":"%char)); [discriminate|].
        injection E as _ ->. eapply IHp. reflexivity.
    + destruct (decide (c = ":"%char)); simpl in *; exact IH.
Qed.

Lemma string_app_assoc (a b c : string) : (a +:+ b) +:+ c = a +:+ (b +:+ c).
Proof.
  induction a as [|x a IH]; [done|].
  change (String x ((a +:+ b) +:+ c) = String x (a +:+ (b +:+ c))). now rewrite IH.
Qed.

Lemma last_segment_metaKey (roomId : string) : last_segment (metaKey roomId) = "meta".
Proof.
  unfold metaKey.
  change (":meta") with (String ":" "meta").
  rewrite <- string_app_assoc. now apply last_segment_app.
Qed.

Lemma last_segment_playerKey (roomId sid : string) :
  colon_free sid = true -> last_segment (playerKey roomId sid) = sid.
Proof.
  intros H. unfold playerKey.
  change (":player:" +:+ sid) with (":player" +:+ String ":" sid).
  rewrite <- !string_app_assoc. now apply last_segment_app.
Qed.

Lemma last_segment_graphKey (roomId sid : string) :
  colon_free sid = true -> last_segment (graphKey roomId sid) = sid.
Proof.
  intros H. unfold graphKey.
  change (":graph:" +:+ sid) with (":graph" +:+ String ":" sid).
  rewrite <- !string_app_assoc. now apply last_segment_app.
Qed.

(** Session ids are generated by the transport, 20 characters of the
    URL-safe base64 alphabet: none holds a [":"] and none is the word
    [meta]. *)
Definition sid_ok (sid : string) : bool :=
  colon_free sid && negb (String.eqb sid "meta").

Lemma playerKey_not_metaKey (roomId sid roomId' : string) :
  sid_ok sid = true -> playerKey roomId sid <> metaKey roomId'.
Proof.
  intros [Hc Hm]%andb_prop E.
  apply (f_equal last_segment) in E.
  rewrite last_segment_metaKey, last_segment_playerKey in E by done.
  subst sid. discriminate.
Qed.

Lemma graphKey_not_metaKey (roomId sid roomId' : string) :
  sid_ok sid = true -> graphKey roomId sid <> metaKey roomId'.
Proof.
  intros [Hc Hm]%andb_prop E.
  apply (f_equal last_segment) in E.
  rewrite last_segment_metaKey, last_segment_graphKey in E by done.
  subst sid. discriminate.
Qed.

Lemma string_app_length (a b : string) :
  String.length (a +:+ b) = (String.length a + String.length b)%nat.
Proof.
  induction a as [|x a IH]; [done|].
  change (S (String.length (a +:+ b)) = S (String.length a + String.length b)).
  now rewrite IH.
Qed.

Lemma string_app_inv_tail (a b t : string) : a +:+ t = b +:+ t -> a = b.
Proof.
  revert b. induction a as [|x a IH]; intros [|y b] E.
  - done.
  - apply (f_equal String.length) in E.
    rewrite !string_app_length in E. simpl in E. lia.
  - apply (f_equal String.length) in E.
    rewrite !string_app_length in E. simpl in E. lia.
  - change (String x (a +:+ t) = String y (b +:+ t)) in E.
    injection E as -> E. f_equal. now apply IH.
Qed.

Lemma metaKey_inj (r1 r2 : string) : metaKey r1 = metaKey r2 -> r1 = r2.
Proof.
  unfold metaKey. intros E. apply String.app_inj in E.
  now apply string_app_inv_tail in E.
Qed.

(** ** Numerals and their stored form *)

Lemma js_Number_String (z : Z) : js_Number (js_String z) = Num z.
Proof.
  unfold js_Number, js_String.
  destruct z as [|p|p].
  - reflexivity.
  - rewrite NilZero.isi.
    + now rewrite DecimalZ.of_to.
    + simpl. intros [= H]. now apply DecimalPos.Unsigned.to_uint_nonnil in H.
    + discriminate.
  - rewrite NilZero.isi.
    + now rewrite DecimalZ.of_to.
    + discriminate.
    + simpl. intros [= H]. now apply DecimalPos.Unsigned.to_uint_nonnil in H.
Qed.

Lemma js_String_nonempty (z : Z) : js_String z <> EmptyString.
Proof.
  intros H. pose proof (js_Number_String z) as HN.
  rewrite H in HN. discriminate.
Qed.

Lemma numeral_of_String (z : Z) : numeral_of (js_String z) = Some z.
Proof. unfold numeral_of. now rewrite js_Number_String, String.eqb_refl. Qed.

(** A numeral comes back from the store as its number, or, beyond the
    safe integers, as the text it is. *)
Lemma parse_field_numeral (z : Z) :
  parse_field (js_String z) = if is_safe z then JNum (Num z) else JStr (js_String z).
Proof. unfold parse_field. now rewrite numeral_of_String. Qed.

Lemma is_safe_0 : is_safe 0 = true.
Proof. reflexivity. Qed.

Lemma truthy_numeral (z : Z) : truthy (parse_field (js_String z)) = negb (z =? 0).
Proof.
  rewrite parse_field_numeral. destruct (is_safe z) eqn:Hs; simpl; [done|].
  destruct (String.eqb_spec (js_String z) "") as [E|_]; [now apply js_String_nonempty in E|].
  destruct (Z.eqb_spec z 0) as [->|]; [discriminate|done].
Qed.

Lemma to_number_numeral (z : Z) : to_number (parse_field (js_String z)) = Num z.
Proof.
  rewrite parse_field_numeral. destruct (is_safe z); simpl; [done|apply js_Number_String].
Qed.

(** A numeral under a field the source declares as a string: truthy, and
    [Number] gives its value. *)
Lemma truthy_JStr_numeral (z : Z) : truthy (JStr (js_String z)) = true.
Proof.
  simpl. destruct (String.eqb_spec (js_String z) "") as [E|_]; [|done].
  now apply js_String_nonempty in E.
Qed.

(** ** Reading and writing hashes *)

(** The fields held under a key ([∅] when the key is free). *)
Definition stored_hash (st : State) (key : string) : gmap string string :=
  match redis st !! key with
  | Some (RHash h) => h
  | _ => ∅
  end.

(** The key does not hold a plain string: hash commands on it succeed. *)
Definition hash_ok (st : State) (key : string) : bool :=
  match redis st !! key with
  | Some (RStr _) => false
  | _ => true
  end.

(** The key holds a hash with a field in it: [hgetall] answers a record. *)
Definition has_fields (st : State) (key : string) : bool :=
  bool_decide (stored_hash st key <> ∅).

(** The meta fields of a room as stored, and as [parseRoomMeta] reads the
    record the client makes of them. *)
Definition stored_meta (st : State) (roomId : string) : gmap string string :=
  stored_hash st (metaKey roomId).

Definition room_meta (now : Z) (st : State) (roomId : string) : RoomMeta :=
  parseRoomMeta (client_record (stored_meta st roomId)) now.

(** A stored record as the source declares it, every value a string. *)
Definition as_strings (h : gmap string string) : gmap string jsval := JStr <$> h.

(** What [raw.field ?? ""] gives for a stored text. *)
Definition read_back (text : string) : jsval := or_default (Some (parse_field text)) "".

(** The events emitted between two states of a run. *)
Definition emitted (st st' : State) : list Emit :=
  drop (length (outbox st)) (outbox st').

Lemma has_fields_hash_ok (st : State) (key : string) :
  has_fields st key = true -> hash_ok st key = true.
Proof.
  unfold has_fields, hash_ok, stored_hash. intros H%bool_decide_eq_true.
  destruct (redis st !! key) as [[h|s]|]; done.
Qed.

Lemma hgetall_ok (st : State) (key : string) :
  hash_ok st key = true ->
  redis_hgetall key st
  = (Some (if has_fields st key then Some (client_record (stored_hash st key)) else None), st).
Proof.
  unfold hash_ok, redis_hgetall, has_fields, stored_hash.
  destruct (redis st !! key) as [[h|s]|]; try done.
  - intros _. destruct (decide (h = ∅)) as [->|Hne].
    + now rewrite bool_decide_eq_false_2 by (intros H; now apply H).
    + now rewrite bool_decide_eq_true_2.
Qed.

Lemma hgetall_record (st : State) (key : string) :
  has_fields st key = true ->
  redis_hgetall key st = (Some (Some (client_record (stored_hash st key))), st).
Proof.
  intros H. rewrite hgetall_ok by now apply has_fields_hash_ok. now rewrite H.
Qed.

Lemma hgetall_null (st : State) (key : string) :
  hash_ok st key = true -> has_fields st key = false ->
  redis_hgetall key st = (Some None, st).
Proof. intros Hok H. rewrite hgetall_ok by done. now rewrite H. Qed.

Lemma hgetall_rejected (st : State) (key : string) :
  hash_ok st key = false -> redis_hgetall key st = (None, st).
Proof.
  unfold hash_ok, redis_hgetall. destruct (redis st !! key) as [[h|s]|]; done.
Qed.

Lemma hgetall_state (st : State) (key : string) :
  (redis_hgetall key st).2 = st.
Proof. unfold redis_hgetall. destruct (redis st !! key) as [[h|s]|]; done. Qed.

Lemma has_fields_free (st : State) (key : string) :
  redis st !! key = None -> has_fields st key = false /\ hash_ok st key = true.
Proof.
  intros H. unfold has_fields, hash_ok, stored_hash. rewrite H.
  split; [|done]. apply bool_decide_eq_false_2. intros Hne. now apply Hne.
Qed.

Lemma hset_ok (st : State) (key : string) (fields : gmap string string) :
  hash_ok st key = true ->
  redis_hset key fields st =
    (Some tt, set_redis (insert key (RHash (fields ∪ stored_hash st key))) st).
Proof.
  unfold hash_ok, redis_hset, stored_hash.
  destruct (redis st !! key) as [[h|s]|]; try done.
  intros _. now rewrite (right_id_L ∅ (∪)).
Qed.

Lemma hset_rejected (st : State) (key : string) (fields : gmap string string) :
  hash_ok st key = false -> redis_hset key fields st = (None, st).
Proof.
  unfold hash_ok, redis_hset. destruct (redis st !! key) as [[h|s]|]; done.
Qed.

Lemma stored_hash_insert (st : State) (key key' : string) (h : gmap string string) :
  stored_hash (set_redis (insert key (RHash h)) st) key' =
    if decide (key = key') then h else stored_hash st key'.
Proof.
  unfold stored_hash, set_redis. simpl.
  destruct (decide (key = key')) as [->|Hne].
  - now rewrite lookup_insert_eq.
  - now rewrite lookup_insert_ne.
Qed.

Lemma hash_ok_insert (st : State) (key key' : string) (h : gmap string string) :
  hash_ok (set_redis (insert key (RHash h)) st) key' =
    if decide (key = key') then true else hash_ok st key'.
Proof.
  unfold hash_ok, set_redis. simpl.
  destruct (decide (key = key')) as [->|Hne].
  - now rewrite lookup_insert_eq.
  - now rewrite lookup_insert_ne.
Qed.

Lemma has_fields_lookup (st : State) (key field v : string) :
  stored_hash st key !! field = Some v -> has_fields st key = true.
Proof.
  intros H. apply bool_decide_eq_true_2. intros E. rewrite E in H. by rewrite lookup_empty in H.
Qed.

Lemma client_record_lookup (h : gmap string string) (field : string) :
  client_record h !! field = parse_field <$> h !! field.
Proof. unfold client_record. apply lookup_fmap. Qed.

Lemma as_strings_lookup (h : gmap string string) (field : string) :
  as_strings h !! field = JStr <$> h !! field.
Proof. unfold as_strings. apply lookup_fmap. Qed.

Lemma setRoomMeta_ok (st : State) (roomId : string) (m : PartialRoomMeta) :
  hash_ok st (metaKey roomId) = true ->
  exists st', setRoomMeta roomId m st = (Some tt, st')
    /\ stored_meta st' roomId = roomMetaFields m ∪ stored_meta st roomId
    /\ hash_ok st' (metaKey roomId) = true
    /\ rooms st' = rooms st /\ timers st' = timers st /\ outbox st' = outbox st.
Proof.
  intros Hok. unfold setRoomMeta.
  case_bool_decide as Hsz.
  - rewrite hset_ok by done. eexists. split; [reflexivity|].
    unfold stored_meta. rewrite stored_hash_insert, hash_ok_insert.
    rewrite !decide_True by done. done.
  - exists st. split; [reflexivity|].
    assert (roomMetaFields m = ∅) as ->.
    { apply map_size_empty_iff. lia. }
    now rewrite (left_id_L ∅ (∪)).
Qed.

Lemma roomMetaFields_fee m : roomMetaFields m !! "fee" = p_fee m.
Proof.
  unfold roomMetaFields, add_field, non_null.
  destruct m as [[f|] [c|] [a|] [[r|]|] [o|]]; simpl; by simplify_map_eq.
Qed.

Lemma roomMetaFields_createdAt m :
  roomMetaFields m !! "createdAt" = js_String <$> p_createdAt m.
Proof.
  unfold roomMetaFields, add_field, non_null.
  destruct m as [[f|] [c|] [a|] [[r|]|] [o|]]; simpl; by simplify_map_eq.
Qed.

Lemma roomMetaFields_asset m : roomMetaFields m !! "asset" = p_asset m.
Proof.
  unfold roomMetaFields, add_field, non_null.
  destruct m as [[f|] [c|] [a|] [[r|]|] [o|]]; simpl; by simplify_map_eq.
Qed.

Lemma roomMetaFields_roundEnd m :
  roomMetaFields m !! "roundEnd" = js_String <$> non_null (p_roundEnd m).
Proof.
  unfold roomMetaFields, add_field, non_null.
  destruct m as [[f|] [c|] [a|] [[r|]|] [o|]]; simpl; by simplify_map_eq.
Qed.

Lemma roomMetaFields_owner m : roomMetaFields m !! "owner" = p_owner m.
Proof.
  unfold roomMetaFields, add_field, non_null.
  destruct m as [[f|] [c|] [a|] [[r|]|] [o|]]; simpl; by simplify_map_eq.
Qed.

(** ** Merging and reading room meta *)

(** A sequence of [setRoomMeta] calls on one room. *)
Fixpoint setRoomMeta_all (roomId : string) (calls : list PartialRoomMeta) : M unit :=
  match calls with
  | [] => ret tt
  | m :: calls' => setRoomMeta roomId m ;;; setRoomMeta_all roomId calls'
  end.

(** The value of one field after a sequence of calls: the one of the last
    call that gave it, [init] when none did. *)
Definition last_given {A} (field : PartialRoomMeta -> option A)
    (calls : list PartialRoomMeta) (init : option A) : option A :=
  fold_left (fun acc m => match field m with Some v => Some v | None => acc end) calls init.

(** What the specification says a read returns after the calls on a fresh
    room: every supplied field with its last supplied value ([null] being
    a value of [roundEnd]), and the defaults for the others. *)
Definition spec_readRoomMeta (now : Z) (calls : list PartialRoomMeta) : RoomMeta :=
  {| fee := JStr (default "" (last_given p_fee calls None));
     createdAt := Num (default now (last_given p_createdAt calls None));
     asset := JStr <$> last_given p_asset calls None;
     roundEnd := Num <$> mjoin (last_given p_roundEnd calls None);
     owner := JStr <$> last_given p_owner calls None |}.

(** The same, with [null] left out of the supplied values like [undefined]. *)
Definition merged_readRoomMeta (now : Z) (calls : list PartialRoomMeta) : RoomMeta :=
  {| fee := JStr (default "" (last_given p_fee calls None));
     createdAt := Num (default now (last_given p_createdAt calls None));
     asset := JStr <$> last_given p_asset calls None;
     roundEnd := Num <$> last_given (fun m => non_null (p_roundEnd m)) calls None;
     owner := JStr <$> last_given p_owner calls None |}.

(** The stored fields after a sequence of calls. *)
Definition merged_fields (calls : list PartialRoomMeta) (h : gmap string string) :
    gmap string string :=
  fold_left (fun acc m => roomMetaFields m ∪ acc) calls h.

(** The text comes back from the store as the string it is. *)
Definition reads_back (text : string) : bool := bool_decide (parse_field text = JStr text).

(** The call writes a field. *)
Definition writes_field (m : PartialRoomMeta) : bool := bool_decide (roomMetaFields m <> ∅).

(** What the call supplies is read back as supplied: its strings come
    back as themselves and its numbers are not zero. *)
Definition supplied_read_back (m : PartialRoomMeta) : bool :=
  from_option reads_back true (p_fee m)
  && from_option (fun z => negb (z =? 0)) true (p_createdAt m)
  && from_option reads_back true (p_asset m)
  && from_option (fun z => negb (z =? 0)) true (non_null (p_roundEnd m))
  && from_option reads_back true (p_owner m).

Lemma setRoomMeta_all_ok (roomId : string) (calls : list PartialRoomMeta) (st : State) :
  hash_ok st (metaKey roomId) = true ->
  exists st', setRoomMeta_all roomId calls st = (Some tt, st')
    /\ stored_meta st' roomId = merged_fields calls (stored_meta st roomId)
    /\ hash_ok st' (metaKey roomId) = true.
Proof.
  revert st. induction calls as [|m calls IH]; intros st Hok; simpl.
  - exists st. done.
  - destruct (setRoomMeta_ok st roomId m Hok) as (st1 & E1 & Hm & Hok1 & _).
    destruct (IH st1 Hok1) as (st2 & E2 & Hm2 & Hok2).
    exists st2. unfold bind. rewrite E1, E2. split; [done|].
    unfold merged_fields in *. simpl. now rewrite Hm2, Hm.
Qed.

Lemma merged_fields_lookup {A} (field : PartialRoomMeta -> option A) (render : A -> string)
    (key : string) (calls : list PartialRoomMeta) (h : gmap string string) (init : option A) :
  (forall m, roomMetaFields m !! key = render <$> field m) ->
  h !! key = render <$> init ->
  merged_fields calls h !! key = render <$> last_given field calls init.
Proof.
  intros Hf. revert h init. unfold merged_fields, last_given.
  induction calls as [|m calls IH]; intros h init Hh; simpl; [done|].
  apply IH. rewrite lookup_union, Hf, Hh.
  destruct (field m), init; done.
Qed.

Lemma merged_fields_nonempty (calls : list PartialRoomMeta) (h : gmap string string) :
  h <> ∅ \/ existsb writes_field calls = true -> merged_fields calls h <> ∅.
Proof.
  revert h. unfold merged_fields.
  induction calls as [|m calls IH]; intros h H; simpl.
  - destruct H as [H|H]; [done|discriminate].
  - apply IH. destruct H as [H|H].
    + left. intros E. apply H. apply map_empty. intros k.
      assert ((roomMetaFields m ∪ h) !! k = None) as Hk by (rewrite E; apply lookup_empty).
      now apply lookup_union_None in Hk as [_ ?].
    + simpl in H. apply orb_prop in H as [H|H]; [left|now right].
      apply map_positive_l_alt. now apply bool_decide_eq_true in H.
Qed.

Lemma last_given_holds {A} (P : A -> Prop) (field : PartialRoomMeta -> option A)
    (calls : list PartialRoomMeta) (init : option A) :
  Forall (fun m => forall v, field m = Some v -> P v) calls ->
  (forall v, init = Some v -> P v) ->
  forall v, last_given field calls init = Some v -> P v.
Proof.
  unfold last_given. intros Hcalls. revert init.
  induction Hcalls as [|m calls Hm Hcalls IH]; intros init Hinit; simpl; [exact Hinit|].
  apply IH. destruct (field m) as [x|]; [|exact Hinit].
  intros v [= <-]. now apply Hm.
Qed.

Lemma supplied_read_back_spec (calls : list PartialRoomMeta) :
  forallb supplied_read_back calls = true ->
  Forall (fun m => forall v, p_fee m = Some v -> parse_field v = JStr v) calls
  /\ Forall (fun m => forall v, p_createdAt m = Some v -> v <> 0) calls
  /\ Forall (fun m => forall v, p_asset m = Some v -> parse_field v = JStr v) calls
  /\ Forall (fun m => forall v, non_null (p_roundEnd m) = Some v -> v <> 0) calls
  /\ Forall (fun m => forall v, p_owner m = Some v -> parse_field v = JStr v) calls.
Proof.
  intros H. rewrite forallb_forall in H.
  assert (forall m, m ∈ calls ->
            from_option reads_back true (p_fee m) = true
            /\ from_option (fun z => negb (z =? 0)) true (p_createdAt m) = true
            /\ from_option reads_back true (p_asset m) = true
            /\ from_option (fun z => negb (z =? 0)) true (non_null (p_roundEnd m)) = true
            /\ from_option reads_back true (p_owner m) = true) as Hall.
  { intros m Hm%list_elem_of_In. specialize (H m Hm). unfold supplied_read_back in H.
    rewrite !andb_true_iff in H. tauto. }
  repeat split; apply Forall_forall; intros m Hm v Hv;
    destruct (Hall m Hm) as (H1 & H2 & H3 & H4 & H5).
  - rewrite Hv in H1. now apply bool_decide_eq_true in H1.
  - rewrite Hv in H2. simpl in H2. intros ->. discriminate.
  - rewrite Hv in H3. now apply bool_decide_eq_true in H3.
  - rewrite Hv in H4. simpl in H4. intros ->. discriminate.
  - rewrite Hv in H5. now apply bool_decide_eq_true in H5.
Qed.

(** The numeric fields as [parseRoomMeta] reads them from the record of
    the client. *)
Lemma parse_createdAt_stored (h : gmap string string) (now z : Z) :
  h !! "createdAt" = Some (js_String z) ->
  createdAt (parseRoomMeta (client_record h) now) = Num (if z =? 0 then now else z).
Proof.
  intros H. unfold parseRoomMeta. cbn [createdAt].
  rewrite client_record_lookup, H. cbn [fmap option_fmap option_map truthy_prop from_option].
  rewrite truthy_numeral, to_number_numeral. now destruct (z =? 0).
Qed.

Lemma parse_createdAt_absent (h : gmap string string) (now : Z) :
  h !! "createdAt" = None -> createdAt (parseRoomMeta (client_record h) now) = Num now.
Proof.
  intros H. unfold parseRoomMeta. cbn [createdAt]. now rewrite client_record_lookup, H.
Qed.

Lemma parse_roundEnd_stored (h : gmap string string) (now z : Z) :
  h !! "roundEnd" = Some (js_String z) ->
  roundEnd (parseRoomMeta (client_record h) now) = if z =? 0 then None else Some (Num z).
Proof.
  intros H. unfold parseRoomMeta. cbn [roundEnd].
  rewrite client_record_lookup, H. cbn [fmap option_fmap option_map truthy_prop from_option].
  rewrite truthy_numeral, to_number_numeral. now destruct (z =? 0).
Qed.

Lemma parse_roundEnd_absent (h : gmap string string) (now : Z) :
  h !! "roundEnd" = None -> roundEnd (parseRoomMeta (client_record h) now) = None.
Proof.
  intros H. unfold parseRoomMeta. cbn [roundEnd]. now rewrite client_record_lookup, H.
Qed.

Lemma parse_merged_fields (now : Z) (calls : list PartialRoomMeta) :
  forallb supplied_read_back calls = true ->
  parseRoomMeta (client_record (merged_fields calls ∅)) now = merged_readRoomMeta now calls.
Proof.
  intros (Hfee & Hcr & Has & Hre & How)%supplied_read_back_spec.
  pose proof (merged_fields_lookup p_fee id "fee" calls ∅ None) as Ef.
  pose proof (merged_fields_lookup p_createdAt js_String "createdAt" calls ∅ None) as Ec.
  pose proof (merged_fields_lookup p_asset id "asset" calls ∅ None) as Ea.
  pose proof (merged_fields_lookup (fun m => non_null (p_roundEnd m)) js_String "roundEnd"
                calls ∅ None) as Er.
  pose proof (merged_fields_lookup p_owner id "owner" calls ∅ None) as Eo.
  pose proof (last_given_holds _ p_fee calls None Hfee ltac:(done)) as Lf.
  pose proof (last_given_holds _ p_createdAt calls None Hcr ltac:(done)) as Lc.
  pose proof (last_given_holds _ p_asset calls None Has ltac:(done)) as La.
  pose proof (last_given_holds _ (fun m => non_null (p_roundEnd m)) calls None Hre ltac:(done))
    as Lr.
  pose proof (last_given_holds _ p_owner calls None How ltac:(done)) as Lo.
  unfold parseRoomMeta, merged_readRoomMeta. rewrite !client_record_lookup.
  rewrite Ef by (done || intros; rewrite roomMetaFields_fee; now destruct (p_fee _)).
  rewrite Ec by (done || apply roomMetaFields_createdAt).
  rewrite Ea by (done || intros; rewrite roomMetaFields_asset; now destruct (p_asset _)).
  rewrite Er by (done || apply roomMetaFields_roundEnd).
  rewrite Eo by (done || intros; rewrite roomMetaFields_owner; now destruct (p_owner _)).
  clear Ef Ec Ea Er Eo. f_equal.
  - destruct (last_given p_fee calls None) as [f|]; [|done].
    simpl. now rewrite (Lf f eq_refl).
  - destruct (last_given p_createdAt calls None) as [c|]; [|done].
    cbn [fmap option_fmap option_map truthy_prop from_option].
    rewrite truthy_numeral, to_number_numeral.
    destruct (Z.eqb_spec c 0) as [->|_]; [now destruct (Lc 0 eq_refl)|done].
  - destruct (last_given p_asset calls None) as [a|]; [|done].
    simpl. now rewrite (La a eq_refl).
  - destruct (last_given (fun m => non_null (p_roundEnd m)) calls None) as [r|]; [|done].
    cbn [fmap option_fmap option_map truthy_prop from_option].
    rewrite truthy_numeral, to_number_numeral.
    destruct (Z.eqb_spec r 0) as [->|_]; [now destruct (Lr 0 eq_refl)|done].
  - destruct (last_given p_owner calls None) as [o|]; [|done].
    simpl. now rewrite (Lo o eq_refl).
Qed.

Lemma setRoomMeta_untouched (roomId field : string) (m : PartialRoomMeta) (st : State) :
  roomMetaFields m !! field = None ->
  stored_meta (setRoomMeta roomId m st).2 roomId !! field = stored_meta st roomId !! field.
Proof.
  intros Hnone. destruct (hash_ok st (metaKey roomId)) eqn:Hok.
  - destruct (setRoomMeta_ok st roomId m Hok) as (st' & E & Hm & _).
    rewrite E. simpl. rewrite Hm, lookup_union, Hnone.
    now destruct (stored_meta st roomId !! field).
  - unfold setRoomMeta. case_bool_decide; [|done].
    now rewrite hset_rejected.
Qed.

Lemma getRoomMeta_record (now : Z) (roomId : string) (st : State) :
  has_fields st (metaKey roomId) = true ->
  getRoomMeta now roomId st = (Some (room_meta now st roomId), st).
Proof.
  intros H. unfold getRoomMeta, bind. now rewrite hgetall_record.
Qed.

(** On a room with no field stored the read throws. *)
Lemma getRoomMeta_null (now : Z) (roomId : string) (st : State) :
  has_fields st (metaKey roomId) = false ->
  getRoomMeta now roomId st = (None, st).
Proof.
  intros H. unfold getRoomMeta, bind.
  destruct (hash_ok st (metaKey roomId)) eqn:Hok.
  - now rewrite hgetall_null.
  - now rewrite hgetall_rejected.
Qed.

(** C6 (as amended): on a room with no stored meta, after any sequence of
    [setRoomMeta] calls of which at least one writes a field,
    [getRoomMeta] at time [now] returns, for every field, the value of the
    last call that supplied it with a value other than [undefined] and
    [null], later calls overriding earlier ones, and the default
    ([fee = ""], [createdAt = now], [roundEnd = null], [asset] and [owner]
    unset) for a field no call supplied, the supplied values being such
    as the store client hands back unchanged; and a call leaves every
    field it supplies as [undefined] or [null] untouched in the store. *)
Theorem setRoomMeta_getRoomMeta_merge (roomId : string) (calls : list PartialRoomMeta)
    (now : Z) (st : State) :
  redis st !! metaKey roomId = None ->
  existsb writes_field calls = true ->
  forallb supplied_read_back calls = true ->
  ((setRoomMeta_all roomId calls ;;; getRoomMeta now roomId) st).1
    = Some (merged_readRoomMeta now calls)
  /\ (forall m field st0, roomMetaFields m !! field = None ->
        stored_meta (setRoomMeta roomId m st0).2 roomId !! field
          = stored_meta st0 roomId !! field)
  /\ (forall m, (p_roundEnd m = None \/ p_roundEnd m = Some None) ->
        roomMetaFields m !! "roundEnd" = None).
Proof.
  intros Hfresh Hwrites Hback. split; [|split].
  - destruct (has_fields_free st _ Hfresh) as [_ Hok].
    destruct (setRoomMeta_all_ok roomId calls st Hok) as (st' & E & Hm & Hok').
    assert (stored_meta st roomId = ∅) as Hempty.
    { unfold stored_meta, stored_hash. now rewrite Hfresh. }
    rewrite Hempty in Hm.
    unfold bind. rewrite E. rewrite getRoomMeta_record.
    + simpl. f_equal. unfold room_meta. rewrite Hm. now apply parse_merged_fields.
    + apply bool_decide_eq_true_2. fold (stored_meta st' roomId). rewrite Hm.
      apply merged_fields_nonempty. now right.
  - intros m field st0. apply setRoomMeta_untouched.
  - intros m Hm. rewrite roomMetaFields_roundEnd. now destruct Hm as [-> | ->].
Qed.

Lemma setRoomMeta_getRoomMeta_merge_witness :
  redis empty_state !! metaKey "R1" = None
  /\ ((setRoomMeta_all "R1"
      [ {| p_fee := Some "10 USDC"; p_createdAt := Some 1000; p_asset := None;
           p_roundEnd := Some None; p_owner := Some "0xA1" |};
        {| p_fee := None; p_createdAt := None; p_asset := Some "USDC";
           p_roundEnd := None; p_owner := None |};
        {| p_fee := None; p_createdAt := None; p_asset := None;
           p_roundEnd := Some (Some 305000); p_owner := None |} ] ;;;
    getRoomMeta 7000 "R1") empty_state).1
  = Some {| fee := JStr "10 USDC"; createdAt := Num 1000; asset := Some (JStr "USDC");
            roundEnd := Some (Num 305000); owner := Some (JStr "0xA1") |}.
Proof.
  split; [reflexivity|].
  refine (proj1 (setRoomMeta_getRoomMeta_merge "R1" _ 7000 empty_state _ _ _)).
  - reflexivity.
  - vm_compute; reflexivity.
  - vm_compute; reflexivity.
Defined.

(** C6 (as stated) fails: a later call that supplies [roundEnd: null] does
    not override the [roundEnd] an earlier call stored. *)
Lemma setRoomMeta_null_does_not_override :
  ((setRoomMeta_all "R1"
      [ {| p_fee := None; p_createdAt := None; p_asset := None;
           p_roundEnd := Some (Some 305000); p_owner := None |};
        {| p_fee := None; p_createdAt := None; p_asset := None;
           p_roundEnd := Some None; p_owner := None |} ] ;;;
    getRoomMeta 7000 "R1") empty_state).1
  <> Some (spec_readRoomMeta 7000
      [ {| p_fee := None; p_createdAt := None; p_asset := None;
           p_roundEnd := Some (Some 305000); p_owner := None |};
        {| p_fee := None; p_createdAt := None; p_asset := None;
           p_roundEnd := Some None; p_owner := None |} ]).
Proof. vm_compute. discriminate. Qed.

(** ** Starting a round *)

(** An emit to the calling connection alone, and one to a room. *)
Definition to_caller (sid : string) (ev : out_event) : Emit :=
  {| e_target := ToSocket sid; e_recipients := {[sid]}; e_event := ev |}.

Definition to_room (st : State) (roomId : string) (ev : out_event) : Emit :=
  {| e_target := ToRoom roomId; e_recipients := members st roomId; e_event := ev |}.

(** The guard [meta.roundEnd && Number(meta.roundEnd) > Date.now()]. *)
Definition round_running (m : RoomMeta) (now : Z) : bool :=
  truthy_num (roundEnd m) && from_option (fun n => js_gt n now) false (roundEnd m).

(** The interval handle [startTimer] creates for a round. *)
Definition round_timer (roomId : string) (roundEnd : Z) : Timer :=
  {| t_room := roomId; t_roundEnd := roundEnd; t_period := 1000; t_active := true |}.

Lemma emitted_push (st : State) (e : Emit) : emitted st (push_out e st) = [e].
Proof. unfold emitted. simpl. now rewrite drop_app_length. Qed.

Lemma emitted_refl (st : State) : emitted st st = [].
Proof. unfold emitted. apply drop_all. Qed.

Lemma round_running_spec (m : RoomMeta) (now : Z) :
  0 <= now ->
  round_running m now = true <-> exists t, roundEnd m = Some (Num t) /\ now < t.
Proof.
  intros Hnow. unfold round_running.
  destruct (roundEnd m) as [[t|]|]; simpl.
  - rewrite andb_true_iff, negb_true_iff, Z.eqb_neq, Z.ltb_lt. split.
    + intros [_ Hlt]. exists t. done.
    + intros (t' & [= <-] & Hlt). split; lia.
  - split; [done|]. intros (t & [=] & _).
  - split; [done|]. intros (t & [=] & _).
Qed.

Lemma start_round_unfold (now : Z) (sid roomId : string) (w : option string) (st : State) :
  has_fields st (metaKey roomId) = true ->
  on_start_round now sid roomId w st =
    let m := room_meta now st roomId in
    if negb (strict_eq w (owner m)) then
      (Some tt, push_out (to_caller sid (E_start_round_error "Only room owner can start round.")) st)
    else if round_running m now then
      (Some tt, push_out (to_caller sid (E_start_round_error "Round already started.")) st)
    else
      (setRoomMeta roomId {| p_fee := None; p_createdAt := None; p_asset := None;
                             p_roundEnd := Some (Some (now + 5 * 60 * 1000)); p_owner := None |} ;;;
       io_to_emit roomId (E_round_started (now + 5 * 60 * 1000) (owner m)) ;;;
       spawn (startTimer now roomId)) st.
Proof.
  intros Hok. unfold on_start_round, bind at 1.
  rewrite hgetall_record by done. unfold bind at 1. cbn [with_record ret].
  unfold room_meta, stored_meta, round_running.
  destruct (negb _); [reflexivity|].
  destruct (_ && _); reflexivity.
Qed.

(** With no field stored under the meta key, the handler throws when it
    parses the reply: it emits nothing and changes nothing. *)
Lemma start_round_null (now : Z) (sid roomId : string) (w : option string) (st : State) :
  has_fields st (metaKey roomId) = false ->
  on_start_round now sid roomId w st = (None, st).
Proof.
  intros H. unfold on_start_round, bind at 1.
  destruct (hash_ok st (metaKey roomId)) eqn:Hok.
  - rewrite hgetall_null by done. reflexivity.
  - now rewrite hgetall_rejected.
Qed.

Lemma roomMetaFields_roundEnd_only (z : Z) :
  roomMetaFields {| p_fee := None; p_createdAt := None; p_asset := None;
                    p_roundEnd := Some (Some z); p_owner := None |}
  = <["roundEnd" := js_String z]> ∅.
Proof. reflexivity. Qed.

Lemma start_round_success (now : Z) (sid roomId : string) (w : option string) (st : State) :
  has_fields st (metaKey roomId) = true ->
  0 <= now ->
  strict_eq w (owner (room_meta now st roomId)) = true ->
  round_running (room_meta now st roomId) now = false ->
  on_start_round now sid roomId w st =
    (Some tt,
     set_timers (fun ts => ts ++ [round_timer roomId (now + 300000)])
       (push_out (to_room st roomId
                    (E_round_started (now + 300000) (owner (room_meta now st roomId))))
          (set_redis (insert (metaKey roomId)
                        (RHash (<["roundEnd" := js_String (now + 300000)]> (stored_meta st roomId))))
             st))).
Proof.
  intros Hf Hnow Hw Hrun.
  pose proof (has_fields_hash_ok _ _ Hf) as Hok.
  rewrite start_round_unfold by done. cbn zeta.
  rewrite Hw, Hrun. cbn [negb].
  change (now + 5 * 60 * 1000) with (now + 300000).
  unfold bind at 1. unfold setRoomMeta.
  rewrite bool_decide_eq_true_2.
  2:{ rewrite roomMetaFields_roundEnd_only, map_size_insert_None by done. lia. }
  rewrite hset_ok by done.
  unfold bind at 1, io_to_emit.
  unfold spawn, startTimer.
  set (st1 := push_out _ _).
  assert (stored_hash st1 (metaKey roomId) !! "roundEnd" = Some (js_String (now + 300000))) as Hre.
  { subst st1. unfold stored_hash, push_out. simpl. rewrite lookup_insert_eq.
    rewrite lookup_union, roomMetaFields_roundEnd_only, lookup_insert_eq.
    now destruct (_ !! "roundEnd"). }
  unfold bind at 1. rewrite hgetall_record by now apply (has_fields_lookup _ _ _ _ Hre).
  unfold bind at 1. cbn [with_record ret].
  rewrite (parse_roundEnd_stored _ now (now + 300000) Hre).
  destruct (Z.eqb_spec (now + 300000) 0) as [E|E]; [lia|].
  cbn [truthy_num]. destruct (Z.eqb_spec (now + 300000) 0) as [E'|_]; [lia|].
  cbn [negb snd]. f_equal. subst st1. unfold setInterval, set_timers, push_out, set_redis, to_room,
    round_timer, members. simpl. do 3 f_equal.
  rewrite roomMetaFields_roundEnd_only. fold (stored_meta st roomId).
  now rewrite <- insert_union_l, (left_id_L ∅ (∪)).
Qed.

Lemma start_round_step (now : Z) (sid roomId : string) (w : option string) (st : State) :
  step now sid (start_round roomId w) st = (on_start_round now sid roomId w st).2.
Proof. reflexivity. Qed.

(** C3 fails on the code: on a room id under which no meta was written
    (the room of a [join] without [asset]), [start_round] with any wallet
    throws when it parses the [null] the store client returned: the caller
    gets no [start_round_error]. Where the meta holds a field, the
    handler does fail exactly when the wallet is not strictly equal to the
    owner it read (error ["Only room owner can start round."]) or the
    [roundEnd] it read is later than the current time (error
    ["Round already started."]); such a failure emits its one error event
    to the caller only and changes nothing else. *)
Theorem start_round_failure (now : Z) (sid roomId : string) (w : option string) (st : State) :
  0 <= now ->
  let m := room_meta now st roomId in
  let st' := step now sid (start_round roomId w) st in
  (has_fields st (metaKey roomId) = false ->
     handle now sid (start_round roomId w) st = (None, st) /\ emitted st st' = [])
  /\ (has_fields st (metaKey roomId) = true ->
      (strict_eq w (owner m) = false ->
         st' = push_out (to_caller sid
                           (E_start_round_error "Only room owner can start round.")) st)
      /\ (strict_eq w (owner m) = true -> (exists t, roundEnd m = Some (Num t) /\ now < t) ->
         st' = push_out (to_caller sid (E_start_round_error "Round already started.")) st)
      /\ ((exists msg, emitted st st' = [to_caller sid (E_start_round_error msg)])
          <-> (strict_eq w (owner m) = false \/ exists t, roundEnd m = Some (Num t) /\ now < t))
      /\ ((strict_eq w (owner m) = false \/ exists t, roundEnd m = Some (Num t) /\ now < t) ->
          redis st' = redis st /\ rooms st' = rooms st /\ timers st' = timers st
          /\ forall e, e ∈ emitted st st' -> e_recipients e = {[sid]})).
Proof.
  intros Hnow m st'. split.
  { intros Hnull. subst st'. rewrite start_round_step. cbn [handle].
    rewrite start_round_null by done. split; [done|apply emitted_refl]. }
  intros Hf.
  assert (Hbad : strict_eq w (owner m) = false ->
     st' = push_out (to_caller sid (E_start_round_error "Only room owner can start round.")) st).
  { intros Hne. subst st'. rewrite start_round_step, start_round_unfold by done.
    cbn zeta. fold m. now rewrite Hne. }
  assert (Hrun : strict_eq w (owner m) = true ->
     (exists t, roundEnd m = Some (Num t) /\ now < t) ->
     st' = push_out (to_caller sid (E_start_round_error "Round already started.")) st).
  { intros Hw Ht. subst st'. rewrite start_round_step, start_round_unfold by done.
    cbn zeta. fold m. rewrite Hw.
    apply (round_running_spec m now Hnow) in Ht. now rewrite Ht. }
  split; [exact Hbad|]. split; [exact Hrun|]. split.
  - split.
    + intros [msg Hmsg].
      destruct (strict_eq w (owner m)) eqn:Hw; [|now left]. right.
      destruct (round_running m now) eqn:Hr.
      { now apply (round_running_spec m now Hnow). }
      exfalso. subst st'.
      rewrite start_round_step, start_round_success in Hmsg by done.
      unfold emitted in Hmsg. simpl in Hmsg. rewrite drop_app_length in Hmsg.
      discriminate.
    + intros [Hne|Ht].
      * eexists. rewrite (Hbad Hne). apply emitted_push.
      * destruct (strict_eq w (owner m)) eqn:Hw.
        -- eexists. rewrite (Hrun eq_refl Ht). apply emitted_push.
        -- eexists. rewrite (Hbad eq_refl). apply emitted_push.
  - intros Hfail.
    assert (exists msg, st' = push_out (to_caller sid (E_start_round_error msg)) st) as [msg ->].
    { destruct (strict_eq w (owner m)) eqn:Hw; [|eauto].
      destruct Hfail as [Hne|Ht]; [done|eauto]. }
    repeat split; try done.
    intros e. rewrite emitted_push. intros ->%list_elem_of_singleton. done.
Qed.

(** C4: a successful [start_round] at time [now] (the meta holds a field,
    the wallet is strictly equal to the owner read from it and no round is
    running) stores [roundEnd = now + 300000] (five minutes, whatever the
    room) in the room meta, broadcasts [round_started] with that
    [roundEnd] and the owner to the whole room, and starts one interval
    timer of the room with a period of 1000 ms. *)
Theorem start_round_started (now : Z) (sid roomId : string) (w : option string) (st : State) :
  0 <= now ->
  has_fields st (metaKey roomId) = true ->
  strict_eq w (owner (room_meta now st roomId)) = true ->
  round_running (room_meta now st roomId) now = false ->
  let st' := step now sid (start_round roomId w) st in
  now + 5 * 60 * 1000 = now + 300000
  /\ (forall now', roundEnd (room_meta now' st' roomId) = Some (Num (now + 300000)))
  /\ stored_meta st' roomId = <["roundEnd" := js_String (now + 300000)]> (stored_meta st roomId)
  /\ emitted st st' =
       [ {| e_target := ToRoom roomId; e_recipients := members st roomId;
            e_event := E_round_started (now + 300000) (owner (room_meta now st roomId)) |} ]
  /\ timers st' = timers st ++
       [ {| t_room := roomId; t_roundEnd := now + 300000; t_period := 1000; t_active := true |} ].
Proof.
  intros Hnow Hok Hw Hrun st'. subst st'.
  rewrite start_round_step, start_round_success by done. cbn [snd].
  assert (stored_meta
    (set_timers (fun ts => ts ++ [round_timer roomId (now + 300000)])
       (push_out (to_room st roomId
                    (E_round_started (now + 300000) (owner (room_meta now st roomId))))
          (set_redis (insert (metaKey roomId)
             (RHash (<["roundEnd" := js_String (now + 300000)]> (stored_meta st roomId)))) st)))
    roomId = <["roundEnd" := js_String (now + 300000)]> (stored_meta st roomId)) as Hm.
  { unfold stored_meta at 1, stored_hash. simpl. now rewrite lookup_insert_eq. }
  split; [reflexivity|]. split; [|split; [exact Hm|split]].
  - intros now'. unfold room_meta at 1. rewrite Hm.
    rewrite (parse_roundEnd_stored _ now' (now + 300000)) by apply lookup_insert_eq.
    destruct (Z.eqb_spec (now + 300000) 0); [lia|done].
  - unfold emitted. simpl. now rewrite drop_app_length.
  - reflexivity.
Qed.

(** A room [R1] created by wallet [W1] over connection [s1], which
    connections [s1] and [s2] then join. *)
Definition room_R1 : State :=
  run [ {| ev_now := 1000; ev_sid := "s1";
           ev_req := create_lobby_room (Some "10") None (Some "W1") (Some "al") (Some "R1") |};
        {| ev_now := 2000; ev_sid := "s1"; ev_req := join "R1" "al" "W1" "10" None |};
        {| ev_now := 3000; ev_sid := "s2"; ev_req := join "R1" "bob" "W2" "10" (Some "USDC") |} ]
      empty_state.

(** A room id that was only ever joined, with no [asset] in the payload,
    as the client of the repository joins. *)
Definition joined_R9 : State :=
  run [ {| ev_now := 1000; ev_sid := "s1"; ev_req := join "R9" "al" "W1" "10" None |} ]
      empty_state.

Lemma start_round_failure_witness :
  0 <= 2000
  /\ has_fields joined_R9 (metaKey "R9") = false
  /\ handle 2000 "s2" (start_round "R9" (Some "W2")) joined_R9 = (None, joined_R9)
  /\ emitted joined_R9 (step 2000 "s2" (start_round "R9" (Some "W2")) joined_R9) = [].
Proof.
  split; [lia|]. split; [vm_compute; reflexivity|].
  refine (proj1 (start_round_failure 2000 "s2" "R9" (Some "W2") joined_R9 _) _).
  - lia.
  - vm_compute; reflexivity.
Defined.

Lemma start_round_started_witness :
  0 <= 5000
  /\ has_fields room_R1 (metaKey "R1") = true
  /\ strict_eq (Some "W1") (owner (room_meta 5000 room_R1 "R1")) = true
  /\ round_running (room_meta 5000 room_R1 "R1") 5000 = false
  /\ timers (step 5000 "s1" (start_round "R1" (Some "W1")) room_R1)
     = timers room_R1 ++
       [ {| t_room := "R1"; t_roundEnd := 5000 + 300000; t_period := 1000; t_active := true |} ].
Proof.
  split; [lia|]. split; [vm_compute; reflexivity|].
  split; [vm_compute; reflexivity|]. split; [vm_compute; reflexivity|].
  refine (proj2 (proj2 (proj2 (proj2
    (start_round_started 5000 "s1" "R1" (Some "W1") room_R1 _ _ _ _))))).
  - lia.
  - vm_compute; reflexivity.
  - vm_compute; reflexivity.
  - vm_compute; reflexivity.
Defined.

(** ** Creating a room from the lobby *)

(** The initial meta and the first player [create_lobby_room] passes on. *)
Definition initial_meta (now : Z) (entryFee wallet : option string) : PartialRoomMeta :=
  {| p_fee := entryFee; p_createdAt := Some now; p_asset := None;
     p_roundEnd := Some None; p_owner := wallet |}.

Definition first_player (now : Z) (nickname wallet : option string) : PartialPlayerData :=
  {| p_nickname := nickname; p_wallet := wallet; p_joinedAt := Some now |}.

Lemma playerFields_nickname d : playerFields d !! "nickname" = p_nickname d.
Proof.
  unfold playerFields, add_field.
  destruct d as [[n|] [w|] [j|]]; simpl; by simplify_map_eq.
Qed.

Lemma playerFields_wallet d : playerFields d !! "wallet" = p_wallet d.
Proof.
  unfold playerFields, add_field.
  destruct d as [[n|] [w|] [j|]]; simpl; by simplify_map_eq.
Qed.

Lemma playerFields_joinedAt d : playerFields d !! "joinedAt" = js_String <$> p_joinedAt d.
Proof.
  unfold playerFields, add_field.
  destruct d as [[n|] [w|] [j|]]; simpl; by simplify_map_eq.
Qed.

(** Player fields and meta fields have different names. *)
Lemma playerFields_not_meta d (field : string) :
  field ∈ ["fee"; "createdAt"; "asset"; "roundEnd"; "owner"] ->
  playerFields d !! field = None.
Proof.
  intros Hin. unfold playerFields, add_field.
  repeat (apply elem_of_cons in Hin as [->|Hin]);
    try (destruct d as [[n|] [w|] [j|]]; simpl; by simplify_map_eq).
  by apply elem_of_nil in Hin.
Qed.

Lemma fields_nonempty (fs : gmap string string) (k v : string) :
  fs !! k = Some v -> bool_decide (0 < size fs)%nat = true.
Proof.
  intros H. apply bool_decide_eq_true_2.
  destruct (decide (size fs = 0%nat)) as [E|E]; [|lia].
  apply map_size_empty_iff in E. subst fs. by rewrite lookup_empty in H.
Qed.

Lemma create_lobby_room_success (now : Z) (sid : string)
    (entryFee maxParticipants w nick : option string) (roomId : string) (st : State) :
  roomId <> "" ->
  hash_ok st (metaKey roomId) = true ->
  hash_ok st (playerKey roomId sid) = true ->
  let st1 := set_redis (insert (metaKey roomId)
               (RHash (roomMetaFields (initial_meta now entryFee w) ∪ stored_meta st roomId))) st in
  let st2 := set_redis (insert (playerKey roomId sid)
               (RHash (playerFields (first_player now nick w)
                       ∪ stored_hash st1 (playerKey roomId sid)))) st1 in
  on_create_lobby_room now sid entryFee maxParticipants w nick (Some roomId) st
    = (Some tt, push_out (to_caller sid (E_room_created roomId)) st2).
Proof.
  intros Hne Hmk Hpk st1 st2. unfold on_create_lobby_room.
  assert (truthy_str (Some roomId) = true) as ->.
  { simpl. destruct (String.eqb_spec roomId ""); done. }
  cbn [negb from_option id]. unfold bind at 1, setRoomMeta.
  fold (initial_meta now entryFee w).
  rewrite (fields_nonempty _ "createdAt" (js_String now))
    by now rewrite roomMetaFields_createdAt.
  rewrite hset_ok by done. fold (stored_meta st roomId). fold st1.
  unfold bind at 1, setPlayer. fold (first_player now nick w).
  rewrite (fields_nonempty _ "joinedAt" (js_String now))
    by now rewrite playerFields_joinedAt.
  rewrite hset_ok.
  2:{ subst st1. rewrite hash_ok_insert. case_decide; done. }
  reflexivity.
Qed.

(** When the store rejects the meta write, nothing is written and nothing
    is sent; when it rejects the player write, the meta stays written. *)
Lemma create_lobby_room_meta_written (now : Z) (sid : string)
    (entryFee maxParticipants w nick : option string) (roomId field : string) (st : State) :
  roomId <> "" ->
  hash_ok st (metaKey roomId) = true ->
  field ∈ ["fee"; "createdAt"; "asset"; "roundEnd"; "owner"] ->
  stored_meta (step now sid (create_lobby_room entryFee maxParticipants w nick (Some roomId)) st)
    roomId !! field
  = (roomMetaFields (initial_meta now entryFee w) ∪ stored_meta st roomId) !! field.
Proof.
  intros Hne Hmk Hfield. unfold step. cbn [handle].
  destruct (hash_ok st (playerKey roomId sid)) eqn:Hpk.
  - rewrite create_lobby_room_success by done. cbn [snd].
    unfold stored_meta at 1, stored_hash. simpl.
    destruct (decide (playerKey roomId sid = metaKey roomId)) as [E|E].
    + rewrite E, lookup_insert_eq. unfold stored_hash. simpl.
      rewrite lookup_insert_eq.
      rewrite lookup_union, playerFields_not_meta by done.
      now destruct (_ !! field).
    + rewrite lookup_insert_ne by done. now rewrite lookup_insert_eq.
  - unfold on_create_lobby_room.
    assert (truthy_str (Some roomId) = true) as ->.
    { simpl. destruct (String.eqb_spec roomId ""); done. }
    cbn [negb from_option id]. unfold bind at 1, setRoomMeta.
    fold (initial_meta now entryFee w).
    rewrite (fields_nonempty _ "createdAt" (js_String now))
      by now rewrite roomMetaFields_createdAt.
    rewrite hset_ok by done. fold (stored_meta st roomId).
    unfold bind at 1, setPlayer. fold (first_player now nick w).
    rewrite (fields_nonempty _ "joinedAt" (js_String now))
      by now rewrite playerFields_joinedAt.
    rewrite hset_rejected.
    2:{ rewrite <- Hpk. unfold hash_ok, set_redis. simpl.
        destruct (decide (metaKey roomId = playerKey roomId sid)) as [E|E].
        - rewrite <- E in Hpk. congruence.
        - now rewrite lookup_insert_ne. }
    cbn [snd]. unfold stored_meta at 1, stored_hash. simpl.
    now rewrite lookup_insert_eq.
Qed.

Lemma option_union_Some_l {A} (x : A) (o : option A) : Some x ∪ o = Some x.
Proof. now destruct o. Qed.

Lemma option_union_None_l {A} (o : option A) : None ∪ o = o.
Proof. now destruct o. Qed.

Lemma initial_meta_roundEnd (now : Z) (entryFee w : option string) :
  roomMetaFields (initial_meta now entryFee w) !! "roundEnd" = None.
Proof. now rewrite roomMetaFields_roundEnd. Qed.

Lemma parse_roundEnd_ext (h1 h2 : gmap string string) (now1 now2 : Z) :
  h1 !! "roundEnd" = h2 !! "roundEnd" ->
  roundEnd (parseRoomMeta (client_record h1) now1)
  = roundEnd (parseRoomMeta (client_record h2) now2).
Proof.
  intros H. unfold parseRoomMeta. cbn [roundEnd]. now rewrite !client_record_lookup, H.
Qed.

(** A player record that holds the three fields, read as the source
    declares it and as the store client hands it back. *)
Lemma parsePlayerData_as_strings (h : gmap string string) (n w : string) (j now : Z) :
  h !! "nickname" = Some n -> h !! "wallet" = Some w -> h !! "joinedAt" = Some (js_String j) ->
  parsePlayerData (as_strings h) now
  = {| nickname := JStr n; wallet := JStr w; joinedAt := Num j |}.
Proof.
  intros Hn Hw Hj. unfold parsePlayerData. rewrite !as_strings_lookup, Hn, Hw, Hj.
  cbn [fmap option_fmap option_map truthy_prop from_option or_default].
  rewrite truthy_JStr_numeral. cbn [to_number]. now rewrite js_Number_String.
Qed.

Lemma parsePlayerData_client (h : gmap string string) (n w : string) (j now : Z) :
  h !! "nickname" = Some n -> h !! "wallet" = Some w -> h !! "joinedAt" = Some (js_String j) ->
  parsePlayerData (client_record h) now
  = {| nickname := read_back n; wallet := read_back w;
       joinedAt := Num (if j =? 0 then now else j) |}.
Proof.
  intros Hn Hw Hj. unfold parsePlayerData. rewrite !client_record_lookup, Hn, Hw, Hj.
  cbn [fmap option_fmap option_map truthy_prop from_option].
  rewrite truthy_numeral, to_number_numeral. unfold read_back. now destruct (j =? 0).
Qed.

(** C7 (as amended): a successful [create_lobby_room] with a non-empty
    room id passes [roundEnd: null] in the initial meta, which the merge
    skips: a read of the room meta right afterwards returns the [roundEnd]
    stored under that room id before, hence [null] when none was stored;
    the caller is registered as a player of the room and alone receives
    [room_created] with the room id. *)
Theorem create_lobby_room_initial (now : Z) (sid : string)
    (entryFee maxParticipants : option string) (w nick roomId : string) (st : State) :
  roomId <> "" ->
  hash_ok st (metaKey roomId) = true ->
  hash_ok st (playerKey roomId sid) = true ->
  let st' := step now sid
               (create_lobby_room entryFee maxParticipants (Some w) (Some nick) (Some roomId)) st in
  p_roundEnd (initial_meta now entryFee (Some w)) = Some None
  /\ (forall now', roundEnd (room_meta now' st' roomId) = roundEnd (room_meta now' st roomId))
  /\ (stored_meta st roomId !! "roundEnd" = None ->
      forall now', roundEnd (room_meta now' st' roomId) = None)
  /\ (forall now', parsePlayerData (as_strings (stored_hash st' (playerKey roomId sid))) now'
                   = {| nickname := JStr nick; wallet := JStr w; joinedAt := Num now |})
  /\ (forall now', parsePlayerData (client_record (stored_hash st' (playerKey roomId sid))) now'
                   = {| nickname := read_back nick; wallet := read_back w;
                        joinedAt := Num (if now =? 0 then now' else now) |})
  /\ emitted st st' = [to_caller sid (E_room_created roomId)].
Proof.
  intros Hne Hmk Hpk st'.
  assert (Hre : stored_meta st' roomId !! "roundEnd" = stored_meta st roomId !! "roundEnd").
  { subst st'. rewrite create_lobby_room_meta_written by (done || set_solver).
    rewrite lookup_union, initial_meta_roundEnd. now destruct (_ !! "roundEnd"). }
  assert (Hplayer : stored_hash st' (playerKey roomId sid) !! "nickname" = Some nick
                    /\ stored_hash st' (playerKey roomId sid) !! "wallet" = Some w
                    /\ stored_hash st' (playerKey roomId sid) !! "joinedAt"
                       = Some (js_String now)).
  { assert (exists old, stored_hash st' (playerKey roomId sid)
                          = playerFields (first_player now (Some nick) (Some w)) ∪ old)
      as [old ->].
    { subst st'. unfold step. cbn [handle].
      rewrite create_lobby_room_success by done. cbn [snd].
      unfold stored_hash at 1. simpl. rewrite lookup_insert_eq. eauto. }
    rewrite !lookup_union, playerFields_nickname, playerFields_wallet, playerFields_joinedAt.
    cbn [first_player p_nickname p_wallet p_joinedAt fmap option_fmap option_map].
    now rewrite !option_union_Some_l. }
  destruct Hplayer as (Hn & Hw & Hj).
  split; [reflexivity|]. split; [|split; [|split; [|split]]].
  - intros now'. unfold room_meta. now apply parse_roundEnd_ext.
  - intros Hnone now'. unfold room_meta. apply parse_roundEnd_absent. congruence.
  - intros now'. now apply parsePlayerData_as_strings.
  - intros now'. now apply parsePlayerData_client.
  - subst st'. unfold step. cbn [handle].
    rewrite create_lobby_room_success by done. cbn [snd].
    unfold emitted. simpl. now rewrite drop_app_length.
Qed.

(** A round started in room [R1] by its owner at time 5000. *)
Definition round_R1 : State := step 5000 "s1" (start_round "R1" (Some "W1")) room_R1.

Lemma create_lobby_room_initial_witness :
  "R1" <> ""
  /\ hash_ok round_R1 (metaKey "R1") = true
  /\ hash_ok round_R1 (playerKey "R1" "s3") = true
  /\ roundEnd (room_meta 6000
        (step 6000 "s3"
           (create_lobby_room (Some "20") None (Some "W3") (Some "eve") (Some "R1")) round_R1)
        "R1")
     = roundEnd (room_meta 6000 round_R1 "R1").
Proof.
  split; [discriminate|]. split; [vm_compute; reflexivity|]. split; [vm_compute; reflexivity|].
  refine (proj1 (proj2
    (create_lobby_room_initial 6000 "s3" (Some "20") None "W3" "eve" "R1" round_R1 _ _ _))
    6000).
  - discriminate.
  - vm_compute; reflexivity.
  - vm_compute; reflexivity.
Defined.

(** C7 (as stated) fails: creating a room under an id whose round is
    running succeeds and leaves the stored [roundEnd] in place. *)
Lemma create_lobby_room_keeps_roundEnd :
  emitted round_R1
    (step 6000 "s3" (create_lobby_room (Some "20") None (Some "W3") (Some "eve") (Some "R1"))
       round_R1)
  = [to_caller "s3" (E_room_created "R1")]
  /\ roundEnd (room_meta 6000
       (step 6000 "s3" (create_lobby_room (Some "20") None (Some "W3") (Some "eve") (Some "R1"))
          round_R1) "R1")
     = Some (Num 305000)
  /\ roundEnd (room_meta 6000
       (step 6000 "s3" (create_lobby_room (Some "20") None (Some "W3") (Some "eve") (Some "R1"))
          round_R1) "R1")
     <> None.
Proof. vm_compute. repeat split; discriminate. Qed.

Lemma reads_back_owner (w : string) :
  strict_eq (Some w) (Some (parse_field w)) = reads_back w.
Proof.
  unfold reads_back, strict_eq.
  destruct (parse_field w) as [|b|n|s|j] eqn:E;
    try (symmetry; apply bool_decide_eq_false_2; discriminate).
  destruct (String.eqb_spec w s) as [->|Hne].
  - symmetry. now apply bool_decide_eq_true_2.
  - symmetry. apply bool_decide_eq_false_2. intros [= ->]. done.
Qed.

(** C9 fails on the code for a wallet whose text the store client does
    not hand back as that string (["123"] comes back as the number 123).
    Whatever meta a room id already has, a [create_lobby_room] for it with
    fee [F] and wallet [W] overwrites the stored [fee], [createdAt] and
    [owner] (now [W]): the handler makes no check that the id is new. When
    [W] is read back as itself, a [start_round] by [W] then passes the
    owner guard: it either starts the round or reports that one is
    running. When it is not, the same [start_round] is answered with the
    owner error. *)
Theorem create_lobby_room_takes_over (now : Z) (sid : string)
    (maxParticipants nick : option string) (F W roomId : string) (st : State)
    (now2 : Z) (sid2 : string) :
  roomId <> "" ->
  hash_ok st (metaKey roomId) = true ->
  0 <= now2 ->
  let st' := step now sid
               (create_lobby_room (Some F) maxParticipants (Some W) nick (Some roomId)) st in
  let st'' := step now2 sid2 (start_round roomId (Some W)) st' in
  (stored_meta st' roomId !! "fee" = Some F
   /\ stored_meta st' roomId !! "createdAt" = Some (js_String now)
   /\ stored_meta st' roomId !! "owner" = Some W)
  /\ (forall now', fee (room_meta now' st' roomId) = read_back F
                   /\ createdAt (room_meta now' st' roomId) = Num (if now =? 0 then now' else now)
                   /\ owner (room_meta now' st' roomId) = Some (parse_field W))
  /\ (reads_back W = true ->
      (round_running (room_meta now2 st' roomId) now2 = true ->
         st'' = push_out (to_caller sid2 (E_start_round_error "Round already started.")) st')
      /\ (round_running (room_meta now2 st' roomId) now2 = false ->
          timers st'' = timers st' ++ [round_timer roomId (now2 + 300000)]
          /\ forall now', roundEnd (room_meta now' st'' roomId) = Some (Num (now2 + 300000)))
      /\ (forall e, e ∈ emitted st' st'' ->
          e_event e <> E_start_round_error "Only room owner can start round."))
  /\ (reads_back W = false ->
      st'' = push_out (to_caller sid2
                         (E_start_round_error "Only room owner can start round.")) st').
Proof.
  intros Hne Hmk Hnow2 st' st''.
  assert (Hfield : forall field, field ∈ ["fee"; "createdAt"; "asset"; "roundEnd"; "owner"] ->
    stored_meta st' roomId !! field
    = (roomMetaFields (initial_meta now (Some F) (Some W)) ∪ stored_meta st roomId) !! field).
  { intros field Hf. subst st'. now apply create_lobby_room_meta_written. }
  assert (Hfee : stored_meta st' roomId !! "fee" = Some F).
  { rewrite Hfield by set_solver.
    rewrite lookup_union, roomMetaFields_fee. apply option_union_Some_l. }
  assert (Hcr : stored_meta st' roomId !! "createdAt" = Some (js_String now)).
  { rewrite Hfield by set_solver.
    rewrite lookup_union, roomMetaFields_createdAt. apply option_union_Some_l. }
  assert (How : stored_meta st' roomId !! "owner" = Some W).
  { rewrite Hfield by set_solver.
    rewrite lookup_union, roomMetaFields_owner. apply option_union_Some_l. }
  assert (Hf' : has_fields st' (metaKey roomId) = true).
  { now apply (has_fields_lookup _ _ "fee" F). }
  assert (Howner : forall now', owner (room_meta now' st' roomId) = Some (parse_field W)).
  { intros now'. unfold room_meta, parseRoomMeta. cbn [owner].
    now rewrite client_record_lookup, How. }
  assert (Hguard : strict_eq (Some W) (owner (room_meta now2 st' roomId)) = reads_back W).
  { rewrite Howner. apply reads_back_owner. }
  split; [done|]. split; [|split].
  - intros now'. split; [|split].
    + unfold room_meta, parseRoomMeta. cbn [fee]. now rewrite client_record_lookup, Hfee.
    + unfold room_meta. now apply parse_createdAt_stored.
    + apply Howner.
  - intros Hback. rewrite Hback in Hguard. split; [|split].
    + intros Hrun. subst st''.
      rewrite start_round_step, start_round_unfold by done. cbn zeta.
      now rewrite Hguard, Hrun.
    + intros Hrun. subst st''.
      rewrite start_round_step, start_round_success by done.
      cbn [snd]. split; [reflexivity|].
      intros now'. unfold room_meta at 1.
      rewrite (parse_roundEnd_stored _ now' (now2 + 300000)).
      * destruct (Z.eqb_spec (now2 + 300000) 0); [lia|done].
      * unfold stored_meta, stored_hash. simpl. rewrite lookup_insert_eq.
        apply lookup_insert_eq.
    + intros e He. subst st''. rewrite start_round_step in He.
      destruct (round_running (room_meta now2 st' roomId) now2) eqn:Hrun.
      * rewrite start_round_unfold in He by done. cbn zeta in He.
        rewrite Hguard, Hrun in He.
        cbn [negb snd] in He. rewrite emitted_push in He.
        apply list_elem_of_singleton in He. subst e. discriminate.
      * rewrite start_round_success in He by done.
        unfold emitted in He. simpl in He. rewrite drop_app_length in He.
        apply list_elem_of_singleton in He. subst e. discriminate.
  - intros Hback. rewrite Hback in Hguard. subst st''.
    rewrite start_round_step, start_round_unfold by done. cbn zeta.
    now rewrite Hguard.
Qed.

Lemma create_lobby_room_takes_over_witness :
  "R1" <> ""
  /\ hash_ok room_R1 (metaKey "R1") = true
  /\ 0 <= 7000
  /\ reads_back "123" = false
  /\ step 7000 "s3" (start_round "R1" (Some "123"))
       (step 6000 "s3" (create_lobby_room (Some "20") None (Some "123") (Some "eve") (Some "R1"))
          room_R1)
     = push_out (to_caller "s3" (E_start_round_error "Only room owner can start round."))
         (step 6000 "s3"
            (create_lobby_room (Some "20") None (Some "123") (Some "eve") (Some "R1"))
            room_R1).
Proof.
  split; [discriminate|]. split; [vm_compute; reflexivity|]. split; [lia|].
  split; [vm_compute; reflexivity|].
  refine (proj2 (proj2 (proj2
    (create_lobby_room_takes_over 6000 "s3" None (Some "eve") "20" "123" "R1" room_R1
       7000 "s3" _ _ _))) _).
  - discriminate.
  - vm_compute; reflexivity.
  - lia.
  - vm_compute; reflexivity.
Defined.

(** ** Frame rules: what a unit of work preserves

    A state predicate [P] that does not look at the timers, that stays
    true when an event is emitted by one of the two emit primitives, that
    survives the hash writes in [hset_free], the writes and deletions of
    the keys in [key_free] and the joins in [join_free], is kept by every
    handler all of whose writes and joins are of these kinds. *)
Section Frame.
Variable P : State -> Prop.
Variable hset_free : string -> gmap string string -> Prop.
Variable key_free : string -> Prop.
Variable join_free : string -> string -> Prop.

Hypothesis P_timers : forall f st, P st -> P (set_timers f st).
Hypothesis P_to_caller : forall sid ev st, P st -> P (push_out (to_caller sid ev) st).
Hypothesis P_to_room : forall r ev st, P st -> P (push_out (to_room st r ev) st).
Hypothesis P_set : forall k v st, key_free k -> P st -> P (set_redis (insert k (RStr v)) st).
Hypothesis P_del : forall k st, key_free k -> P st -> P (set_redis (delete k) st).
Hypothesis P_hset : forall k fs st,
  hset_free k fs -> hash_ok st k = true -> P st ->
  P (set_redis (insert k (RHash (fs ∪ stored_hash st k))) st).
Hypothesis P_join : forall sid r st,
  join_free sid r -> P st -> P (set_rooms (insert sid ({[r]} ∪ rooms_of st sid)) st).
Hypothesis P_leave : forall sid st, P st -> P (set_rooms (delete sid) st).

Definition keeps {A} (m : M A) : Prop := forall st, P st -> P (m st).2.

Lemma keeps_ret {A} (a : A) : keeps (ret a).
Proof. intros st H. exact H. Qed.

Lemma keeps_bind {A B} (m : M A) (f : A -> M B) :
  keeps m -> (forall a, keeps (f a)) -> keeps (bind m f).
Proof.
  intros Hm Hf st H. unfold bind. specialize (Hm st H).
  destruct (m st) as [[a|] st1]; simpl in *; [now apply Hf|done].
Qed.

Lemma keeps_spawn (m : M unit) : keeps m -> keeps (spawn m).
Proof. intros Hm st H. unfold spawn. simpl. now apply Hm. Qed.

Lemma keeps_hgetall (key : string) : keeps (redis_hgetall key).
Proof. intros st H. now rewrite hgetall_state. Qed.

Lemma keeps_with_record {A} (raw : option (gmap string jsval))
    (parse : gmap string jsval -> A) : keeps (with_record raw parse).
Proof. intros st H. destruct raw; exact H. Qed.

Lemma keeps_get (key : string) : keeps (redis_get key).
Proof.
  intros st H. unfold redis_get. destruct (redis st !! key) as [[h|s]|]; done.
Qed.

Lemma keeps_keys (pattern : string) : keeps (redis_keys pattern).
Proof. intros st H. exact H. Qed.

Lemma keeps_hset (key : string) (fs : gmap string string) :
  hset_free key fs -> keeps (redis_hset key fs).
Proof.
  intros Hfree st H. destruct (hash_ok st key) eqn:Hok.
  - rewrite hset_ok by done. now apply P_hset.
  - now rewrite hset_rejected.
Qed.

Lemma keeps_set (key v : string) : key_free key -> keeps (redis_set key v).
Proof. intros Hfree st H. now apply P_set. Qed.

Lemma keeps_del (key : string) : key_free key -> keeps (redis_del key).
Proof. intros Hfree st H. now apply P_del. Qed.

Lemma keeps_socket_emit (sid : string) (ev : out_event) : keeps (socket_emit sid ev).
Proof. intros st H. now apply P_to_caller. Qed.

Lemma keeps_io_to_emit (roomId : string) (ev : out_event) : keeps (io_to_emit roomId ev).
Proof. intros st H. now apply P_to_room. Qed.

Lemma keeps_setRoomMeta (roomId : string) (m : PartialRoomMeta) :
  hset_free (metaKey roomId) (roomMetaFields m) -> keeps (setRoomMeta roomId m).
Proof.
  intros Hfree. unfold setRoomMeta. case_bool_decide.
  - now apply keeps_hset.
  - apply keeps_ret.
Qed.

Lemma keeps_setPlayer (roomId sid : string) (d : PartialPlayerData) :
  hset_free (playerKey roomId sid) (playerFields d) -> keeps (setPlayer roomId sid d).
Proof.
  intros Hfree. unfold setPlayer. case_bool_decide.
  - now apply keeps_hset.
  - apply keeps_ret.
Qed.

Lemma keeps_getAllPlayers (now : Z) (roomId : string) : keeps (getAllPlayers now roomId).
Proof.
  unfold getAllPlayers. apply keeps_bind; [apply keeps_keys|].
  intros keys. generalize (∅ : gmap string PlayerData).
  induction keys as [|k keys IH]; intros acc; simpl.
  - apply keeps_ret.
  - apply keeps_bind; [apply keeps_hgetall|]. intros raw. apply IH.
Qed.

Lemma keeps_getAllDrawings (roomId : string) : keeps (getAllDrawings roomId).
Proof.
  unfold getAllDrawings. apply keeps_bind; [apply keeps_keys|].
  intros keys. generalize (∅ : gmap string reply).
  induction keys as [|k keys IH]; intros acc; simpl.
  - apply keeps_ret.
  - apply keeps_bind; [apply keeps_get|]. intros d. apply IH.
Qed.

Lemma keeps_broadcastUsers (now : Z) (roomId selfId : string) :
  keeps (broadcastUsers now roomId selfId).
Proof.
  unfold broadcastUsers. apply keeps_bind; [apply keeps_getAllPlayers|].
  intros players. apply keeps_io_to_emit.
Qed.

Lemma keeps_broadcastMeta (now : Z) (roomId : string) : keeps (broadcastMeta now roomId).
Proof.
  unfold broadcastMeta, getRoomMeta.
  apply keeps_bind; [apply keeps_bind; [apply keeps_hgetall|intros; apply keeps_with_record]|].
  intros m. apply keeps_io_to_emit.
Qed.

Lemma keeps_startTimer (now : Z) (roomId : string) : keeps (startTimer now roomId).
Proof.
  unfold startTimer. apply keeps_bind; [apply keeps_hgetall|].
  intros raw. apply keeps_bind; [apply keeps_with_record|].
  intros m. destruct (negb _); [apply keeps_ret|].
  destruct (roundEnd _) as [[z|]|]; try apply keeps_ret.
  intros st H. now apply P_timers.
Qed.

Lemma keeps_timer_tick (now : Z) (h : nat) : keeps (timer_tick now h).
Proof.
  intros st H. unfold timer_tick.
  destruct (timers st !! h) as [t|]; [|done].
  destruct (t_active t); [|done].
  revert st H. unfold timer_callback. cbn zeta.
  apply keeps_bind; [apply keeps_io_to_emit|]. intros _.
  destruct (_ <=? 0); [|apply keeps_ret].
  apply keeps_bind; [intros st H; now apply P_timers|]. intros _.
  apply keeps_bind; [apply keeps_getAllDrawings|]. intros drawings.
  apply keeps_bind; [apply keeps_getAllPlayers|]. intros players.
  apply keeps_bind; [apply keeps_hgetall|]. intros raw.
  apply keeps_bind; [apply keeps_with_record|]. intros m.
  apply keeps_io_to_emit.
Qed.

Lemma keeps_disconnect_loop (now : Z) (sid : string) (rs : list string) :
  (forall r, key_free (playerKey r sid) /\ key_free (graphKey r sid)) ->
  keeps (disconnect_loop now sid rs).
Proof.
  intros Hfree. induction rs as [|r rs IH]; simpl; [apply keeps_ret|].
  apply keeps_bind; [apply keeps_del, Hfree|]. intros _.
  apply keeps_bind; [apply keeps_del, Hfree|]. intros _.
  apply keeps_bind; [apply keeps_spawn, keeps_broadcastUsers|]. intros _.
  exact IH.
Qed.

Lemma keeps_create_lobby_room (now : Z) (sid : string)
    (entryFee maxParticipants w nick roomId : option string) :
  hset_free (metaKey (default "" roomId)) (roomMetaFields (initial_meta now entryFee w)) ->
  hset_free (playerKey (default "" roomId) sid) (playerFields (first_player now nick w)) ->
  keeps (on_create_lobby_room now sid entryFee maxParticipants w nick roomId).
Proof.
  intros Hm Hp. unfold on_create_lobby_room.
  destruct (negb _); [apply keeps_socket_emit|].
  apply keeps_bind; [now apply keeps_setRoomMeta|]. intros _.
  apply keeps_bind; [now apply keeps_setPlayer|]. intros _.
  apply keeps_socket_emit.
Qed.

Lemma keeps_join (now : Z) (sid roomId nick w f : string) (a : option string) :
  join_free sid roomId ->
  hset_free (metaKey roomId)
    (roomMetaFields {| p_fee := None; p_createdAt := None; p_asset := a;
                       p_roundEnd := None; p_owner := None |}) ->
  hset_free (playerKey roomId sid)
    (<["joinedAt" := js_String now]> (<["wallet" := w]> (<["nickname" := nick]> ∅))) ->
  keeps (on_join now sid roomId nick w f a).
Proof.
  intros Hj Hm Hp. unfold on_join.
  apply keeps_bind; [intros st H; now apply P_join|]. intros _.
  apply keeps_bind; [now apply keeps_setRoomMeta|]. intros _.
  apply keeps_bind; [now apply keeps_hset|]. intros _.
  apply keeps_bind; [apply keeps_spawn, keeps_broadcastMeta|]. intros _.
  apply keeps_spawn, keeps_broadcastUsers.
Qed.

Lemma keeps_start_round (now : Z) (sid roomId : string) (w : option string) :
  hset_free (metaKey roomId) (<["roundEnd" := js_String (now + 5 * 60 * 1000)]> ∅) ->
  keeps (on_start_round now sid roomId w).
Proof.
  intros Hm. unfold on_start_round.
  apply keeps_bind; [apply keeps_hgetall|]. intros raw.
  apply keeps_bind; [apply keeps_with_record|]. intros m.
  destruct (negb _); [apply keeps_socket_emit|].
  destruct (_ && _); [apply keeps_socket_emit|].
  apply keeps_bind; [now apply keeps_setRoomMeta|]. intros _.
  apply keeps_bind; [apply keeps_io_to_emit|]. intros _.
  apply keeps_spawn, keeps_startTimer.
Qed.

Lemma keeps_set_nickname (now : Z) (sid roomId : string) (nick : option string) :
  hset_free (playerKey roomId sid)
    (playerFields {| p_nickname := nick; p_wallet := None; p_joinedAt := None |}) ->
  keeps (on_set_nickname now sid roomId nick).
Proof.
  intros Hp. unfold on_set_nickname.
  apply keeps_bind; [now apply keeps_setPlayer|]. intros _.
  apply keeps_spawn, keeps_broadcastUsers.
Qed.

Lemma keeps_drawing_submit (sid roomId : string) (d : string) :
  key_free (graphKey roomId sid) -> keeps (on_drawing_submit sid roomId d).
Proof.
  intros Hk. unfold on_drawing_submit.
  apply keeps_bind; [now apply keeps_set|]. intros _.
  apply keeps_io_to_emit.
Qed.

Lemma keeps_disconnect (now : Z) (sid : string) :
  (forall r, key_free (playerKey r sid) /\ key_free (graphKey r sid)) ->
  keeps (on_disconnect now sid).
Proof. intros Hk st H. unfold on_disconnect. now apply keeps_disconnect_loop. Qed.

(** The writes and joins a request makes, all of the kinds [P] survives. *)
Definition request_free (now : Z) (sid : string) (req : request) : Prop :=
  match req with
  | create_lobby_room entryFee _ w nick roomId =>
      hset_free (metaKey (default "" roomId)) (roomMetaFields (initial_meta now entryFee w))
      /\ hset_free (playerKey (default "" roomId) sid) (playerFields (first_player now nick w))
  | join roomId nick w _ a =>
      join_free sid roomId
      /\ hset_free (metaKey roomId)
           (roomMetaFields {| p_fee := None; p_createdAt := None; p_asset := a;
                              p_roundEnd := None; p_owner := None |})
      /\ hset_free (playerKey roomId sid)
           (<["joinedAt" := js_String now]> (<["wallet" := w]> (<["nickname" := nick]> ∅)))
  | start_round roomId _ =>
      hset_free (metaKey roomId) (<["roundEnd" := js_String (now + 5 * 60 * 1000)]> ∅)
  | set_nickname roomId nick =>
      hset_free (playerKey roomId sid)
        (playerFields {| p_nickname := nick; p_wallet := None; p_joinedAt := None |})
  | drawing_submit roomId _ => key_free (graphKey roomId sid)
  | disconnect => forall r, key_free (playerKey r sid) /\ key_free (graphKey r sid)
  | tick _ => True
  end.

Lemma keeps_handle (now : Z) (sid : string) (req : request) :
  request_free now sid req -> keeps (handle now sid req).
Proof.
  destruct req as [entryFee mp w nick roomId|roomId nick w f a|roomId w|roomId nick
                  |roomId d| |h]; cbn [request_free handle].
  - intros [Hm Hp]. now apply keeps_create_lobby_room.
  - intros (Hj & Hm & Hp). now apply keeps_join.
  - intros Hm. now apply keeps_start_round.
  - intros Hp. now apply keeps_set_nickname.
  - intros Hk. now apply keeps_drawing_submit.
  - intros Hk. apply keeps_bind; [intros st H; now apply P_leave|].
    intros _. now apply keeps_disconnect.
  - intros _. apply keeps_timer_tick.
Qed.

Lemma keeps_step (now : Z) (sid : string) (req : request) (st : State) :
  request_free now sid req -> P st -> P (step now sid req st).
Proof. intros Hfree H. unfold step. now apply keeps_handle. Qed.

End Frame.

(** ** Room membership and broadcasts *)

Lemma elem_of_members (st : State) (roomId sid : string) :
  sid ∈ members st roomId <-> roomId ∈ rooms_of st sid.
Proof.
  unfold members, rooms_of. rewrite elem_of_dom. split.
  - intros [rs Hrs]. apply map_lookup_filter_Some in Hrs as [Hl Hin].
    rewrite Hl. exact Hin.
  - intros Hin. destruct (rooms st !! sid) as [rs|] eqn:E; [|set_solver].
    exists rs. apply map_lookup_filter_Some. done.
Qed.

Lemma elem_of_drop_snoc {A} (n : nat) (l : list A) (x y : A) :
  y ∈ drop n (l ++ [x]) -> y ∈ drop n l \/ y = x.
Proof.
  rewrite drop_app. intros [H|H]%elem_of_app; [now left|right].
  destruct (n - length l)%nat; simpl in H.
  - now apply list_elem_of_singleton in H.
  - rewrite drop_nil in H. by apply elem_of_nil in H.
Qed.

(** The request is a [join] of room [roomId] sent by connection [sid]. *)
Definition is_join_of (sid roomId : string) (e : Event) : bool :=
  match ev_req e with
  | join r _ _ _ _ => bool_decide (ev_sid e = sid) && bool_decide (r = roomId)
  | _ => false
  end.

(** Connection [sid] is not in room [roomId], and no event emitted to that
    room after the first [n] ones was delivered to it. *)
Definition outside_room (sid roomId : string) (n : nat) (st : State) : Prop :=
  (roomId ∉ rooms_of st sid)
  /\ (forall e, e ∈ drop n (outbox st) -> e_target e = ToRoom roomId -> sid ∉ e_recipients e).

Lemma outside_room_step (c roomId : string) (n : nat) (now : Z) (sid : string)
    (req : request) (st : State) :
  is_join_of c roomId {| ev_now := now; ev_sid := sid; ev_req := req |} = false ->
  outside_room c roomId n st -> outside_room c roomId n (step now sid req st).
Proof.
  intros Hj.
  apply (keeps_step (outside_room c roomId n) (fun _ _ => True) (fun _ => True)
           (fun s r => ~ (s = c /\ r = roomId))).
  - intros f st0 H. exact H.
  - intros s ev st0 [Hr Ho]. split; [exact Hr|].
    intros e [He| ->]%elem_of_drop_snoc; [now apply Ho|]. discriminate.
  - intros r ev st0 [Hr Ho]. split; [exact Hr|].
    intros e [He| ->]%elem_of_drop_snoc; [now apply Ho|].
    simpl. intros [= ->]. now rewrite elem_of_members.
  - intros k v st0 _ H. exact H.
  - intros k st0 _ H. exact H.
  - intros k fs st0 _ _ H. exact H.
  - intros s r st0 Hfree [Hr Ho]. split; [|exact Ho].
    unfold rooms_of, set_rooms. simpl.
    destruct (decide (s = c)) as [->|Hne].
    + rewrite lookup_insert_eq. simpl. fold (rooms_of st0 c).
      intros [Hin|Hin]%elem_of_union; [|done].
      apply elem_of_singleton in Hin. apply Hfree. done.
    + now rewrite lookup_insert_ne.
  - intros s st0 [Hr Ho]. split; [|exact Ho].
    unfold rooms_of, set_rooms. simpl.
    destruct (decide (s = c)) as [->|Hne].
    + rewrite lookup_delete_eq. set_solver.
    + now rewrite lookup_delete_ne.
  - destruct req; cbn [request_free]; try done.
    unfold is_join_of in Hj. simpl in Hj.
    split; [|done]. intros [-> ->].
    rewrite !bool_decide_eq_true_2 in Hj by done. discriminate.
Qed.

Lemma outside_room_run (c roomId : string) (n : nat) (evs : list Event) (st : State) :
  forallb (fun e => negb (is_join_of c roomId e)) evs = true ->
  outside_room c roomId n st -> outside_room c roomId n (run evs st).
Proof.
  unfold run. revert st. induction evs as [|e evs IH]; intros st Hall H; simpl; [done|].
  simpl in Hall. apply andb_prop in Hall as [He Hall].
  apply IH; [done|]. apply outside_room_step; [|done].
  destruct e. now apply negb_true_iff in He.
Qed.

(** The room table is [rs] and every event emitted after the first [n]
    ones went to connection [sid] alone, as an answer to a room creation. *)
Definition only_answers (sid : string) (rs : gmap string (gset string)) (n : nat)
    (st : State) : Prop :=
  rooms st = rs
  /\ (forall e, e ∈ drop n (outbox st) ->
        e_target e = ToSocket sid /\ e_recipients e = {[sid]}
        /\ exists s, e_event e = E_room_created s \/ e_event e = E_room_create_error s).

Lemma create_lobby_room_only_answers (now : Z) (sid : string)
    (entryFee maxParticipants w nick roomId : option string) (st : State) :
  only_answers sid (rooms st) (length (outbox st))
    (step now sid (create_lobby_room entryFee maxParticipants w nick roomId) st).
Proof.
  unfold step. cbn [handle].
  assert (only_answers sid (rooms st) (length (outbox st)) st) as H0.
  { split; [done|]. intros e He. rewrite drop_all in He. by apply elem_of_nil in He. }
  revert H0. generalize (length (outbox st)) (rooms st). intros n rs. revert st.
  unfold on_create_lobby_room.
  destruct (negb _).
  - intros st [Hr Ho]. split; [exact Hr|].
    intros e [He| ->]%elem_of_drop_snoc; [now apply Ho|]. simpl. eauto.
  - pose (Q := only_answers sid rs n).
    assert (forall k fs, keeps Q (redis_hset k fs)) as Hhset.
    { intros k fs. apply (keeps_hset Q (fun _ _ => True)); [|done].
      intros k' fs' st0 _ _ H. exact H. }
    apply (keeps_bind Q).
    { unfold setRoomMeta. case_bool_decide; [apply Hhset|apply keeps_ret]. }
    intros _. apply (keeps_bind Q).
    { unfold setPlayer. case_bool_decide; [apply Hhset|apply keeps_ret]. }
    intros _ st [Hr Ho]. split; [exact Hr|].
    intros e [He| ->]%elem_of_drop_snoc; [now apply Ho|]. simpl. eauto.
Qed.

(** C10: [create_lobby_room] leaves the room table as it is, so the
    creator is not subscribed to the room by it, and what it emits goes to
    the creator alone ([room_created], or the creation error); when the
    creator is not in the room and sends no [join] for it, every event
    broadcast to the room, by any later handler or timer, is delivered to
    a set of connections that does not hold the creator. *)
Theorem create_lobby_room_does_not_subscribe (now : Z) (creator : string)
    (entryFee maxParticipants w nick : option string) (roomId : string)
    (evs : list Event) (st : State) :
  roomId ∉ rooms_of st creator ->
  forallb (fun e => negb (is_join_of creator roomId e)) evs = true ->
  let st' := step now creator
               (create_lobby_room entryFee maxParticipants w nick (Some roomId)) st in
  rooms st' = rooms st
  /\ (forall e, e ∈ emitted st st' ->
        e_target e = ToSocket creator /\ e_recipients e = {[creator]}
        /\ exists s, e_event e = E_room_created s \/ e_event e = E_room_create_error s)
  /\ (roomId ∉ rooms_of (run evs st') creator)
  /\ (forall e, e ∈ emitted st (run evs st') ->
        e_target e = ToRoom roomId -> creator ∉ e_recipients e).
Proof.
  intros Hout Hevs st'.
  destruct (create_lobby_room_only_answers now creator entryFee maxParticipants w nick
              (Some roomId) st) as [Hrooms Hans].
  fold st' in Hrooms, Hans.
  assert (outside_room creator roomId (length (outbox st)) st') as Hst'.
  { split.
    - unfold rooms_of. now rewrite Hrooms.
    - intros e He Ht. destruct (Hans e He) as (Ht' & _). congruence. }
  pose proof (outside_room_run creator roomId _ evs st' Hevs Hst') as [Hr Ho].
  split; [exact Hrooms|]. split; [exact Hans|]. split; [exact Hr|exact Ho].
Qed.

Lemma create_lobby_room_does_not_subscribe_witness :
  ("R2" ∉ rooms_of room_R1 "s1")
  /\ (forall e,
       e ∈ emitted room_R1
             (run [ {| ev_now := 7000; ev_sid := "s2"; ev_req := join "R2" "bob" "W2" "5" None |};
                    {| ev_now := 8000; ev_sid := "s1"; ev_req := start_round "R2" (Some "W1") |};
                    {| ev_now := 9000; ev_sid := "s1"; ev_req := drawing_submit "R2" "blob" |};
                    {| ev_now := 308000; ev_sid := ""; ev_req := tick 0 |} ]
                (step 6000 "s1"
                   (create_lobby_room (Some "5") None (Some "W1") (Some "al") (Some "R2"))
                   room_R1)) ->
       e_target e = ToRoom "R2" -> "s1" ∉ e_recipients e).
Proof.
  split; [vm_compute; set_solver|].
  refine (proj2 (proj2 (proj2
    (create_lobby_room_does_not_subscribe 6000 "s1" (Some "5") None (Some "W1") (Some "al") "R2"
       _ room_R1 _ _)))).
  - vm_compute. set_solver.
  - reflexivity.
Defined.

(** ** Submitting a drawing *)

Lemma graphKey_inj (r1 s1 r2 s2 : string) :
  colon_free s1 = true -> colon_free s2 = true ->
  graphKey r1 s1 = graphKey r2 s2 -> r1 = r2 /\ s1 = s2.
Proof.
  intros H1 H2 E.
  assert (s1 = s2) as ->.
  { apply (f_equal last_segment) in E. now rewrite !last_segment_graphKey in E. }
  split; [|done]. unfold graphKey in E.
  apply String.app_inj in E. now apply string_app_inv_tail in E.
Qed.

(** C8 (as amended): [drawing_submit] stores the blob under the key of
    the (room, session) pair, replacing whatever that key held, so that a
    resubmission leaves one blob for the pair; the keys of two pairs
    differ (session ids hold no [":"]); and one [drawing] event with the
    session id and the blob is broadcast to the connections subscribed to
    the room: the handler does not look whether the sender is one of
    them, and the sender receives the event exactly when it is. *)
Theorem drawing_submit_persists (now now2 : Z) (sid roomId : string)
    (drawing drawing2 : DrawingData) (st : State) :
  redis (step now sid (drawing_submit roomId drawing) st)
  = <[graphKey roomId sid := RStr drawing]> (redis st)
  /\ redis (step now sid (drawing_submit roomId drawing) st) !! graphKey roomId sid
     = Some (RStr drawing)
  /\ redis (step now2 sid (drawing_submit roomId drawing2)
              (step now sid (drawing_submit roomId drawing) st))
     = <[graphKey roomId sid := RStr drawing2]> (redis st)
  /\ (forall roomId' sid', colon_free sid = true -> colon_free sid' = true ->
        graphKey roomId' sid' = graphKey roomId sid -> roomId' = roomId /\ sid' = sid)
  /\ emitted st (step now sid (drawing_submit roomId drawing) st) =
       [ {| e_target := ToRoom roomId; e_recipients := members st roomId;
            e_event := E_drawing sid drawing |} ]
  /\ (forall s, s ∈ members st roomId <-> roomId ∈ rooms_of st s)
  /\ (forall e, e ∈ emitted st (step now sid (drawing_submit roomId drawing) st) ->
        (sid ∈ e_recipients e <-> roomId ∈ rooms_of st sid)).
Proof.
  unfold step. cbn [handle].
  unfold on_drawing_submit, bind, redis_set, io_to_emit. cbn [fst snd].
  split; [reflexivity|]. split; [|split; [|split; [|split; [|split]]]].
  - simpl. apply lookup_insert_eq.
  - simpl. now rewrite insert_insert_eq.
  - intros r' s' H1 H2 E. now apply graphKey_inj.
  - unfold emitted. simpl. now rewrite drop_app_length.
  - intros s. apply elem_of_members.
  - intros e. unfold emitted. simpl. rewrite drop_app_length.
    intros ->%list_elem_of_singleton. exact (elem_of_members st roomId sid).
Qed.

(** C8 (as stated) fails: connection [s1] creates room [R2] and, before
    it joins, submits a drawing for it; the [drawing] event is addressed
    to the room, which holds nobody: the sender does not receive it. *)
Lemma drawing_submit_misses_sender :
  emitted
    (step 1000 "s1" (create_lobby_room (Some "5") None (Some "W1") (Some "al") (Some "R2"))
       empty_state)
    (step 2000 "s1" (drawing_submit "R2" "blob")
       (step 1000 "s1" (create_lobby_room (Some "5") None (Some "W1") (Some "al") (Some "R2"))
          empty_state))
  = [ {| e_target := ToRoom "R2"; e_recipients := ∅; e_event := E_drawing "s1" "blob" |} ]
  /\ "s1" ∉ (∅ : gset string).
Proof. split; [vm_compute; reflexivity|set_solver]. Qed.

(** ** The stored [roundEnd] over a run *)

(** The raw [roundEnd] field of a room's meta. *)
Definition roundEnd_field (st : State) (roomId : string) : option string :=
  stored_meta st roomId !! "roundEnd".

(** An event the server can receive: the clock does not read before the
    epoch and the connection has a session id of the transport. *)
Definition event_ok (e : Event) : bool :=
  (0 <=? ev_now e) && match ev_req e with
                      | tick _ => true
                      | _ => sid_ok (ev_sid e)
                      end.

(** The request is a [start_round] of room [roomId]. *)
Definition is_start_round_of (roomId : string) (req : request) : bool :=
  match req with
  | start_round r _ => bool_decide (r = roomId)
  | _ => false
  end.

Lemma stored_meta_insert_ne (st : State) (k roomId : string) (v : rval) :
  k <> metaKey roomId -> stored_meta (set_redis (insert k v) st) roomId = stored_meta st roomId.
Proof.
  intros Hne. unfold stored_meta, stored_hash, set_redis. simpl.
  now rewrite lookup_insert_ne.
Qed.

Lemma stored_meta_delete_ne (st : State) (k roomId : string) :
  k <> metaKey roomId -> stored_meta (set_redis (delete k) st) roomId = stored_meta st roomId.
Proof.
  intros Hne. unfold stored_meta, stored_hash, set_redis. simpl.
  now rewrite lookup_delete_ne.
Qed.

Lemma roundEnd_field_hset (st : State) (k roomId : string) (fs : gmap string string) :
  k <> metaKey roomId \/ fs !! "roundEnd" = None ->
  roundEnd_field (set_redis (insert k (RHash (fs ∪ stored_hash st k))) st) roomId
  = roundEnd_field st roomId.
Proof.
  intros Hfree. unfold roundEnd_field.
  destruct (decide (k = metaKey roomId)) as [->|Hne].
  - destruct Hfree as [?|Hfs]; [done|].
    unfold stored_meta at 1, stored_hash at 1, set_redis. simpl.
    rewrite lookup_insert_eq, lookup_union, Hfs.
    apply option_union_None_l.
  - now rewrite stored_meta_insert_ne.
Qed.

Lemma roundEnd_field_step (now : Z) (sid roomId : string) (req : request) (st : State) :
  event_ok {| ev_now := now; ev_sid := sid; ev_req := req |} = true ->
  is_start_round_of roomId req = false ->
  roundEnd_field (step now sid req st) roomId = roundEnd_field st roomId.
Proof.
  intros Hok Hreq. unfold event_ok in Hok. simpl in Hok.
  apply andb_prop in Hok as [_ Hsid].
  generalize (eq_refl (roundEnd_field st roomId)).
  generalize (roundEnd_field st roomId) at 2 3. intros v.
  apply (keeps_step (fun s => roundEnd_field s roomId = v)
           (fun k fs => k <> metaKey roomId \/ fs !! "roundEnd" = None)
           (fun k => k <> metaKey roomId)
           (fun _ _ => True)).
  - intros f st0 H. exact H.
  - intros s ev st0 H. exact H.
  - intros r ev st0 H. exact H.
  - intros k x st0 Hk H. unfold roundEnd_field. now rewrite stored_meta_insert_ne.
  - intros k st0 Hk H. unfold roundEnd_field. now rewrite stored_meta_delete_ne.
  - intros k fs st0 Hfree _ H. now rewrite roundEnd_field_hset.
  - intros s r st0 _ H. exact H.
  - intros s st0 H. exact H.
  - destruct req as [entryFee mp w nick r|r nick w f a|r w|r nick|r d| |h];
      cbn [request_free].
    + split; right; [apply initial_meta_roundEnd|apply playerFields_not_meta; set_solver].
    + split; [done|]. split; right; [now rewrite roomMetaFields_roundEnd|by simplify_map_eq].
    + left. simpl in Hreq. apply bool_decide_eq_false in Hreq.
      intros E. apply Hreq. now apply metaKey_inj.
    + right. apply playerFields_not_meta. set_solver.
    + now apply graphKey_not_metaKey.
    + intros r. split; [now apply playerKey_not_metaKey|now apply graphKey_not_metaKey].
    + done.
Qed.

Lemma bind_ret {A B : Type} (x : A) (k : A -> M B) (st : State) :
  bind (ret x) k st = k x st.
Proof. reflexivity. Qed.

Lemma sr_alone (now : Z) (c : sr_call) (st : State) :
  (sr_schedule [c]
     [Store_serves 0; Handler_resumes 0 now; Store_serves 0; Handler_resumes 0 now] st).2
  = step now (sr_sid c) (start_round (sr_room c) (sr_wallet c)) st.
Proof.
  unfold sr_schedule, step. cbn [handle fold_left map].
  unfold on_start_round, bind at 1.
  unfold sr_advance at 4. cbn [fst snd lookup list_lookup sr_store].
  destruct (redis_hgetall (metaKey (sr_room c)) st) as [[[raw|]|] st1]; cbn [fst snd].
  - unfold sr_advance at 3. cbn [fst snd lookup list_lookup sr_resume insert list_insert].
    cbn [with_record]. rewrite bind_ret.
    destruct (negb (strict_eq (sr_wallet c) (owner (parseRoomMeta raw now)))).
    { reflexivity. }
    destruct (truthy_num (roundEnd (parseRoomMeta raw now)) &&
              from_option (fun n => js_gt n now) false (roundEnd (parseRoomMeta raw now))).
    { reflexivity. }
    unfold sr_advance at 2. cbn [fst snd lookup list_lookup sr_store insert list_insert].
    unfold bind at 1.
    destruct (setRoomMeta _ _ st1) as [[[]|] st2]; cbn [fst snd].
    + reflexivity.
    + reflexivity.
  - reflexivity.
  - reflexivity.
Qed.

Lemma roundEnd_field_start_round (now : Z) (sid roomId : string) (w : option string)
    (st : State) :
  0 <= now ->
  let st' := step now sid (start_round roomId w) st in
  roundEnd_field st' roomId = roundEnd_field st roomId
  \/ (has_fields st (metaKey roomId) = true
      /\ strict_eq w (owner (room_meta now st roomId)) = true
      /\ round_running (room_meta now st roomId) now = false
      /\ roundEnd_field st' roomId = Some (js_String (now + 300000))).
Proof.
  intros Hnow st'. subst st'. rewrite start_round_step.
  destruct (has_fields st (metaKey roomId)) eqn:Hf.
  - destruct (strict_eq w (owner (room_meta now st roomId))) eqn:Hw.
    + destruct (round_running (room_meta now st roomId) now) eqn:Hrun.
      * left. rewrite start_round_unfold by done. cbn zeta.
        now rewrite Hw, Hrun.
      * right. split; [done|]. split; [done|]. split; [done|].
        rewrite start_round_success by done. cbn [snd].
        unfold roundEnd_field, stored_meta at 1, stored_hash. simpl.
        now rewrite !lookup_insert_eq.
    + left. rewrite start_round_unfold by done. cbn zeta.
      now rewrite Hw.
  - left. now rewrite start_round_null.
Qed.

Lemma roundEnd_of_field (now : Z) (st : State) (roomId : string) :
  roundEnd (room_meta now st roomId)
  = match roundEnd_field st roomId with
    | Some text => if truthy (parse_field text) then Some (to_number (parse_field text)) else None
    | None => None
    end.
Proof.
  unfold room_meta, parseRoomMeta, roundEnd_field. cbn [roundEnd].
  rewrite client_record_lookup. now destruct (stored_meta st roomId !! "roundEnd").
Qed.

(** The stored [roundEnd] of the room reads as a number not below [t]. *)
Definition roundEnd_at_least (roomId : string) (t : Z) (st : State) : Prop :=
  exists t', roundEnd (room_meta 0 st roomId) = Some (Num t') /\ t <= t'.

Lemma roundEnd_at_least_step (roomId : string) (t : Z) (e : Event) (st : State) :
  event_ok e = true ->
  roundEnd_at_least roomId t st ->
  roundEnd_at_least roomId t (step (ev_now e) (ev_sid e) (ev_req e) st).
Proof.
  intros Hok (t0 & Ht0 & Hle). destruct e as [now sid req]. cbn [ev_now ev_sid ev_req].
  destruct (is_start_round_of roomId req) eqn:Hreq.
  - destruct req as [| |r w| | | |]; try discriminate.
    simpl in Hreq. apply bool_decide_eq_true in Hreq. subst r.
    assert (0 <= now) as Hnow.
    { unfold event_ok in Hok. simpl in Hok. apply andb_prop in Hok as [H _]. lia. }
    destruct (roundEnd_field_start_round now sid roomId w st Hnow)
      as [Hsame|(_ & Hw & Hrun & Hnew)].
    + exists t0. split; [|done]. rewrite roundEnd_of_field, Hsame.
      rewrite <- (roundEnd_of_field 0). exact Ht0.
    + exists (now + 300000). split.
      * unfold room_meta. rewrite (parse_roundEnd_stored _ _ (now + 300000)) by exact Hnew.
        destruct (now + 300000 =? 0) eqn:E; [lia|done].
      * assert (~ exists t1, roundEnd (room_meta now st roomId) = Some (Num t1) /\ now < t1) as Hnot.
        { rewrite <- (round_running_spec _ now Hnow). now rewrite Hrun. }
        destruct (decide (now < t0)) as [Hlt|Hge]; [|lia].
        exfalso. apply Hnot. exists t0. split; [|done].
        rewrite roundEnd_of_field. rewrite roundEnd_of_field in Ht0. exact Ht0.
  - exists t0. split; [|done].
    rewrite roundEnd_of_field, roundEnd_field_step by done.
    rewrite <- (roundEnd_of_field 0). exact Ht0.
Qed.

Lemma strict_eq_spec (w : option string) (o : option jsval) :
  strict_eq w o = true <->
  (exists a, w = Some a /\ o = Some (JStr a)) \/ (w = None /\ o = None).
Proof.
  destruct w as [a|], o as [[| | |a'|]|]; simpl; split; try discriminate;
    try (intros [(x & [=] & [=])|[[=] [=]]]; fail).
  - intros H%String.eqb_eq. subst. left. eauto.
  - intros [(x & [= <-] & [= <-])|[[=] _]]. apply String.eqb_refl.
  - intros _. now right.
  - done.
Qed.

(** C2 (as amended): over any run of events whose units of work the
    server executes one after the other, the [roundEnd] stored for a room
    never decreases once it is set (so also while its round is running);
    and a unit of work that changes the stored [roundEnd] of a room is a
    [start_round] of that room whose meta holds a field, with no round
    running, which sets it to [now + 300000], and it comes with the
    wallet that is the owner read from the store, or with no wallet when
    the meta has no owner. Nothing is promised of two [start_round] calls
    whose turns interleave. *)
Theorem roundEnd_monotone (roomId : string) (t : Z) (evs : list Event) (st : State) :
  forallb event_ok evs = true ->
  roundEnd (room_meta 0 st roomId) = Some (Num t) ->
  (exists t', roundEnd (room_meta 0 (run evs st) roomId) = Some (Num t') /\ t <= t')
  /\ (forall e st0, event_ok e = true ->
        roundEnd_field (step (ev_now e) (ev_sid e) (ev_req e) st0) roomId
          <> roundEnd_field st0 roomId ->
        exists w, ev_req e = start_round roomId w
          /\ has_fields st0 (metaKey roomId) = true
          /\ strict_eq w (owner (room_meta (ev_now e) st0 roomId)) = true
          /\ ((exists a, w = Some a
                         /\ owner (room_meta (ev_now e) st0 roomId) = Some (JStr a))
              \/ (w = None /\ owner (room_meta (ev_now e) st0 roomId) = None))
          /\ round_running (room_meta (ev_now e) st0 roomId) (ev_now e) = false
          /\ roundEnd_field (step (ev_now e) (ev_sid e) (ev_req e) st0) roomId
             = Some (js_String (ev_now e + 300000))).
Proof.
  intros Hevs Ht. split.
  - assert (roundEnd_at_least roomId t st) as H0 by (exists t; split; [done|lia]).
    clear Ht. revert st H0. unfold run.
    induction evs as [|e evs IH]; intros st H0; simpl; [exact H0|].
    simpl in Hevs. apply andb_prop in Hevs as [He Hevs].
    apply IH; [done|]. now apply roundEnd_at_least_step.
  - intros [now sid req] st0 Hok Hchg. cbn [ev_now ev_sid ev_req] in *.
    destruct (is_start_round_of roomId req) eqn:Hreq.
    + destruct req as [| |r w| | | |]; try discriminate.
      simpl in Hreq. apply bool_decide_eq_true in Hreq. subst r.
      assert (0 <= now) as Hnow.
      { unfold event_ok in Hok. simpl in Hok. apply andb_prop in Hok as [H _]. lia. }
      destruct (roundEnd_field_start_round now sid roomId w st0 Hnow)
        as [Hsame|(Hf & Hw & Hrun & Hnew)]; [done|].
      exists w. split; [done|]. split; [done|]. split; [done|].
      split; [now apply strict_eq_spec|done].
    + exfalso. apply Hchg. now apply roundEnd_field_step.
Qed.

Lemma roundEnd_monotone_witness :
  forallb event_ok
    [ {| ev_now := 6000; ev_sid := "s2"; ev_req := start_round "R1" (Some "W2") |};
      {| ev_now := 7000; ev_sid := "s3";
         ev_req := create_lobby_room (Some "20") None (Some "W3") (Some "eve") (Some "R1") |};
      {| ev_now := 8000; ev_sid := "s3"; ev_req := start_round "R1" (Some "W3") |};
      {| ev_now := 9000; ev_sid := "s2"; ev_req := disconnect |};
      {| ev_now := 306000; ev_sid := "s3"; ev_req := start_round "R1" (Some "W3") |} ] = true
  /\ roundEnd (room_meta 0 round_R1 "R1") = Some (Num 305000)
  /\ exists t',
       roundEnd (room_meta 0
         (run [ {| ev_now := 6000; ev_sid := "s2"; ev_req := start_round "R1" (Some "W2") |};
                {| ev_now := 7000; ev_sid := "s3";
                   ev_req := create_lobby_room (Some "20") None (Some "W3") (Some "eve") (Some "R1") |};
                {| ev_now := 8000; ev_sid := "s3"; ev_req := start_round "R1" (Some "W3") |};
                {| ev_now := 9000; ev_sid := "s2"; ev_req := disconnect |};
                {| ev_now := 306000; ev_sid := "s3"; ev_req := start_round "R1" (Some "W3") |} ]
            round_R1) "R1") = Some (Num t')
       /\ 305000 <= t'.
Proof.
  split; [reflexivity|]. split; [vm_compute; reflexivity|].
  refine (proj1 (roundEnd_monotone "R1" 305000 _ round_R1 _ _)).
  - reflexivity.
  - vm_compute; reflexivity.
Defined.

(** Two [start_round] calls of the owner of room [R1] that arrive
    together: both are answered by the store before either resumes. *)
Definition overlap_calls : list sr_call :=
  [ {| sr_sid := "s1"; sr_room := "R1"; sr_wallet := Some "W1" |};
    {| sr_sid := "s1"; sr_room := "R1"; sr_wallet := Some "W1" |} ].

Definition overlap_turns : list sr_turn :=
  [ Store_serves 0; Store_serves 1; Handler_resumes 0 5000; Handler_resumes 1 5001;
    Store_serves 1 ].

(** C2 (as stated) fails: the handler awaits the store between the read
    its guards decide on and its write. Both calls pass the guards on the
    meta read before either has written; the second call's write is
    served first and stores 305001, the round is running, and then the
    first call's write lowers the stored [roundEnd] to 305000. And the
    guard compares the wallet with an owner that may be missing: on room
    [R7], whose meta holds an asset and no owner, a [start_round] that
    names no wallet sets [roundEnd]. *)
Lemma start_round_overlap_lowers_roundEnd :
  roundEnd (room_meta 5001 (sr_schedule overlap_calls overlap_turns room_R1).2 "R1")
  = Some (Num 305001)
  /\ round_running (room_meta 5001 (sr_schedule overlap_calls overlap_turns room_R1).2 "R1") 5001
     = true
  /\ roundEnd (room_meta 5001
       (sr_schedule overlap_calls (overlap_turns ++ [Store_serves 0]) room_R1).2 "R1")
     = Some (Num 305000)
  /\ owner (room_meta 4000
       (step 1000 "s1" (join "R7" "al" "W1" "10" (Some "USDC")) empty_state) "R7") = None
  /\ roundEnd_field
       (step 4000 "s2" (start_round "R7" None)
          (step 1000 "s1" (join "R7" "al" "W1" "10" (Some "USDC")) empty_state)) "R7"
     = Some "304000".
Proof. vm_compute. done. Qed.

(** ** Numerals in the store

    Under the numeric fields ([createdAt], [roundEnd], [joinedAt]) the
    server only ever writes [String(n)] of a number: in every state it
    can reach, the store client hands such a field back as that number
    (as its numeral, beyond the safe integers), and [Number] of it is [n]. *)
Definition numeric_field (f : string) : Prop :=
  f = "createdAt" \/ f = "roundEnd" \/ f = "joinedAt".

Definition numerals_in (fs : gmap string string) : Prop :=
  forall f s, numeric_field f -> fs !! f = Some s -> exists z, s = js_String z.

Definition numerals_ok (st : State) : Prop :=
  forall k h, redis st !! k = Some (RHash h) -> numerals_in h.

Lemma numerals_in_roomMetaFields (m : PartialRoomMeta) : numerals_in (roomMetaFields m).
Proof.
  intros f s [->|[->| ->]].
  - rewrite roomMetaFields_createdAt. destruct (p_createdAt m); [|done].
    intros [= <-]. eauto.
  - rewrite roomMetaFields_roundEnd. destruct (non_null _); [|done].
    intros [= <-]. eauto.
  - unfold roomMetaFields, add_field, non_null.
    destruct m as [[?|] [?|] [?|] [[?|]|] [?|]]; simpl; by simplify_map_eq.
Qed.

Lemma numerals_in_playerFields (d : PartialPlayerData) : numerals_in (playerFields d).
Proof.
  intros f s [->|[->| ->]].
  - rewrite playerFields_not_meta by set_solver. done.
  - rewrite playerFields_not_meta by set_solver. done.
  - rewrite playerFields_joinedAt. destruct (p_joinedAt d); [|done].
    intros [= <-]. eauto.
Qed.

Lemma numerals_ok_step (now : Z) (sid : string) (req : request) (st : State) :
  numerals_ok st -> numerals_ok (step now sid req st).
Proof.
  apply (keeps_step numerals_ok (fun _ fs => numerals_in fs) (fun _ => True)
           (fun _ _ => True)).
  - intros f st0 H. exact H.
  - intros s ev st0 H. exact H.
  - intros r ev st0 H. exact H.
  - intros k v st0 _ H k' h. unfold set_redis. simpl.
    destruct (decide (k = k')) as [->|Hne].
    + rewrite lookup_insert_eq. discriminate.
    + rewrite lookup_insert_ne by done. apply H.
  - intros k st0 _ H k' h. unfold set_redis. simpl.
    intros [_ Hl]%lookup_delete_Some. now apply (H k').
  - intros k fs st0 Hfs _ H k' h. unfold set_redis. simpl.
    destruct (decide (k = k')) as [->|Hne].
    + rewrite lookup_insert_eq. intros [= <-] f s Hf.
      intros [Hl|[_ Hl]]%lookup_union_Some_raw; [now apply (Hfs f)|].
      unfold stored_hash in Hl.
      destruct (redis st0 !! k') as [[h0|?]|] eqn:E; try done.
      now apply (H k' h0 E f).
    + rewrite lookup_insert_ne by done. apply H.
  - intros s r st0 _ H. exact H.
  - intros s st0 H. exact H.
  - destruct req as [entryFee mp w nick r|r nick w f a|r w|r nick|r d| |h];
      cbn [request_free]; try done.
    + split; [apply numerals_in_roomMetaFields|apply numerals_in_playerFields].
    + split; [done|]. split; [apply numerals_in_roomMetaFields|].
      intros fld s [->|[->| ->]]; simplify_map_eq; intros [= <-]; eauto.
    + intros fld s [->|[->| ->]]; simplify_map_eq; intros [= <-]; eauto.
    + apply numerals_in_playerFields.
Qed.

Lemma numerals_ok_run (evs : list Event) : numerals_ok (run evs empty_state).
Proof.
  assert (numerals_ok empty_state) as H0 by (intros k h Hk; done).
  revert H0. generalize empty_state. unfold run.
  induction evs as [|e evs IH]; intros st H; simpl; [exact H|].
  apply IH. now apply numerals_ok_step.
Qed.

(** ** What the bulk reads return *)

(** No glob metacharacter in the string. *)
Fixpoint glob_literal (s : string) : bool :=
  match s with
  | EmptyString => true
  | String c s' =>
      negb (bool_decide (c = "*"%char)) && negb (bool_decide (c = "?"%char))
      && negb (bool_decide (c = "\"%char)) && negb (bool_decide (c = "["%char))
      && glob_literal s'
  end.

Lemma glob_star_any (s : string) : glob "*" s = true.
Proof.
  induction s as [|c s IH]; [reflexivity|].
  change (glob "*" (String c s)) with (glob "" (String c s) || glob "*" s).
  rewrite IH. apply orb_true_r.
Qed.

Lemma glob_literal_cons (c : ascii) (p s : string) :
  glob_literal (String c "") = true ->
  glob (String c p) (String c s) = glob p s.
Proof.
  intros H. simpl in H. rewrite andb_true_r in H.
  apply andb_prop in H as [H H4]. apply andb_prop in H as [H H3].
  apply andb_prop in H as [H1 H2].
  apply negb_true_iff, bool_decide_eq_false in H1, H2, H3, H4.
  cbn [glob]. rewrite !decide_False by done.
  now rewrite bool_decide_eq_true_2.
Qed.

Lemma glob_literal_prefix (p q s : string) :
  glob_literal p = true -> glob (p +:+ q) (p +:+ s) = glob q s.
Proof.
  induction p as [|c p IH]; intros H; [reflexivity|].
  change (String c p +:+ q) with (String c (p +:+ q)).
  change (String c p +:+ s) with (String c (p +:+ s)).
  simpl in H. apply andb_prop in H as [Hc Hp].
  rewrite glob_literal_cons; [now apply IH|].
  simpl. now rewrite andb_true_r.
Qed.

Lemma glob_literal_app (a b : string) :
  glob_literal a = true -> glob_literal b = true -> glob_literal (a +:+ b) = true.
Proof.
  intros Ha Hb. induction a as [|c a IH]; [exact Hb|].
  change (String c a +:+ b) with (String c (a +:+ b)).
  simpl in *. apply andb_prop in Ha as [Hc Ha]. rewrite Hc. now apply IH.
Qed.

Lemma glob_playerKey (roomId sid : string) :
  glob_literal roomId = true ->
  glob ("room:" +:+ roomId +:+ ":player:*") (playerKey roomId sid) = true.
Proof.
  intros H. unfold playerKey.
  change (":player:*") with (":player:" +:+ "*").
  rewrite <- !string_app_assoc.
  rewrite glob_literal_prefix; [apply glob_star_any|].
  apply glob_literal_app; [|reflexivity]. now apply (glob_literal_app "room:").
Qed.

Lemma glob_graphKey (roomId sid : string) :
  glob_literal roomId = true ->
  glob ("room:" +:+ roomId +:+ ":graph:*") (graphKey roomId sid) = true.
Proof.
  intros H. unfold graphKey.
  change (":graph:*") with (":graph:" +:+ "*").
  rewrite <- !string_app_assoc.
  rewrite glob_literal_prefix; [apply glob_star_any|].
  apply glob_literal_app; [|reflexivity]. now apply (glob_literal_app "room:").
Qed.

Lemma redis_keys_elem (pattern key : string) (st : State) :
  is_Some (redis st !! key) -> glob pattern key = true ->
  exists keys, redis_keys pattern st = (Some keys, st) /\ key ∈ keys.
Proof.
  intros [v Hv] Hg. eexists. split; [reflexivity|].
  apply list_elem_of_filter. split; [done|].
  apply list_elem_of_In, in_map_iff. exists (key, v). split; [done|].
  apply list_elem_of_In, elem_of_map_to_list. exact Hv.
Qed.

(** The keys [redis.keys(pattern)] returns. *)
Definition matching_keys (pattern : string) (st : State) : list string :=
  filter (fun k => glob pattern k = true) (map fst (map_to_list (redis st))).

Lemma matching_keys_elem (pattern key : string) (st : State) :
  key ∈ matching_keys pattern st <-> glob pattern key = true /\ is_Some (redis st !! key).
Proof.
  unfold matching_keys. rewrite list_elem_of_filter, list_elem_of_In, in_map_iff.
  split.
  - intros (Hg & [k v] & <- & Hin). split; [done|].
    apply list_elem_of_In, elem_of_map_to_list in Hin. now exists v.
  - intros (Hg & v & Hv). split; [done|]. exists (key, v). split; [done|].
    now apply list_elem_of_In, elem_of_map_to_list.
Qed.

(** The player record stored under a key, as [getAllPlayers] reads it:
    the fields as the store client hands them back. *)
Definition player_at (now : Z) (st : State) (key : string) : option PlayerData :=
  match redis st !! key with
  | Some (RHash h) => if decide (h = ∅) then None else Some (parsePlayerData (client_record h) now)
  | _ => None
  end.

(** The drawing stored under a key, as [getAllDrawings] keeps it: the
    reply of the store client, left out when it is falsy. *)
Definition drawing_at (st : State) (key : string) : option reply :=
  match redis st !! key with
  | Some (RStr d) => if reply_truthy (parse_reply d) then Some (parse_reply d) else None
  | _ => None
  end.

(** Every key of the store that matches the player pattern of the room is
    the player key of the room for a colon-free session id, and holds a
    hash. *)
Definition player_keys_ok (st : State) (roomId : string) : bool :=
  forallb (fun key =>
             match redis st !! key with
             | Some (RHash _) =>
                 colon_free (last_segment key)
                 && bool_decide (key = playerKey roomId (last_segment key))
             | _ => false
             end)
          (matching_keys ("room:" +:+ roomId +:+ ":player:*") st).

(** The same for the drawing pattern of the room, where the keys hold
    strings. *)
Definition graph_keys_ok (st : State) (roomId : string) : bool :=
  forallb (fun key =>
             match redis st !! key with
             | Some (RStr _) =>
                 colon_free (last_segment key)
                 && bool_decide (key = graphKey roomId (last_segment key))
             | _ => false
             end)
          (matching_keys ("room:" +:+ roomId +:+ ":graph:*") st).

Lemma getAllPlayers_loop_exact (now : Z) (roomId : string) (keys : list string)
    (acc : gmap string PlayerData) (st : State) :
  (forall key, key ∈ keys ->
     exists h, redis st !! key = Some (RHash h)
               /\ colon_free (last_segment key) = true
               /\ key = playerKey roomId (last_segment key)) ->
  exists result,
    getAllPlayers_loop now keys acc st = (Some result, st)
    /\ forall id, result !! id
         = if decide (playerKey roomId id ∈ keys /\ colon_free id = true)
           then player_at now st (playerKey roomId id) ∪ acc !! id
           else acc !! id.
Proof.
  revert acc. induction keys as [|k keys IH]; intros acc Hkeys.
  - exists acc. split; [reflexivity|]. intros id.
    rewrite decide_False; [done|]. intros [H _]. by apply elem_of_nil in H.
  - destruct (Hkeys k) as (h & Hk & Hcf & Hform); [apply elem_of_cons; now left|].
    destruct (IH (match (if decide (h = ∅) then None else Some (client_record h)) with
                  | Some raw => <[last_segment k := parsePlayerData raw now]> acc
                  | None => acc
                  end)) as (result & Hloop & Hres).
    { intros key Hin. apply Hkeys, elem_of_cons. now right. }
    exists result. split.
    { cbn [getAllPlayers_loop]. unfold bind, redis_hgetall. rewrite Hk. exact Hloop. }
    intros id. rewrite Hres.
    destruct (decide (last_segment k = id)) as [E|Hne].
    + assert (k = playerKey roomId id) as Hkid by (now rewrite <- E).
      assert (colon_free id = true) as Hid by (now rewrite <- E).
      rewrite (decide_True (P := playerKey roomId id ∈ k :: keys /\ _))
        by (split; [apply elem_of_cons; now left|done]).
      unfold player_at. rewrite <- Hkid, Hk.
      destruct (decide (h = ∅)).
      * rewrite !(left_id_L None (∪)). now destruct (decide _).
      * rewrite E, lookup_insert_eq, !option_union_Some_l. now destruct (decide _).
    + assert (match (if decide (h = ∅) then None else Some (client_record h)) with
              | Some raw => <[last_segment k := parsePlayerData raw now]> acc
              | None => acc
              end !! id = acc !! id) as ->.
      { destruct (decide (h = ∅)); [done|now rewrite lookup_insert_ne]. }
      destruct (decide (playerKey roomId id ∈ keys /\ _)) as [[Hin Hid]|Hnot].
      * rewrite decide_True; [done|]. split; [apply elem_of_cons; now right|done].
      * rewrite decide_False; [done|]. intros [Hin Hid].
        apply elem_of_cons in Hin as [Hin|Hin]; [|now apply Hnot].
        apply Hne. rewrite <- Hin. now apply last_segment_playerKey.
Qed.

Lemma getAllDrawings_loop_exact (roomId : string) (keys : list string)
    (acc : gmap string reply) (st : State) :
  (forall key, key ∈ keys ->
     exists d, redis st !! key = Some (RStr d)
               /\ colon_free (last_segment key) = true
               /\ key = graphKey roomId (last_segment key)) ->
  exists result,
    getAllDrawings_loop keys acc st = (Some result, st)
    /\ forall id, result !! id
         = if decide (graphKey roomId id ∈ keys /\ colon_free id = true)
           then drawing_at st (graphKey roomId id) ∪ acc !! id
           else acc !! id.
Proof.
  revert acc. induction keys as [|k keys IH]; intros acc Hkeys.
  - exists acc. split; [reflexivity|]. intros id.
    rewrite decide_False; [done|]. intros [H _]. by apply elem_of_nil in H.
  - destruct (Hkeys k) as (d & Hk & Hcf & Hform); [apply elem_of_cons; now left|].
    destruct (IH (if reply_truthy (parse_reply d)
                  then <[last_segment k := parse_reply d]> acc else acc))
      as (result & Hloop & Hres).
    { intros key Hin. apply Hkeys, elem_of_cons. now right. }
    exists result. split.
    { cbn [getAllDrawings_loop]. unfold bind, redis_get. rewrite Hk. exact Hloop. }
    intros id. rewrite Hres.
    destruct (decide (last_segment k = id)) as [E|Hne].
    + assert (k = graphKey roomId id) as Hkid by (now rewrite <- E).
      assert (colon_free id = true) as Hid by (now rewrite <- E).
      rewrite (decide_True (P := graphKey roomId id ∈ k :: keys /\ _))
        by (split; [apply elem_of_cons; now left|done]).
      unfold drawing_at. rewrite <- Hkid, Hk.
      destruct (reply_truthy (parse_reply d)).
      * rewrite E, lookup_insert_eq, !option_union_Some_l. now destruct (decide _).
      * rewrite !(left_id_L None (∪)). now destruct (decide _).
    + assert ((if reply_truthy (parse_reply d)
               then <[last_segment k := parse_reply d]> acc else acc) !! id
              = acc !! id) as ->.
      { destruct (reply_truthy (parse_reply d)); [now rewrite lookup_insert_ne|done]. }
      destruct (decide (graphKey roomId id ∈ keys /\ _)) as [[Hin Hid]|Hnot].
      * rewrite decide_True; [done|]. split; [apply elem_of_cons; now right|done].
      * rewrite decide_False; [done|]. intros [Hin Hid].
        apply elem_of_cons in Hin as [Hin|Hin]; [|now apply Hnot].
        apply Hne. rewrite <- Hin. now apply last_segment_graphKey.
Qed.

(** What [getAllPlayers] returns in a store where the keys that match the
    player pattern of the room are its player keys: the stored records of
    the room, keyed by session id. *)
Lemma getAllPlayers_returns (now : Z) (roomId : string) (st : State) :
  glob_literal roomId = true ->
  player_keys_ok st roomId = true ->
  exists players,
    getAllPlayers now roomId st = (Some players, st)
    /\ forall id, players !! id
         = if colon_free id then player_at now st (playerKey roomId id) else None.
Proof.
  intros Hlit Hok. unfold player_keys_ok in Hok.
  set (keys := matching_keys ("room:" +:+ roomId +:+ ":player:*") st) in *.
  destruct (getAllPlayers_loop_exact now roomId keys ∅ st) as (players & Hloop & Hres).
  { intros key Hin. apply list_elem_of_In in Hin.
    pose proof (proj1 (forallb_forall _ _) Hok key Hin) as Hkey. simpl in Hkey.
    destruct (redis st !! key) as [[h|]|]; try discriminate.
    apply andb_prop in Hkey as [Hcf Hform]. apply bool_decide_eq_true in Hform.
    now exists h. }
  exists players. split; [exact Hloop|].
  intros id. rewrite Hres, lookup_empty.
  destruct (colon_free id) eqn:Hid.
  - destruct (decide _) as [_|Hnot]; [now rewrite (right_id_L None (∪))|].
    unfold player_at. destruct (redis st !! playerKey roomId id) as [v|] eqn:Hv; [|done].
    exfalso. apply Hnot. split; [|done]. apply matching_keys_elem.
    split; [now apply glob_playerKey|now exists v].
  - rewrite decide_False; [done|]. now intros [_ ?].
Qed.

(** The same for [getAllDrawings]: the truthy replies for the drawing
    keys of the room, keyed by session id. *)
Lemma getAllDrawings_returns (roomId : string) (st : State) :
  glob_literal roomId = true ->
  graph_keys_ok st roomId = true ->
  exists drawings,
    getAllDrawings roomId st = (Some drawings, st)
    /\ forall id, drawings !! id
         = if colon_free id then drawing_at st (graphKey roomId id) else None.
Proof.
  intros Hlit Hok. unfold graph_keys_ok in Hok.
  set (keys := matching_keys ("room:" +:+ roomId +:+ ":graph:*") st) in *.
  destruct (getAllDrawings_loop_exact roomId keys ∅ st) as (drawings & Hloop & Hres).
  { intros key Hin. apply list_elem_of_In in Hin.
    pose proof (proj1 (forallb_forall _ _) Hok key Hin) as Hkey. simpl in Hkey.
    destruct (redis st !! key) as [[h|d]|]; try discriminate.
    apply andb_prop in Hkey as [Hcf Hform]. apply bool_decide_eq_true in Hform.
    now exists d. }
  exists drawings. split; [exact Hloop|].
  intros id. rewrite Hres, lookup_empty.
  destruct (colon_free id) eqn:Hid.
  - destruct (decide _) as [_|Hnot]; [now rewrite (right_id_L None (∪))|].
    unfold drawing_at. destruct (redis st !! graphKey roomId id) as [v|] eqn:Hv; [|done].
    exfalso. apply Hnot. split; [|done]. apply matching_keys_elem.
    split; [now apply glob_graphKey|now exists v].
  - rewrite decide_False; [done|]. now intros [_ ?].
Qed.

(** ** The round timer *)

(** A computation that only reads the store: it leaves the state as it
    is and its result depends on the store alone. *)
Definition reader {A} (m : M A) : Prop :=
  forall st st', redis st' = redis st -> m st' = ((m st).1, st').

Lemma reader_ret {A} (a : A) : reader (ret a).
Proof. intros st st' _. reflexivity. Qed.

Lemma reader_bind {A B} (m : M A) (f : A -> M B) :
  reader m -> (forall a, reader (f a)) -> reader (bind m f).
Proof.
  intros Hm Hf st st' E. unfold bind.
  rewrite (Hm st st' E). rewrite (Hm st st eq_refl) at 2.
  destruct (m st).1 as [a|]; simpl; [|done].
  now apply Hf.
Qed.

Lemma reader_hgetall (key : string) : reader (redis_hgetall key).
Proof.
  intros st st' E. unfold redis_hgetall. rewrite E.
  destruct (redis st !! key) as [[h|s]|]; done.
Qed.

Lemma reader_with_record {A} (raw : option (gmap string jsval))
    (parse : gmap string jsval -> A) : reader (with_record raw parse).
Proof. intros st st' _. now destruct raw. Qed.

Lemma reader_get (key : string) : reader (redis_get key).
Proof.
  intros st st' E. unfold redis_get. rewrite E.
  destruct (redis st !! key) as [[h|s]|]; done.
Qed.

Lemma reader_keys (pattern : string) : reader (redis_keys pattern).
Proof. intros st st' E. unfold redis_keys. now rewrite E. Qed.

Lemma reader_getAllPlayers (now : Z) (roomId : string) : reader (getAllPlayers now roomId).
Proof.
  unfold getAllPlayers. apply reader_bind; [apply reader_keys|].
  intros keys. generalize (∅ : gmap string PlayerData).
  induction keys as [|k keys IH]; intros acc; simpl.
  - apply reader_ret.
  - apply reader_bind; [apply reader_hgetall|]. intros raw. apply IH.
Qed.

Lemma reader_getAllDrawings (roomId : string) : reader (getAllDrawings roomId).
Proof.
  unfold getAllDrawings. apply reader_bind; [apply reader_keys|].
  intros keys. generalize (∅ : gmap string reply).
  induction keys as [|k keys IH]; intros acc; simpl.
  - apply reader_ret.
  - apply reader_bind; [apply reader_get|]. intros d. apply IH.
Qed.

(** [clearInterval] on the timer record. *)
Definition cleared (t : Timer) : Timer :=
  {| t_room := t_room t; t_roundEnd := t_roundEnd t; t_period := t_period t; t_active := false |}.

Lemma timeLeft_at_nonneg (roundEnd now : Z) : 0 <= timeLeft_at roundEnd now.
Proof. unfold timeLeft_at. lia. Qed.



Lemma tick_running (now : Z) (sid : string) (h : nat) (t : Timer) (st : State) :
  timers st !! h = Some t -> t_active t = true ->
  0 < timeLeft_at (t_roundEnd t) now ->
  step now sid (tick h) st
  = push_out (to_room st (t_room t) (E_timer (timeLeft_at (t_roundEnd t) now))) st.
Proof.
  intros Ht Ha Hpos. unfold step. cbn [handle]. unfold timer_tick.
  rewrite Ht, Ha. unfold timer_callback. cbn zeta.
  unfold bind at 1, io_to_emit at 1.
  destruct (Z.leb_spec (timeLeft_at (t_roundEnd t) now) 0); [lia|]. reflexivity.
Qed.

Lemma tick_cleared (now : Z) (sid : string) (h : nat) (t : Timer) (st : State) :
  timers st !! h = Some t -> t_active t = false -> step now sid (tick h) st = st.
Proof.
  intros Ht Ha. unfold step. cbn [handle]. unfold timer_tick. now rewrite Ht, Ha.
Qed.


(** ** The interval timers over a run *)

(** Computations that leave the timer table as it is. *)
Definition timers_kept (ts : list Timer) (s : State) : Prop := timers s = ts.

Ltac timers_frame := unfold keeps; intros; unfold timers_kept in *; simpl; done.

Lemma timers_quiet (now : Z) (sid : string) (req : request) (st : State) :
  match req with start_round _ _ | tick _ => False | _ => True end ->
  timers (step now sid req st) = timers st.
Proof.
  intros Hreq. unfold step.
  change (timers_kept (timers st) (handle now sid req st).2).
  destruct req as [entryFee mp w nick r|r nick w f a|r w|r nick|r d| |h];
    try done; cbn [handle].
  - apply (keeps_create_lobby_room (timers_kept (timers st)) (fun _ _ => True));
      try done; timers_frame.
  - apply (keeps_join (timers_kept (timers st)) (fun _ _ => True) (fun _ _ => True));
      try done; timers_frame.
  - apply (keeps_set_nickname (timers_kept (timers st)) (fun _ _ => True));
      try done; timers_frame.
  - apply (keeps_bind (timers_kept (timers st))); [| |done].
    + timers_frame.
    + intros _. apply (keeps_disconnect (timers_kept (timers st)) (fun _ => True));
        try done; timers_frame.
Qed.

(** The table is unchanged or has one more interval, active, for the room. *)
Definition interval_added (roomId : string) (ts ts' : list Timer) : Prop :=
  ts' = ts
  \/ exists z, ts' = ts ++ [{| t_room := roomId; t_roundEnd := z;
                               t_period := 1000; t_active := true |}].

Lemma start_round_timers (now : Z) (sid roomId : string) (w : option string) (st : State) :
  interval_added roomId (timers st) (timers (step now sid (start_round roomId w) st)).
Proof.
  unfold step. cbn [handle]. unfold on_start_round, bind at 1.
  pose proof (hgetall_state st (metaKey roomId)) as Hst.
  destruct (redis_hgetall (metaKey roomId) st) as [[[raw|]|] st0]; simpl in Hst; subst st0;
    [|now left..].
  cbn [with_record]. rewrite bind_ret.
  destruct (negb _); [now left|]. destruct (_ && _); [now left|].
  unfold bind at 1.
  pose proof (keeps_setRoomMeta (timers_kept (timers st)) (fun _ _ => True)
                ltac:(timers_frame) roomId
                {| p_fee := None; p_createdAt := None; p_asset := None;
                   p_roundEnd := Some (Some (now + 5 * 60 * 1000)); p_owner := None |}
                I st eq_refl) as Hset.
  unfold timers_kept in Hset.
  destruct (setRoomMeta _ _ st) as [[[]|] st1]; simpl in Hset; [|now left].
  unfold bind at 1, io_to_emit at 1. unfold spawn. cbn [snd].
  set (st2 := push_out _ st1).
  assert (timers st2 = timers st) as Ht2 by exact Hset.
  unfold startTimer, bind at 1.
  pose proof (hgetall_state st2 (metaKey roomId)) as Hst2.
  destruct (redis_hgetall (metaKey roomId) st2) as [[[raw2|]|] st3]; simpl in Hst2; subst st3;
    [|now left..].
  cbn [with_record]. rewrite bind_ret.
  destruct (negb _); [now left|].
  destruct (roundEnd _) as [[z|]|]; [|now left..].
  right. exists z. unfold setInterval. cbn [snd]. unfold set_timers. cbn [timers].
  now rewrite Ht2.
Qed.

Lemma tick_timers (now : Z) (sid : string) (h : nat) (st : State) :
  timers (step now sid (tick h) st)
  = match timers st !! h with
    | Some t => if t_active t && (timeLeft_at (t_roundEnd t) now <=? 0)
                then alter cleared h (timers st) else timers st
    | None => timers st
    end.
Proof.
  unfold step. cbn [handle]. unfold timer_tick.
  destruct (timers st !! h) as [t|] eqn:Ht; [|done].
  destruct (t_active t); [|done]. cbn [andb].
  unfold timer_callback. cbn zeta.
  unfold bind at 1, io_to_emit at 1.
  destruct (_ <=? 0); [|done].
  unfold bind at 1, clearInterval. fold cleared.
  set (st1 := set_timers _ _).
  change (timers_kept (timers st1)
            ((drawings <- getAllDrawings (t_room t) ;;
              players <- getAllPlayers now (t_room t) ;;
              metaRawFinal <- redis_hgetall (metaKey (t_room t)) ;;
              metaFinal <- with_record metaRawFinal (fun raw => parseRoomMeta raw now) ;;
              io_to_emit (t_room t) (E_round_end metaFinal players drawings)) st1).2).
  apply (keeps_bind (timers_kept (timers st1))); [apply keeps_getAllDrawings| |done].
  intros drawings.
  apply (keeps_bind (timers_kept (timers st1))); [apply keeps_getAllPlayers|].
  intros players.
  apply (keeps_bind (timers_kept (timers st1))); [apply keeps_hgetall|].
  intros raw.
  apply (keeps_bind (timers_kept (timers st1))); [apply keeps_with_record|].
  intros m. apply keeps_io_to_emit. timers_frame.
Qed.

(** The event is a firing of interval [h] at or after the end of the
    round of timer [t]. *)
Definition fires_last (h : nat) (t : Timer) (e : Event) : bool :=
  match ev_req e with
  | tick h' => bool_decide (h' = h) && (timeLeft_at (t_roundEnd t) (ev_now e) <=? 0)
  | _ => false
  end.

Lemma timer_step (e : Event) (st : State) (h : nat) (t : Timer) :
  timers st !! h = Some t ->
  timers (step (ev_now e) (ev_sid e) (ev_req e) st) !! h
  = Some {| t_room := t_room t; t_roundEnd := t_roundEnd t; t_period := t_period t;
            t_active := t_active t && negb (fires_last h t e) |}.
Proof.
  intros Ht. destruct e as [now sid req]. unfold fires_last. cbn [ev_now ev_sid ev_req].
  destruct req as [entryFee mp w nick r|r nick w f a|r w|r nick|r d| |h'].
  1,2,4,5,6: rewrite timers_quiet by done; rewrite Ht, andb_true_r; now destruct t.
  - destruct (start_round_timers now sid r w st) as [->|[z ->]].
    + rewrite Ht, andb_true_r. now destruct t.
    + rewrite lookup_app_l by (now apply lookup_lt_Some in Ht).
      rewrite Ht, andb_true_r. now destruct t.
  - rewrite tick_timers. case_bool_decide as Hh.
    + subst h'. rewrite Ht. cbn [andb].
      destruct (t_active t) eqn:Ha; cbn [andb].
      * destruct (_ <=? 0); cbn [negb].
        -- rewrite list_lookup_alter, Ht, decide_True by done. reflexivity.
        -- rewrite Ht. destruct t; simpl in *. now subst.
      * rewrite Ht. destruct t; simpl in *. now subst.
    + cbn [andb negb]. rewrite andb_true_r.
      destruct (timers st !! h') as [t'|]; [|rewrite Ht; now destruct t].
      destruct (_ && _); [rewrite list_lookup_alter_ne by done|];
        rewrite Ht; now destruct t.
Qed.

(** ** The firings of one interval over a run *)

(** The event is a firing of interval [h]. *)
Definition is_tick_of (h : nat) (e : Event) : bool :=
  match ev_req e with
  | tick h' => bool_decide (h' = h)
  | _ => false
  end.

(** What the firings of interval [h] emit over a run of events, in
    order: the other units of work of the run pass in between. *)
Fixpoint fired (h : nat) (evs : list Event) (st : State) : list Emit :=
  match evs with
  | [] => []
  | e :: evs' =>
      let st' := step (ev_now e) (ev_sid e) (ev_req e) st in
      (if is_tick_of h e then emitted st st' else []) ++ fired h evs' st'
  end.








(** The firings of one interval handle, at the given clock readings. *)
Definition tick_event (h : nat) (now : Z) : Event :=
  {| ev_now := now; ev_sid := ""; ev_req := tick h |}.

Definition run_ticks (h : nat) (times : list Z) (st : State) : State :=
  run (map (tick_event h) times) st.

Lemma run_ticks_app (h : nat) (l1 l2 : list Z) (st : State) :
  run_ticks h (l1 ++ l2) st = run_ticks h l2 (run_ticks h l1 st).
Proof. unfold run_ticks, run. now rewrite map_app, fold_left_app. Qed.

Lemma run_ticks_cons (h : nat) (now : Z) (l : list Z) (st : State) :
  run_ticks h (now :: l) st = run_ticks h l (step now "" (tick h) st).
Proof. reflexivity. Qed.

Lemma run_ticks_cleared (h : nat) (t : Timer) (times : list Z) (st : State) :
  timers st !! h = Some t -> t_active t = false -> run_ticks h times st = st.
Proof.
  intros Ht Ha. induction times as [|now times IH]; [done|].
  rewrite run_ticks_cons, (tick_cleared _ _ _ t) by done. exact IH.
Qed.

Lemma run_ticks_running (h : nat) (t : Timer) (before : list Z) (st : State) :
  timers st !! h = Some t -> t_active t = true ->
  Forall (fun now => 0 < timeLeft_at (t_roundEnd t) now) before ->
  run_ticks h before st
  = {| redis := redis st; rooms := rooms st; timers := timers st;
       outbox := outbox st ++
         map (fun now => to_room st (t_room t) (E_timer (timeLeft_at (t_roundEnd t) now))) before |}.
Proof.
  intros Ht Ha. revert st Ht. induction before as [|now before IH]; intros st Ht Hpos.
  - simpl. rewrite app_nil_r. now destruct st.
  - inversion Hpos as [|? ? Hnow Hrest]; subst.
    rewrite run_ticks_cons, (tick_running _ _ _ t) by done.
    rewrite IH by done. simpl. now rewrite <- app_assoc.
Qed.



(** The round of room [R1] with a drawing submitted by [s2]. *)
Definition drawn_R1 : State := step 6000 "s2" (drawing_submit "R1" "blob") round_R1.


(** The events of the last firings of the timer of [drawn_R1], with a
    third player joining in between. *)
Example timer_ticks_R1 :
  map e_event
    (fired 0
       [ {| ev_now := 303000; ev_sid := ""; ev_req := tick 0 |};
         {| ev_now := 303500; ev_sid := "s3"; ev_req := join "R1" "123" "W3" "10" None |};
         {| ev_now := 304000; ev_sid := ""; ev_req := tick 0 |};
         {| ev_now := 305000; ev_sid := ""; ev_req := tick 0 |};
         {| ev_now := 306000; ev_sid := ""; ev_req := tick 0 |} ] drawn_R1)
  = [ E_timer 2; E_timer 1; E_timer 0;
      E_round_end
        {| fee := JNum (Num 10); createdAt := Num 1000; asset := Some (JStr "USDC");
           roundEnd := Some (Num 305000); owner := Some (JStr "W1") |}
        (<["s3" := {| nickname := JNum (Num 123); wallet := JStr "W3"; joinedAt := Num 303500 |}]>
           (<["s2" := {| nickname := JStr "bob"; wallet := JStr "W2"; joinedAt := Num 3000 |}]>
              (<["s1" := {| nickname := JStr "al"; wallet := JStr "W1";
                            joinedAt := Num 2000 |}]> ∅)))
        (<["s2" := Reply (JStr "blob")]> ∅) ].
Proof. vm_compute. reflexivity. Qed.


(** ** Disconnecting *)

Lemma filter_none {A} (P : A -> Prop) `{forall x, Decision (P x)} (l : list A) :
  Forall (fun x => ~ P x) l -> filter P l = [].
Proof.
  induction 1 as [|x l Hx Hl IH]; [done|].
  now rewrite filter_cons_False.
Qed.

(** A connection whose rooms have ids without the prefix ["room:"] is
    cleaned up in none of them: the handler writes nothing and emits
    nothing. *)
Lemma disconnect_skips_unprefixed (now : Z) (sid : string) (st : State) :
  (forall r, r ∈ rooms_of st sid -> startsWith r "room:" = false) ->
  on_disconnect now sid st = (Some tt, st).
Proof.
  intros Hrooms. unfold on_disconnect. rewrite filter_none; [done|].
  apply Forall_forall. intros r Hr%elem_of_elements.
  rewrite (Hrooms r Hr). discriminate.
Qed.

Lemma redis_set_rooms (f : gmap string (gset string) -> gmap string (gset string))
    (st : State) : redis (set_rooms f st) = redis st.
Proof. reflexivity. Qed.

(** When the handler runs the connection has left its rooms: the loop
    over [socket.rooms] has nothing to go through, whatever the ids of
    the rooms were. *)
Lemma disconnect_step (now : Z) (sid : string) (st : State) :
  step now sid disconnect st = set_rooms (delete sid) st.
Proof.
  unfold step. cbn [handle]. unfold bind. cbn [fst snd].
  rewrite disconnect_skips_unprefixed; [reflexivity|].
  intros r. unfold rooms_of, set_rooms. cbn [rooms].
  rewrite lookup_delete_eq. cbn. set_solver.
Qed.

(** C1 fails on the code: connection [s2], which joined room [R1] and
    submitted a drawing there, disconnects; the handler goes through the
    rooms of the connection whose id starts with ["room:"], of which there
    is none, so it deletes neither the player record nor the drawing of
    [s2] and broadcasts no user list; a later [users] broadcast of the
    room (here after [s1] changes nickname) still lists [s2]. *)
Theorem disconnect_leaves_records :
  "R1" ∈ rooms_of drawn_R1 "s2"
  /\ redis (step 9000 "s2" disconnect drawn_R1) = redis drawn_R1
  /\ stored_hash (step 9000 "s2" disconnect drawn_R1) (playerKey "R1" "s2")
     = <["joinedAt" := "3000"]> (<["wallet" := "W2"]> (<["nickname" := "bob"]> ∅))
  /\ redis (step 9000 "s2" disconnect drawn_R1) !! graphKey "R1" "s2" = Some (RStr "blob")
  /\ emitted drawn_R1 (step 9000 "s2" disconnect drawn_R1) = []
  /\ map (fun e => e_event e)
       (emitted (step 9000 "s2" disconnect drawn_R1)
          (step 10000 "s1" (set_nickname "R1" (Some "alice"))
             (step 9000 "s2" disconnect drawn_R1)))
     = [ E_users [ {| u_id := "s1"; u_nickname := JStr "alice"; u_wallet := JStr "W1";
                      u_isSelf := true |};
                   {| u_id := "s2"; u_nickname := JStr "bob"; u_wallet := JStr "W2";
                      u_isSelf := false |} ] ].
Proof.
  split; [refine (bool_decide_unpack _ _); vm_compute; exact I|].
  rewrite disconnect_step.
  split; [apply redis_set_rooms|]. split; [vm_compute; reflexivity|].
  split; [vm_compute; reflexivity|]. split; [vm_compute; reflexivity|].
  vm_compute. reflexivity.
Qed.

(** * Further properties of the handlers *)

(** ** Room creation: the error path *)

Lemma create_lobby_room_outcomes (now : Z) (sid : string)
    (entryFee maxParticipants w nick : option string) (roomId : string) (st : State) :
  roomId <> "" ->
  let st' := step now sid
               (create_lobby_room entryFee maxParticipants w nick (Some roomId)) st in
  emitted st st' = [] \/ emitted st st' = [to_caller sid (E_room_created roomId)].
Proof.
  intros Hne st'. subst st'. unfold step. cbn [handle].
  destruct (hash_ok st (metaKey roomId)) eqn:Hmk.
  - destruct (hash_ok st (playerKey roomId sid)) eqn:Hpk.
    + right. rewrite create_lobby_room_success by done. cbn [snd].
      unfold emitted. simpl. now rewrite drop_app_length.
    + left. unfold on_create_lobby_room.
      assert (truthy_str (Some roomId) = true) as ->.
      { simpl. destruct (String.eqb_spec roomId ""); done. }
      cbn [negb from_option id]. unfold bind at 1, setRoomMeta.
      fold (initial_meta now entryFee w).
      rewrite (fields_nonempty _ "createdAt" (js_String now))
        by now rewrite roomMetaFields_createdAt.
      rewrite hset_ok by done.
      unfold bind at 1, setPlayer. fold (first_player now nick w).
      rewrite (fields_nonempty _ "joinedAt" (js_String now))
        by now rewrite playerFields_joinedAt.
      rewrite hset_rejected.
      2:{ rewrite <- Hpk. unfold hash_ok, set_redis. simpl.
          destruct (decide (metaKey roomId = playerKey roomId sid)) as [E|E].
          - rewrite <- E in Hpk. congruence.
          - now rewrite lookup_insert_ne. }
      cbn [snd]. unfold emitted. simpl. apply drop_all.
  - left. unfold on_create_lobby_room.
    assert (truthy_str (Some roomId) = true) as ->.
    { simpl. destruct (String.eqb_spec roomId ""); done. }
    cbn [negb from_option id]. unfold bind at 1, setRoomMeta.
    rewrite (fields_nonempty _ "createdAt" (js_String now))
      by (fold (initial_meta now entryFee w); now rewrite roomMetaFields_createdAt).
    rewrite hset_rejected by done. cbn [snd]. apply emitted_refl.
Qed.

(** X1: [create_lobby_room] answers [room_create_error] exactly when the
    room id is absent or empty; it then stores nothing, subscribes
    nothing and sends that one event to the caller only. *)
Theorem create_lobby_room_error_iff (now : Z) (sid : string)
    (entryFee maxParticipants w nick roomId : option string) (st : State) :
  let st' := step now sid (create_lobby_room entryFee maxParticipants w nick roomId) st in
  ((roomId = None \/ roomId = Some "") ->
     st' = push_out (to_caller sid (E_room_create_error "No roomId from contract.")) st)
  /\ ((exists e msg, e ∈ emitted st st' /\ e_event e = E_room_create_error msg)
      <-> (roomId = None \/ roomId = Some "")).
Proof.
  intros st'.
  assert (Hbad : (roomId = None \/ roomId = Some "") ->
     st' = push_out (to_caller sid (E_room_create_error "No roomId from contract.")) st).
  { intros [-> | ->]; reflexivity. }
  split; [exact Hbad|]. split.
  - intros (e & msg & He & Hev).
    destruct roomId as [r|]; [|now left]. right.
    destruct (decide (r = "")) as [->|Hne]; [done|]. exfalso.
    destruct (create_lobby_room_outcomes now sid entryFee maxParticipants w nick r st Hne)
      as [E|E]; fold st' in E; rewrite E in He.
    + by apply elem_of_nil in He.
    + apply list_elem_of_singleton in He. subst e. discriminate.
  - intros H. rewrite (Hbad H), emitted_push. eexists _, _.
    split; [apply list_elem_of_singleton; reflexivity|reflexivity].
Qed.

(** ** Starting a round in a room without owner *)

Lemma owner_absent (now : Z) (roomId : string) (st : State) :
  stored_meta st roomId !! "owner" = None -> owner (room_meta now st roomId) = None.
Proof.
  intros H. unfold room_meta, parseRoomMeta. cbn [owner].
  now rewrite client_record_lookup, H.
Qed.

(** X2: in a room whose meta holds a field but no [owner] (a room made
    by a [join] that names an asset), every [start_round] that names a
    wallet is refused with the owner error, while one that names none
    passes the owner guard and, with no round running, starts the
    round. *)
Theorem start_round_without_owner (now : Z) (sid roomId : string) (st : State) :
  0 <= now ->
  has_fields st (metaKey roomId) = true ->
  stored_meta st roomId !! "owner" = None ->
  (forall w, step now sid (start_round roomId (Some w)) st
     = push_out (to_caller sid (E_start_round_error "Only room owner can start round.")) st)
  /\ (round_running (room_meta now st roomId) now = false ->
      emitted st (step now sid (start_round roomId None) st)
        = [to_room st roomId (E_round_started (now + 300000) None)]
      /\ timers (step now sid (start_round roomId None) st)
         = timers st ++ [round_timer roomId (now + 300000)]).
Proof.
  intros Hnow Hok Howner.
  pose proof (owner_absent now roomId st Howner) as Hnone.
  split.
  - intros w. rewrite start_round_step, start_round_unfold by done. cbn zeta.
    now rewrite Hnone.
  - intros Hrun. rewrite start_round_step, start_round_success; try done.
    + cbn [snd]. rewrite Hnone.
      split; [|reflexivity]. unfold emitted. simpl. now rewrite drop_app_length.
    + now rewrite Hnone.
Qed.

Lemma start_round_without_owner_witness :
  0 <= 4000
  /\ has_fields
       (step 1000 "s1" (join "R7" "al" "W1" "10" (Some "USDC")) empty_state) (metaKey "R7") = true
  /\ stored_meta
       (step 1000 "s1" (join "R7" "al" "W1" "10" (Some "USDC")) empty_state) "R7" !! "owner"
     = None
  /\ step 4000 "s1" (start_round "R7" (Some "W1"))
       (step 1000 "s1" (join "R7" "al" "W1" "10" (Some "USDC")) empty_state)
     = push_out (to_caller "s1" (E_start_round_error "Only room owner can start round."))
         (step 1000 "s1" (join "R7" "al" "W1" "10" (Some "USDC")) empty_state).
Proof.
  split; [lia|]. split; [vm_compute; reflexivity|]. split; [vm_compute; reflexivity|].
  refine (proj1 (start_round_without_owner 4000 "s1" "R7" _ _ _ _) "W1").
  - lia.
  - vm_compute; reflexivity.
  - vm_compute; reflexivity.
Defined.

(** ** Isolation between rooms and between connections *)

Lemma playerKey_not_graphKey (r1 s1 r2 s2 : string) :
  colon_free s1 = true -> colon_free s2 = true -> playerKey r1 s1 <> graphKey r2 s2.
Proof.
  intros H1 H2 E.
  assert (s1 = s2) as <-.
  { apply (f_equal last_segment) in E.
    now rewrite last_segment_playerKey, last_segment_graphKey in E. }
  unfold playerKey, graphKey in E.
  change (":player:" +:+ s1) with (":player" +:+ String ":" s1) in E.
  change (":graph:" +:+ s1) with (":graph" +:+ String ":" s1) in E.
  rewrite <- !string_app_assoc in E.
  apply string_app_inv_tail in E.
  apply (f_equal last_segment) in E.
  change (("room:" +:+ r1) +:+ ":player") with (("room:" +:+ r1) +:+ String ":" "player") in E.
  change (("room:" +:+ r2) +:+ ":graph") with (("room:" +:+ r2) +:+ String ":" "graph") in E.
  rewrite !last_segment_app in E by done. discriminate.
Qed.

Lemma playerKey_inj (r1 s1 r2 s2 : string) :
  colon_free s1 = true -> colon_free s2 = true ->
  playerKey r1 s1 = playerKey r2 s2 -> r1 = r2 /\ s1 = s2.
Proof.
  intros H1 H2 E.
  assert (s1 = s2) as ->.
  { apply (f_equal last_segment) in E. now rewrite !last_segment_playerKey in E. }
  split; [|done]. unfold playerKey in E.
  apply String.app_inj in E. now apply string_app_inv_tail in E.
Qed.

Lemma sid_ok_colon_free (sid : string) : sid_ok sid = true -> colon_free sid = true.
Proof. now intros [H _]%andb_prop. Qed.

(** The room a request names. *)
Definition request_room (req : request) : option string :=
  match req with
  | create_lobby_room _ _ _ _ roomId => Some (default "" roomId)
  | join roomId _ _ _ _ => Some roomId
  | start_round roomId _ => Some roomId
  | set_nickname roomId _ => Some roomId
  | drawing_submit roomId _ => Some roomId
  | disconnect => None
  | tick _ => None
  end.

(** X3: the stored meta of a room is changed only by requests that name
    that room: whatever a connection sends about another room, and every
    disconnect and timer firing, leaves it as it is. *)
Theorem room_meta_isolated (e : Event) (roomId : string) (st : State) :
  event_ok e = true ->
  request_room (ev_req e) <> Some roomId ->
  redis (step (ev_now e) (ev_sid e) (ev_req e) st) !! metaKey roomId
  = redis st !! metaKey roomId.
Proof.
  destruct e as [now sid req]. cbn [ev_now ev_sid ev_req].
  intros Hok Hroom. unfold event_ok in Hok. simpl in Hok.
  apply andb_prop in Hok as [_ Hsid].
  generalize (eq_refl (redis st !! metaKey roomId)).
  generalize (redis st !! metaKey roomId) at 2 3. intros v.
  apply (keeps_step (fun s => redis s !! metaKey roomId = v)
           (fun k _ => k <> metaKey roomId) (fun k => k <> metaKey roomId)
           (fun _ _ => True)).
  - intros f st0 H. exact H.
  - intros s ev st0 H. exact H.
  - intros r ev st0 H. exact H.
  - intros k x st0 Hk H. simpl. now rewrite lookup_insert_ne.
  - intros k st0 Hk H. simpl. now rewrite lookup_delete_ne.
  - intros k fs st0 Hk _ H. simpl. now rewrite lookup_insert_ne.
  - intros s r st0 _ H. exact H.
  - intros s st0 H. exact H.
  - destruct req as [entryFee mp w nick r|r nick w f a|r w|r nick|r d| |h];
      cbn [request_free]; simpl in Hroom.
    + split; [|now apply playerKey_not_metaKey].
      intros E%metaKey_inj. congruence.
    + split; [done|]. split; [|now apply playerKey_not_metaKey].
      intros E%metaKey_inj. congruence.
    + intros E%metaKey_inj. congruence.
    + now apply playerKey_not_metaKey.
    + now apply graphKey_not_metaKey.
    + intros r. split; [now apply playerKey_not_metaKey|now apply graphKey_not_metaKey].
    + done.
Qed.

Lemma room_meta_isolated_witness :
  event_ok {| ev_now := 9000; ev_sid := "s2";
              ev_req := create_lobby_room (Some "1") None (Some "W2") (Some "bob") (Some "R2") |}
    = true
  /\ redis (step 9000 "s2"
              (create_lobby_room (Some "1") None (Some "W2") (Some "bob") (Some "R2")) round_R1)
       !! metaKey "R1"
     = redis round_R1 !! metaKey "R1".
Proof.
  split; [reflexivity|].
  refine (room_meta_isolated
            {| ev_now := 9000; ev_sid := "s2";
               ev_req := create_lobby_room (Some "1") None (Some "W2") (Some "bob") (Some "R2") |}
            "R1" round_R1 _ _).
  - reflexivity.
  - discriminate.
Defined.

(** X4: the player record and the drawing of a connection in a room are
    changed only by that connection's own requests (and never by a timer):
    no other connection can overwrite or delete them. *)
Theorem records_of_connection_isolated (e : Event) (roomId sid : string) (st : State) :
  event_ok e = true ->
  sid_ok sid = true ->
  (ev_sid e <> sid \/ exists h, ev_req e = tick h) ->
  let st' := step (ev_now e) (ev_sid e) (ev_req e) st in
  redis st' !! playerKey roomId sid = redis st !! playerKey roomId sid
  /\ redis st' !! graphKey roomId sid = redis st !! graphKey roomId sid.
Proof.
  destruct e as [now sid' req]. cbn [ev_now ev_sid ev_req].
  intros Hok Hsid Hother.
  unfold event_ok in Hok. simpl in Hok. apply andb_prop in Hok as [_ Hsid'].
  pose proof (sid_ok_colon_free sid Hsid) as Hcf.
  assert (forall k, (k = playerKey roomId sid \/ k = graphKey roomId sid) ->
            redis (step now sid' req st) !! k = redis st !! k) as H.
  { intros k Hk.
    generalize (eq_refl (redis st !! k)).
    generalize (redis st !! k) at 2 3. intros v.
    apply (keeps_step (fun s => redis s !! k = v)
             (fun k' _ => k' <> k) (fun k' => k' <> k) (fun _ _ => True)).
    - intros f st0 H. exact H.
    - intros s ev st0 H. exact H.
    - intros r ev st0 H. exact H.
    - intros k' x st0 Hk' H. simpl. now rewrite lookup_insert_ne.
    - intros k' st0 Hk' H. simpl. now rewrite lookup_delete_ne.
    - intros k' fs st0 Hk' _ H. simpl. now rewrite lookup_insert_ne.
    - intros s r st0 _ H. exact H.
    - intros s st0 H. exact H.
    - assert (forall r, metaKey r <> k) as Hmeta.
      { intros r E. destruct Hk as [-> | ->].
        - now apply (playerKey_not_metaKey roomId sid r).
        - now apply (graphKey_not_metaKey roomId sid r). }
      destruct req as [entryFee mp w nick r|r nick w f a|r w|r nick|r d| |h];
        cbn [request_free]; try done;
        destruct Hother as [Hne|[h' [=]]];
        pose proof (sid_ok_colon_free sid' Hsid') as Hcf'.
      + split; [apply Hmeta|]. intros E. destruct Hk as [-> | ->].
        * apply playerKey_inj in E as [_ ?]; done.
        * now apply playerKey_not_graphKey in E.
      + split; [done|]. split; [apply Hmeta|]. intros E. destruct Hk as [-> | ->].
        * apply playerKey_inj in E as [_ ?]; done.
        * now apply playerKey_not_graphKey in E.
      + intros E. destruct Hk as [-> | ->].
        * apply playerKey_inj in E as [_ ?]; done.
        * now apply playerKey_not_graphKey in E.
      + intros E. destruct Hk as [-> | ->].
        * symmetry in E. now apply playerKey_not_graphKey in E.
        * apply graphKey_inj in E as [_ ?]; done.
      + intros r. split; intros E; destruct Hk as [-> | ->].
        * apply playerKey_inj in E as [_ ?]; done.
        * now apply playerKey_not_graphKey in E.
        * symmetry in E. now apply playerKey_not_graphKey in E.
        * apply graphKey_inj in E as [_ ?]; done. }
  split; apply H; [now left|now right].
Qed.

Lemma records_of_connection_isolated_witness :
  event_ok {| ev_now := 9000; ev_sid := "s1"; ev_req := drawing_submit "R1" "other" |} = true
  /\ sid_ok "s2" = true
  /\ redis (step 9000 "s1" (drawing_submit "R1" "other") drawn_R1) !! graphKey "R1" "s2"
     = redis drawn_R1 !! graphKey "R1" "s2".
Proof.
  split; [reflexivity|]. split; [reflexivity|].
  refine (proj2 (records_of_connection_isolated
            {| ev_now := 9000; ev_sid := "s1"; ev_req := drawing_submit "R1" "other" |}
            "R1" "s2" drawn_R1 _ _ _)).
  - reflexivity.
  - reflexivity.
  - left. discriminate.
Defined.

(** ** Kinds of values in the store *)

(** Plain strings are held under drawing keys only, hashes under meta and
    player keys only. *)
Definition keys_typed (st : State) : Prop :=
  forall k v, redis st !! k = Some v ->
    match v with
    | RStr _ => exists r s, sid_ok s = true /\ k = graphKey r s
    | RHash _ => (exists r, k = metaKey r) \/ exists r s, sid_ok s = true /\ k = playerKey r s
    end.

Definition hash_key (k : string) : Prop :=
  (exists r, k = metaKey r) \/ exists r s, sid_ok s = true /\ k = playerKey r s.

Lemma keys_typed_hset (k : string) (fs : gmap string string) (st : State) :
  hash_key k -> hash_ok st k = true -> keys_typed st ->
  keys_typed (set_redis (insert k (RHash (fs ∪ stored_hash st k))) st).
Proof.
  intros Hk _ H k' v. simpl. destruct (decide (k = k')) as [->|Hne].
  - rewrite lookup_insert_eq. intros [= <-]. exact Hk.
  - rewrite lookup_insert_ne by done. apply H.
Qed.

Lemma keys_typed_set (k v : string) (st : State) :
  (exists r s, sid_ok s = true /\ k = graphKey r s) -> keys_typed st ->
  keys_typed (set_redis (insert k (RStr v)) st).
Proof.
  intros Hk H k' v'. simpl. destruct (decide (k = k')) as [->|Hne].
  - rewrite lookup_insert_eq. intros [= <-]. exact Hk.
  - rewrite lookup_insert_ne by done. apply H.
Qed.

Lemma keys_typed_del (k : string) (st : State) :
  keys_typed st -> keys_typed (set_redis (delete k) st).
Proof.
  intros H k' v'. simpl. intros [_ Hl]%lookup_delete_Some. now apply H.
Qed.

Lemma keys_typed_step (e : Event) (st : State) :
  event_ok e = true -> keys_typed st ->
  keys_typed (step (ev_now e) (ev_sid e) (ev_req e) st).
Proof.
  destruct e as [now sid req]. cbn [ev_now ev_sid ev_req].
  intros Hok. unfold event_ok in Hok. simpl in Hok. apply andb_prop in Hok as [_ Hsid].
  unfold step.
  assert (Hc : forall s ev st0, keys_typed st0 -> keys_typed (push_out (to_caller s ev) st0))
    by (intros; assumption).
  assert (Hr : forall r ev st0, keys_typed st0 -> keys_typed (push_out (to_room st0 r ev) st0))
    by (intros; assumption).
  assert (Ht : forall f st0, keys_typed st0 -> keys_typed (set_timers f st0))
    by (intros; assumption).
  destruct req as [entryFee mp w nick r|r nick w f a|r w|r nick|r d| |h]; cbn [handle].
  - apply (keeps_create_lobby_room keys_typed (fun k _ => hash_key k)); try done.
    + intros k fs st0. apply keys_typed_hset.
    + left. eauto.
    + right. eauto.
  - apply (keeps_join keys_typed (fun k _ => hash_key k) (fun _ _ => True)); try done.
    + intros k fs st0. apply keys_typed_hset.
    + left. eauto.
    + right. eauto.
  - apply (keeps_start_round keys_typed (fun k _ => hash_key k)); try done.
    + intros k fs st0. apply keys_typed_hset.
    + left. eauto.
  - apply (keeps_set_nickname keys_typed (fun k _ => hash_key k)); try done.
    + intros k fs st0. apply keys_typed_hset.
    + right. eauto.
  - apply (keeps_drawing_submit keys_typed
             (fun k => exists r s, sid_ok s = true /\ k = graphKey r s)); try done.
    + intros k v st0. apply keys_typed_set.
    + eauto.
  - apply (keeps_bind keys_typed).
    + intros st0 H. exact H.
    + intros _. apply (keeps_disconnect keys_typed (fun _ => True)); try done.
      intros k st0 _. apply keys_typed_del.
  - apply (keeps_timer_tick keys_typed); done.
Qed.

Lemma keys_typed_run (evs : list Event) :
  forallb event_ok evs = true -> keys_typed (run evs empty_state).
Proof.
  assert (keys_typed empty_state) as H0 by (intros k v Hk; done).
  revert H0. generalize empty_state. unfold run.
  induction evs as [|e evs IH]; intros st H Hall; simpl; [exact H|].
  simpl in Hall. apply andb_prop in Hall as [He Hall].
  apply IH; [|done]. now apply keys_typed_step.
Qed.

(** X5: in every state the server reaches from the empty store through
    events of connections with transport session ids, meta keys and player
    keys hold hashes and drawing keys hold strings: the commands a handler
    sends for the meta of a room, for its own player record and for its own
    drawing are never refused by the store for the kind of value held. *)
Theorem store_commands_accepted (evs : list Event) (roomId sid : string) :
  forallb event_ok evs = true ->
  sid_ok sid = true ->
  let st := run evs empty_state in
  hash_ok st (metaKey roomId) = true
  /\ hash_ok st (playerKey roomId sid) = true
  /\ (exists raw, redis_hgetall (metaKey roomId) st = (Some raw, st))
  /\ (exists raw, redis_hgetall (playerKey roomId sid) st = (Some raw, st))
  /\ (exists d, redis_get (graphKey roomId sid) st = (Some d, st)).
Proof.
  intros Hevs Hsid st.
  pose proof (keys_typed_run evs Hevs) as Htyped. fold st in Htyped.
  pose proof (sid_ok_colon_free sid Hsid) as Hcf.
  assert (hash_ok st (metaKey roomId) = true) as Hmeta.
  { unfold hash_ok. destruct (redis st !! metaKey roomId) as [[h|s]|] eqn:E; try done.
    destruct (Htyped _ _ E) as (r & s' & Hs' & Hk).
    symmetry in Hk. now apply graphKey_not_metaKey in Hk. }
  assert (hash_ok st (playerKey roomId sid) = true) as Hplayer.
  { unfold hash_ok. destruct (redis st !! playerKey roomId sid) as [[h|s]|] eqn:E; try done.
    destruct (Htyped _ _ E) as (r & s' & Hs' & Hk).
    apply playerKey_not_graphKey in Hk; [done|done|now apply sid_ok_colon_free]. }
  split; [exact Hmeta|]. split; [exact Hplayer|]. split; [|split].
  - rewrite hgetall_ok by done. eauto.
  - rewrite hgetall_ok by done. eauto.
  - unfold redis_get. destruct (redis st !! graphKey roomId sid) as [[h|s]|] eqn:E; eauto.
    exfalso. destruct (Htyped _ _ E) as [[r Hk]|(r & s' & Hs' & Hk)].
    + now apply graphKey_not_metaKey in Hk.
    + symmetry in Hk. apply playerKey_not_graphKey in Hk; [done| |done].
      now apply sid_ok_colon_free.
Qed.

Lemma store_commands_accepted_witness :
  forallb event_ok
    [ {| ev_now := 1000; ev_sid := "s1"; ev_req := join "R1" "al" "W1" "10" None |};
      {| ev_now := 2000; ev_sid := "s1"; ev_req := drawing_submit "R1" "blob" |} ] = true
  /\ sid_ok "s1" = true
  /\ hash_ok
       (run [ {| ev_now := 1000; ev_sid := "s1"; ev_req := join "R1" "al" "W1" "10" None |};
              {| ev_now := 2000; ev_sid := "s1"; ev_req := drawing_submit "R1" "blob" |} ]
          empty_state) (metaKey "R1") = true.
Proof.
  split; [reflexivity|]. split; [reflexivity|].
  refine (proj1 (store_commands_accepted _ "R1" "s1" _ _)); reflexivity.
Defined.

(** X6: in every state the server reaches from the empty store, the room
    meta it reads has a number as [createdAt] and [null] or a number as
    [roundEnd], and every stored player record reads with a number as
    [joinedAt], whether the numeric fields come back from the store client
    as numbers or as the strings the source declares: no [NaN] is ever
    broadcast. *)
Theorem no_NaN_read (evs : list Event) (roomId : string) (now : Z) :
  let st := run evs empty_state in
  (exists z, createdAt (room_meta now st roomId) = Num z)
  /\ (roundEnd (room_meta now st roomId) = None
      \/ exists z, roundEnd (room_meta now st roomId) = Some (Num z))
  /\ (forall k h, redis st !! k = Some (RHash h) ->
        (exists z, joinedAt (parsePlayerData (client_record h) now) = Num z)
        /\ exists z, joinedAt (parsePlayerData (as_strings h) now) = Num z)
  /\ (exists z, createdAt (parseRoomMeta (as_strings (stored_meta st roomId)) now) = Num z)
  /\ (roundEnd (parseRoomMeta (as_strings (stored_meta st roomId)) now) = None
      \/ exists z, roundEnd (parseRoomMeta (as_strings (stored_meta st roomId)) now)
                   = Some (Num z)).
Proof.
  intros st. pose proof (numerals_ok_run evs) as Hnum. fold st in Hnum.
  assert (numerals_in (stored_meta st roomId)) as Hm.
  { unfold stored_meta, stored_hash.
    destruct (redis st !! metaKey roomId) as [[h|s]|] eqn:E.
    - now apply (Hnum _ _ E).
    - intros f s0 _ Hf. by rewrite lookup_empty in Hf.
    - intros f s0 _ Hf. by rewrite lookup_empty in Hf. }
  split; [|split; [|split; [|split]]].
  - unfold room_meta.
    destruct (stored_meta st roomId !! "createdAt") as [s|] eqn:E.
    + destruct (Hm "createdAt" s) as [z ->]; [left; done|done|].
      rewrite (parse_createdAt_stored _ _ z) by done. eauto.
    + rewrite parse_createdAt_absent by done. eauto.
  - unfold room_meta.
    destruct (stored_meta st roomId !! "roundEnd") as [s|] eqn:E.
    + destruct (Hm "roundEnd" s) as [z ->]; [right; left; done|done|].
      rewrite (parse_roundEnd_stored _ _ z) by done. destruct (z =? 0); eauto.
    + rewrite parse_roundEnd_absent by done. now left.
  - intros k h Hk. unfold parsePlayerData. cbn [joinedAt].
    rewrite client_record_lookup, as_strings_lookup.
    destruct (h !! "joinedAt") as [s|] eqn:E; [|simpl; eauto].
    destruct (Hnum k h Hk "joinedAt" s) as [z ->]; [right; right; done|done|].
    cbn [fmap option_fmap option_map truthy_prop from_option].
    rewrite truthy_numeral, to_number_numeral, truthy_JStr_numeral. cbn [to_number].
    rewrite js_Number_String. destruct (z =? 0); simpl; eauto.
  - unfold parseRoomMeta. cbn [createdAt]. rewrite as_strings_lookup.
    destruct (stored_meta st roomId !! "createdAt") as [s|] eqn:E; [|simpl; eauto].
    destruct (Hm "createdAt" s) as [z ->]; [left; done|done|].
    cbn [fmap option_fmap option_map truthy_prop from_option].
    rewrite truthy_JStr_numeral. cbn [to_number]. rewrite js_Number_String. eauto.
  - unfold parseRoomMeta. cbn [roundEnd]. rewrite as_strings_lookup.
    destruct (stored_meta st roomId !! "roundEnd") as [s|] eqn:E; [|now left].
    destruct (Hm "roundEnd" s) as [z ->]; [right; left; done|done|].
    cbn [fmap option_fmap option_map truthy_prop from_option].
    rewrite truthy_JStr_numeral. cbn [to_number]. rewrite js_Number_String. eauto.
Qed.

(** ** Joining a room, changing nickname *)

(** The list [broadcastUsers] builds from the player map. *)
Definition users_list (players : gmap string PlayerData) (selfId : string) : list UserEntry :=
  map (fun p : string * PlayerData =>
         {| u_id := p.1; u_nickname := nickname p.2;
            u_wallet := wallet p.2; u_isSelf := bool_decide (p.1 = selfId) |})
      (map_to_list players).

(** What [broadcastUsers] emits in a state: the list, or nothing when the
    store refuses one of the reads. *)
Definition users_events (now : Z) (roomId selfId : string) (st : State) : list Emit :=
  match (getAllPlayers now roomId st).1 with
  | Some players => [to_room st roomId (E_users (users_list players selfId))]
  | None => []
  end.

Lemma broadcastUsers_state (now : Z) (roomId selfId : string) (st : State) :
  (broadcastUsers now roomId selfId st).2
  = {| redis := redis st; rooms := rooms st; timers := timers st;
       outbox := outbox st ++ users_events now roomId selfId st |}.
Proof.
  unfold broadcastUsers, bind, users_events.
  rewrite (reader_getAllPlayers now roomId st st eq_refl).
  destruct (getAllPlayers now roomId st).1 as [players|]; simpl.
  - reflexivity.
  - rewrite app_nil_r. now destruct st.
Qed.

Lemma users_events_reader (now : Z) (roomId selfId : string) (st st' : State) :
  redis st' = redis st -> rooms st' = rooms st ->
  users_events now roomId selfId st' = users_events now roomId selfId st.
Proof.
  intros Hr Hm. unfold users_events.
  rewrite (reader_getAllPlayers now roomId st st' Hr). cbn [fst].
  destruct (getAllPlayers now roomId st).1; [|done].
  unfold to_room, members. now rewrite Hm.
Qed.

Lemma members_join (st : State) (sid roomId : string) :
  members (set_rooms (insert sid ({[roomId]} ∪ rooms_of st sid)) st) roomId
  = {[sid]} ∪ members st roomId.
Proof.
  apply set_eq. intros s. rewrite elem_of_union, elem_of_singleton, !elem_of_members.
  unfold rooms_of at 1. unfold set_rooms. simpl.
  destruct (decide (sid = s)) as [->|Hne].
  - rewrite lookup_insert_eq. simpl. split; [now left|].
    intros _. apply elem_of_union_l. now apply elem_of_singleton.
  - rewrite lookup_insert_ne by done. fold (rooms_of st s).
    split; [now right|]. intros [E|?]; [congruence|done].
Qed.

(** What [broadcastMeta] emits in a state: the meta, or nothing when the
    store refuses the read or answers [null]. *)
Definition meta_events (now : Z) (roomId : string) (st : State) : list Emit :=
  if has_fields st (metaKey roomId)
  then [to_room st roomId (E_meta (room_meta now st roomId))]
  else [].

Lemma broadcastMeta_state (now : Z) (roomId : string) (st : State) :
  (broadcastMeta now roomId st).2
  = {| redis := redis st; rooms := rooms st; timers := timers st;
       outbox := outbox st ++ meta_events now roomId st |}.
Proof.
  unfold broadcastMeta, getRoomMeta, meta_events. unfold bind at 1. unfold bind at 1.
  destruct (has_fields st (metaKey roomId)) eqn:Hf.
  - rewrite hgetall_record by done. reflexivity.
  - destruct (hash_ok st (metaKey roomId)) eqn:Hok.
    + rewrite hgetall_null by done. cbn. rewrite app_nil_r. now destruct st.
    + rewrite hgetall_rejected by done. cbn. rewrite app_nil_r. now destruct st.
Qed.

Lemma meta_events_reader (now : Z) (roomId : string) (st st' : State) :
  redis st' = redis st -> rooms st' = rooms st ->
  meta_events now roomId st' = meta_events now roomId st.
Proof.
  intros Hr Hm. unfold meta_events, has_fields, room_meta, stored_meta, stored_hash, to_room,
    members. now rewrite Hr, Hm.
Qed.

(** The store after the writes of [join]. *)
Definition joined_store (now : Z) (sid roomId nick w : string) (a : option string)
    (st : State) : gmap string rval :=
  <[playerKey roomId sid :=
      RHash (<["joinedAt" := js_String now]> (<["wallet" := w]> (<["nickname" := nick]> ∅))
             ∪ stored_hash st (playerKey roomId sid))]>
    (match a with
     | Some x => <[metaKey roomId := RHash (<["asset" := x]> (stored_meta st roomId))]> (redis st)
     | None => redis st
     end).

Lemma join_state (now : Z) (sid roomId nick w f : string) (a : option string) (st : State) :
  sid_ok sid = true ->
  hash_ok st (metaKey roomId) = true ->
  hash_ok st (playerKey roomId sid) = true ->
  let st2 := {| redis := joined_store now sid roomId nick w a st;
                rooms := <[sid := {[roomId]} ∪ rooms_of st sid]> (rooms st);
                timers := timers st; outbox := outbox st |} in
  step now sid (join roomId nick w f a) st
  = {| redis := redis st2; rooms := rooms st2; timers := timers st;
       outbox := outbox st ++ meta_events now roomId st2
                 ++ users_events now roomId sid st2 |}.
Proof.
  intros Hsid Hmk Hpk st2. unfold step. cbn [handle]. unfold on_join.
  unfold bind at 1, socket_join.
  set (st0 := set_rooms _ st).
  assert (playerKey roomId sid <> metaKey roomId) as Hne by now apply playerKey_not_metaKey.
  (* the meta write *)
  assert (exists st1, setRoomMeta roomId
            {| p_fee := None; p_createdAt := None; p_asset := a;
               p_roundEnd := None; p_owner := None |} st0 = (Some tt, st1)
          /\ st1 = set_redis (fun m => match a with
                     | Some x => <[metaKey roomId := RHash (<["asset" := x]> (stored_meta st roomId))]> m
                     | None => m end) st0) as (st1 & E1 & Hst1).
  { unfold setRoomMeta. destruct a as [x|].
    - rewrite (fields_nonempty _ "asset" x) by now rewrite roomMetaFields_asset.
      rewrite hset_ok by done. eexists. split; [reflexivity|].
      unfold set_redis. simpl. do 3 f_equal.
      change (roomMetaFields _) with (<["asset" := x]> (∅ : gmap string string)).
      rewrite <- insert_union_l, (left_id_L ∅ (∪)). reflexivity.
    - exists st0. split; [reflexivity|]. now destruct st0. }
  unfold bind at 1. rewrite E1.
  assert (hash_ok st1 (playerKey roomId sid) = true) as Hpk1.
  { rewrite Hst1. unfold hash_ok. simpl. destruct a; [now rewrite lookup_insert_ne|done]. }
  assert (stored_hash st1 (playerKey roomId sid) = stored_hash st (playerKey roomId sid)) as Hsh.
  { rewrite Hst1. unfold stored_hash. simpl. destruct a; [now rewrite lookup_insert_ne|done]. }
  unfold bind at 1. rewrite hset_ok by done. rewrite Hsh.
  set (st2' := set_redis _ st1).
  assert (st2' = st2) as ->.
  { subst st2' st2. rewrite Hst1. unfold set_redis, joined_store. simpl. reflexivity. }
  unfold bind at 1, spawn at 1. cbn [snd]. rewrite broadcastMeta_state.
  set (st3 := {| redis := redis st2 |}).
  unfold spawn. cbn [snd]. rewrite broadcastUsers_state.
  rewrite (users_events_reader now roomId sid st2 st3) by reflexivity.
  subst st3. simpl. rewrite <- app_assoc. reflexivity.
Qed.

Lemma read_back_JStr (text : string) : reads_back text = true -> read_back text = JStr text.
Proof.
  intros H%bool_decide_eq_true. unfold read_back. now rewrite H.
Qed.

(** X7: a [join] (store commands accepted) subscribes the connection to
    the room, replaces its player record of the room by the nickname,
    wallet and [joinedAt = now] given, writes [asset] into the room meta
    when one is supplied and touches no other key; its two broadcasts,
    which the handler does not wait for, then give the room meta as read
    back (when the meta holds a field) and the user list (when the bulk
    read succeeds), in whichever order, to every connection in the room,
    the joining one included. *)
Theorem join_effect (now : Z) (sid roomId nick w f : string) (a : option string)
    (st : State) :
  sid_ok sid = true ->
  hash_ok st (metaKey roomId) = true ->
  hash_ok st (playerKey roomId sid) = true ->
  let st' := step now sid (join roomId nick w f a) st in
  rooms st' = <[sid := {[roomId]} ∪ rooms_of st sid]> (rooms st)
  /\ members st' roomId = {[sid]} ∪ members st roomId
  /\ redis st' = joined_store now sid roomId nick w a st
  /\ (forall now', parsePlayerData (client_record (stored_hash st' (playerKey roomId sid))) now'
                   = {| nickname := read_back nick; wallet := read_back w;
                        joinedAt := Num (if now =? 0 then now' else now) |})
  /\ (forall now', room_meta now' st' roomId
        = let m := room_meta now' st roomId in
          {| fee := fee m; createdAt := createdAt m;
             asset := match a with Some x => Some (parse_field x) | None => asset m end;
             roundEnd := roundEnd m; owner := owner m |})
  /\ (exists us ms,
        (us = [] \/ exists l, us = [E_users l])
        /\ ms = (if has_fields st' (metaKey roomId)
                 then [E_meta (room_meta now st' roomId)] else [])
        /\ map (fun e => e_event e) (emitted st st') ≡ₚ us ++ ms)
  /\ (forall e, e ∈ emitted st st' ->
        e_target e = ToRoom roomId /\ e_recipients e = {[sid]} ∪ members st roomId).
Proof.
  intros Hsid Hmk Hpk st'.
  pose proof (join_state now sid roomId nick w f a st Hsid Hmk Hpk) as Hst. cbn zeta in Hst.
  fold st' in Hst.
  set (st2 := {| redis := joined_store now sid roomId nick w a st;
                 rooms := <[sid := {[roomId]} ∪ rooms_of st sid]> (rooms st);
                 timers := timers st; outbox := outbox st |}) in *.
  assert (playerKey roomId sid <> metaKey roomId) as Hne by now apply playerKey_not_metaKey.
  assert (members st2 roomId = {[sid]} ∪ members st roomId) as Hmem
    by apply (members_join st sid roomId).
  assert (forall now', room_meta now' st' roomId = room_meta now' st2 roomId) as Hrm.
  { intros now'. rewrite Hst. reflexivity. }
  assert (has_fields st' (metaKey roomId) = has_fields st2 (metaKey roomId)) as Hhf.
  { rewrite Hst. reflexivity. }
  split; [now rewrite Hst|]. split; [rewrite Hst; exact Hmem|].
  split; [now rewrite Hst|]. split; [|split; [|split]].
  - intros now'. rewrite Hst. unfold stored_hash at 1. simpl. unfold joined_store.
    rewrite lookup_insert_eq.
    apply parsePlayerData_client.
    + rewrite lookup_union.
      rewrite (lookup_insert_ne _ "joinedAt" "nickname") by done.
      rewrite (lookup_insert_ne _ "wallet" "nickname") by done.
      now rewrite lookup_insert_eq, option_union_Some_l.
    + rewrite lookup_union.
      rewrite (lookup_insert_ne _ "joinedAt" "wallet") by done.
      now rewrite lookup_insert_eq, option_union_Some_l.
    + rewrite lookup_union. now rewrite lookup_insert_eq, option_union_Some_l.
  - intros now'. rewrite Hrm. unfold room_meta, stored_meta, stored_hash. simpl.
    unfold joined_store. rewrite lookup_insert_ne by done.
    destruct a as [x|].
    + rewrite lookup_insert_eq. fold (stored_hash st (metaKey roomId)).
      unfold parseRoomMeta. rewrite !client_record_lookup.
      rewrite (lookup_insert_ne _ "asset" "fee") by done.
      rewrite (lookup_insert_ne _ "asset" "createdAt") by done.
      rewrite (lookup_insert_ne _ "asset" "roundEnd") by done.
      rewrite (lookup_insert_ne _ "asset" "owner") by done.
      now rewrite lookup_insert_eq.
    + reflexivity.
  - rewrite Hrm, Hhf. rewrite Hst. unfold emitted. simpl. rewrite drop_app_length.
    rewrite map_app.
    exists (map (fun e => e_event e) (users_events now roomId sid st2)),
           (map (fun e => e_event e) (meta_events now roomId st2)).
    split; [|split].
    + unfold users_events. destruct (getAllPlayers now roomId st2).1; simpl; eauto.
    + unfold meta_events. now destruct (has_fields st2 (metaKey roomId)).
    + apply Permutation_app_comm.
  - intros e. rewrite Hst. unfold emitted. simpl. rewrite drop_app_length.
    intros [He|He]%elem_of_app.
    + unfold meta_events in He. destruct (has_fields st2 (metaKey roomId)).
      * apply list_elem_of_singleton in He. subst e. simpl. now rewrite Hmem.
      * by apply elem_of_nil in He.
    + unfold users_events in He. destruct (getAllPlayers now roomId st2).1; simpl in He.
      * apply list_elem_of_singleton in He. subst e. simpl. now rewrite Hmem.
      * by apply elem_of_nil in He.
Qed.

Lemma join_effect_witness :
  sid_ok "s3" = true
  /\ hash_ok room_R1 (metaKey "R1") = true
  /\ hash_ok room_R1 (playerKey "R1" "s3") = true
  /\ members (step 4000 "s3" (join "R1" "eve" "W3" "10" None) room_R1) "R1"
     = {["s3"]} ∪ members room_R1 "R1".
Proof.
  split; [reflexivity|]. split; [vm_compute; reflexivity|]. split; [vm_compute; reflexivity|].
  refine (proj1 (proj2 (join_effect 4000 "s3" "R1" "eve" "W3" "10" None room_R1 _ _ _))).
  - reflexivity.
  - vm_compute; reflexivity.
  - vm_compute; reflexivity.
Defined.

(** X8: a [join] that supplies no [asset] writes nothing under the meta
    key: for a room id never seen before, no meta is created, the read of
    [broadcastMeta] comes back [null] and no [meta] event is emitted: the
    room gets at most the user list. *)
Theorem join_unknown_room (now : Z) (sid roomId nick w f : string) (st : State) :
  sid_ok sid = true ->
  redis st !! metaKey roomId = None ->
  hash_ok st (playerKey roomId sid) = true ->
  let st' := step now sid (join roomId nick w f None) st in
  redis st' !! metaKey roomId = None
  /\ has_fields st' (metaKey roomId) = false
  /\ (emitted st st' = [] \/ exists l, emitted st st' = [to_room st' roomId (E_users l)])
  /\ (forall e m, e ∈ emitted st st' -> e_event e <> E_meta m).
Proof.
  intros Hsid Hfresh Hpk st'.
  assert (hash_ok st (metaKey roomId) = true) as Hmk.
  { unfold hash_ok. now rewrite Hfresh. }
  pose proof (join_state now sid roomId nick w f None st Hsid Hmk Hpk) as Hst.
  cbn zeta in Hst. fold st' in Hst.
  assert (playerKey roomId sid <> metaKey roomId) as Hne by now apply playerKey_not_metaKey.
  assert (redis st' !! metaKey roomId = None) as Hnone.
  { rewrite Hst. simpl. unfold joined_store. now rewrite lookup_insert_ne. }
  destruct (has_fields_free st' (metaKey roomId) Hnone) as [Hnf _].
  set (st2 := {| redis := joined_store now sid roomId nick w None st;
                 rooms := <[sid := {[roomId]} ∪ rooms_of st sid]> (rooms st);
                 timers := timers st; outbox := outbox st |}) in *.
  assert (meta_events now roomId st2 = []) as Hme.
  { unfold meta_events.
    assert (has_fields st2 (metaKey roomId) = has_fields st' (metaKey roomId)) as ->
      by (rewrite Hst; reflexivity).
    now rewrite Hnf. }
  assert (emitted st st' = users_events now roomId sid st2) as Hem.
  { rewrite Hst. unfold emitted. simpl. now rewrite drop_app_length, Hme. }
  split; [exact Hnone|]. split; [exact Hnf|]. split.
  - rewrite Hem. unfold users_events.
    destruct (getAllPlayers now roomId st2).1; [right|now left].
    eexists. rewrite Hst. reflexivity.
  - intros e m. rewrite Hem. unfold users_events.
    destruct (getAllPlayers now roomId st2).1.
    + intros ->%list_elem_of_singleton. discriminate.
    + intros He. by apply elem_of_nil in He.
Qed.

Lemma join_unknown_room_witness :
  sid_ok "s1" = true
  /\ redis empty_state !! metaKey "R9" = None
  /\ hash_ok empty_state (playerKey "R9" "s1") = true
  /\ redis (step 1000 "s1" (join "R9" "al" "W1" "10" None) empty_state) !! metaKey "R9" = None.
Proof.
  split; [reflexivity|]. split; [reflexivity|]. split; [reflexivity|].
  refine (proj1 (join_unknown_room 1000 "s1" "R9" "al" "W1" "10" empty_state _ _ _));
    reflexivity.
Defined.

Lemma playerFields_nickname_only (nick : option string) :
  playerFields {| p_nickname := nick; p_wallet := None; p_joinedAt := None |}
  = match nick with Some n => <["nickname" := n]> ∅ | None => ∅ end.
Proof. now destruct nick. Qed.

(** The store after the write of [set_nickname]. *)
Definition renamed_store (sid roomId : string) (nick : option string) (st : State) :
    gmap string rval :=
  match nick with
  | Some n => <[playerKey roomId sid :=
                  RHash (<["nickname" := n]> (stored_hash st (playerKey roomId sid)))]> (redis st)
  | None => redis st
  end.

Lemma set_nickname_state (now : Z) (sid roomId : string) (nick : option string) (st : State) :
  hash_ok st (playerKey roomId sid) = true ->
  let st1 := {| redis := renamed_store sid roomId nick st; rooms := rooms st;
                timers := timers st; outbox := outbox st |} in
  step now sid (set_nickname roomId nick) st
  = {| redis := redis st1; rooms := rooms st; timers := timers st;
       outbox := outbox st ++ users_events now roomId sid st1 |}.
Proof.
  intros Hpk st1. unfold step. cbn [handle]. unfold on_set_nickname.
  unfold bind at 1, setPlayer. rewrite playerFields_nickname_only.
  destruct nick as [n|].
  - rewrite (fields_nonempty _ "nickname" n) by apply lookup_insert_eq.
    rewrite hset_ok by done. unfold spawn. cbn [snd].
    rewrite broadcastUsers_state. simpl.
    rewrite <- insert_union_l, (left_id_L ∅ (∪)). reflexivity.
  - rewrite bool_decide_eq_false_2 by (rewrite map_size_empty; lia).
    unfold ret, spawn. cbn [snd]. rewrite broadcastUsers_state.
    assert (st1 = st) as -> by (subst st1; now destruct st). reflexivity.
Qed.

(** X9: [set_nickname] (store command accepted) changes the field
    [nickname] of the caller's player record of the room and nothing
    else in the store; without a nickname it writes nothing; it makes no
    check that the caller has joined, so for a connection with no record
    it creates one that reads with an empty wallet and [joinedAt] equal to
    the time of reading; it emits at most the user list, to the room. *)
Theorem set_nickname_effect (now : Z) (sid roomId : string) (nick : option string)
    (st : State) :
  hash_ok st (playerKey roomId sid) = true ->
  let st' := step now sid (set_nickname roomId nick) st in
  redis st' = renamed_store sid roomId nick st
  /\ rooms st' = rooms st /\ timers st' = timers st
  /\ (forall field, field <> "nickname" ->
        stored_hash st' (playerKey roomId sid) !! field
        = stored_hash st (playerKey roomId sid) !! field)
  /\ (forall n, nick = Some n ->
        stored_hash st' (playerKey roomId sid) !! "nickname" = Some n)
  /\ (forall n now', nick = Some n -> redis st !! playerKey roomId sid = None ->
        parsePlayerData (as_strings (stored_hash st' (playerKey roomId sid))) now'
        = {| nickname := JStr n; wallet := JStr ""; joinedAt := Num now' |}
        /\ parsePlayerData (client_record (stored_hash st' (playerKey roomId sid))) now'
           = {| nickname := read_back n; wallet := JStr ""; joinedAt := Num now' |})
  /\ (emitted st st' = [] \/
      exists l, emitted st st' = [to_room st roomId (E_users l)]).
Proof.
  intros Hpk st'.
  pose proof (set_nickname_state now sid roomId nick st Hpk) as Hst. cbn zeta in Hst.
  fold st' in Hst.
  set (st1 := {| redis := renamed_store sid roomId nick st; rooms := rooms st;
                timers := timers st; outbox := outbox st |}) in *.
  assert (forall field, stored_hash st' (playerKey roomId sid) !! field
            = match nick with
              | Some n => (<["nickname" := n]> (stored_hash st (playerKey roomId sid))) !! field
              | None => stored_hash st (playerKey roomId sid) !! field
              end) as Hlook.
  { intros field. rewrite Hst. unfold stored_hash at 1. simpl. unfold renamed_store.
    destruct nick as [n|]; [now rewrite lookup_insert_eq|reflexivity]. }
  split; [now rewrite Hst|]. split; [now rewrite Hst|]. split; [now rewrite Hst|].
  split; [|split; [|split]].
  - intros field Hf. rewrite Hlook. destruct nick; [now rewrite lookup_insert_ne|done].
  - intros n ->. rewrite Hlook. apply lookup_insert_eq.
  - intros n now' -> Hnone. unfold parsePlayerData.
    rewrite !as_strings_lookup, !client_record_lookup, !Hlook.
    rewrite lookup_insert_eq.
    rewrite (lookup_insert_ne _ "nickname" "wallet") by done.
    rewrite (lookup_insert_ne _ "nickname" "joinedAt") by done.
    unfold stored_hash. rewrite Hnone. rewrite !lookup_empty. split; reflexivity.
  - rewrite Hst. unfold emitted. simpl. rewrite drop_app_length.
    unfold users_events. destruct (getAllPlayers now roomId st1).1; [right|now left].
    eexists. reflexivity.
Qed.

Lemma set_nickname_effect_witness :
  hash_ok room_R1 (playerKey "R1" "s2") = true
  /\ stored_hash (step 4000 "s2" (set_nickname "R1" (Some "bobby")) room_R1)
       (playerKey "R1" "s2") !! "nickname" = Some "bobby".
Proof.
  split; [vm_compute; reflexivity|].
  refine (proj1 (proj2 (proj2 (proj2 (proj2
    (set_nickname_effect 4000 "s2" "R1" (Some "bobby") room_R1 _))))) "bobby" eq_refl).
  vm_compute; reflexivity.
Defined.

(** ** Merging and reading player records *)

Fixpoint setPlayer_all (roomId sid : string) (calls : list PartialPlayerData) : M unit :=
  match calls with
  | [] => ret tt
  | d :: calls' => setPlayer roomId sid d ;;; setPlayer_all roomId sid calls'
  end.

(** The last value a sequence of calls gave to a field of the record. *)
Definition last_given_player {A} (field : PartialPlayerData -> option A)
    (calls : list PartialPlayerData) (init : option A) : option A :=
  fold_left (fun acc d => match field d with Some v => Some v | None => acc end) calls init.

Definition player_fields_after (calls : list PartialPlayerData) (h : gmap string string) :
    gmap string string :=
  fold_left (fun acc d => playerFields d ∪ acc) calls h.

Lemma setPlayer_all_ok (roomId sid : string) (calls : list PartialPlayerData) (st : State) :
  hash_ok st (playerKey roomId sid) = true ->
  exists st', setPlayer_all roomId sid calls st = (Some tt, st')
    /\ stored_hash st' (playerKey roomId sid)
       = player_fields_after calls (stored_hash st (playerKey roomId sid))
    /\ hash_ok st' (playerKey roomId sid) = true.
Proof.
  revert st. induction calls as [|d calls IH]; intros st Hok; simpl.
  - exists st. done.
  - assert (exists st1, setPlayer roomId sid d st = (Some tt, st1)
              /\ stored_hash st1 (playerKey roomId sid)
                 = playerFields d ∪ stored_hash st (playerKey roomId sid)
              /\ hash_ok st1 (playerKey roomId sid) = true) as (st1 & E1 & Hs & Hok1).
    { unfold setPlayer. case_bool_decide as Hsz.
      - rewrite hset_ok by done. eexists. split; [reflexivity|].
        rewrite stored_hash_insert, hash_ok_insert. now rewrite !decide_True.
      - exists st. split; [reflexivity|].
        assert (playerFields d = ∅) as -> by (apply map_size_empty_iff; lia).
        now rewrite (left_id_L ∅ (∪)). }
    destruct (IH st1 Hok1) as (st2 & E2 & Hs2 & Hok2).
    exists st2. unfold bind. rewrite E1, E2. split; [done|].
    unfold player_fields_after in *. simpl. now rewrite Hs2, Hs.
Qed.

Lemma player_fields_after_lookup {A} (field : PartialPlayerData -> option A)
    (render : A -> string) (key : string) (calls : list PartialPlayerData)
    (h : gmap string string) (init : option A) :
  (forall d, playerFields d !! key = render <$> field d) ->
  h !! key = render <$> init ->
  player_fields_after calls h !! key = render <$> last_given_player field calls init.
Proof.
  intros Hf. revert h init. unfold player_fields_after, last_given_player.
  induction calls as [|d calls IH]; intros h init Hh; simpl; [done|].
  apply IH. rewrite lookup_union, Hf, Hh.
  destruct (field d), init; done.
Qed.

(** X10: on a connection with no player record in the room, any sequence
    of [setPlayer] calls leaves a record that [parsePlayerData] reads as
    the last value given to each field, with [nickname = ""],
    [wallet = ""] and [joinedAt] equal to the time of reading for a field
    no call gave: so with the fields as the strings the source declares,
    and, as the store client hands them back, with each text given as
    that client reads it (a [joinedAt] of 0 reads as the time of
    reading). *)
Theorem setPlayer_parsePlayerData_merge (roomId sid : string)
    (calls : list PartialPlayerData) (now : Z) (st : State) :
  redis st !! playerKey roomId sid = None ->
  exists st', setPlayer_all roomId sid calls st = (Some tt, st')
    /\ parsePlayerData (as_strings (stored_hash st' (playerKey roomId sid))) now
       = {| nickname := JStr (default "" (last_given_player p_nickname calls None));
            wallet := JStr (default "" (last_given_player p_wallet calls None));
            joinedAt := Num (default now (last_given_player p_joinedAt calls None)) |}
    /\ parsePlayerData (client_record (stored_hash st' (playerKey roomId sid))) now
       = {| nickname := from_option read_back (JStr "") (last_given_player p_nickname calls None);
            wallet := from_option read_back (JStr "") (last_given_player p_wallet calls None);
            joinedAt := Num (match last_given_player p_joinedAt calls None with
                             | Some z => if z =? 0 then now else z
                             | None => now
                             end) |}.
Proof.
  intros Hfresh.
  assert (hash_ok st (playerKey roomId sid) = true) as Hok.
  { unfold hash_ok. now rewrite Hfresh. }
  destruct (setPlayer_all_ok roomId sid calls st Hok) as (st' & E & Hs & _).
  exists st'. split; [exact E|]. rewrite Hs.
  unfold stored_hash. rewrite Hfresh. unfold parsePlayerData.
  rewrite !as_strings_lookup, !client_record_lookup.
  rewrite (player_fields_after_lookup p_nickname id "nickname" calls ∅ None)
    by (done || intros; rewrite playerFields_nickname; now destruct (p_nickname _)).
  rewrite (player_fields_after_lookup p_wallet id "wallet" calls ∅ None)
    by (done || intros; rewrite playerFields_wallet; now destruct (p_wallet _)).
  rewrite (player_fields_after_lookup p_joinedAt js_String "joinedAt" calls ∅ None)
    by (done || apply playerFields_joinedAt).
  split; f_equal.
  - now destruct (last_given_player p_nickname calls None).
  - now destruct (last_given_player p_wallet calls None).
  - destruct (last_given_player p_joinedAt calls None) as [z|]; [|done].
    cbn [fmap option_fmap option_map truthy_prop from_option].
    rewrite truthy_JStr_numeral. cbn [to_number]. now rewrite js_Number_String.
  - now destruct (last_given_player p_nickname calls None).
  - now destruct (last_given_player p_wallet calls None).
  - destruct (last_given_player p_joinedAt calls None) as [z|]; [|done].
    cbn [fmap option_fmap option_map truthy_prop from_option].
    rewrite truthy_numeral, to_number_numeral. now destruct (z =? 0).
Qed.

Lemma setPlayer_parsePlayerData_merge_witness :
  redis empty_state !! playerKey "R1" "s1" = None
  /\ exists st',
       setPlayer_all "R1" "s1"
         [ {| p_nickname := Some "al"; p_wallet := Some "W1"; p_joinedAt := Some 1000 |};
           {| p_nickname := Some "alice"; p_wallet := None; p_joinedAt := None |} ]
         empty_state = (Some tt, st')
       /\ parsePlayerData (as_strings (stored_hash st' (playerKey "R1" "s1"))) 5000
          = {| nickname := JStr "alice"; wallet := JStr "W1"; joinedAt := Num 1000 |}.
Proof.
  split; [reflexivity|].
  destruct (setPlayer_parsePlayerData_merge "R1" "s1"
    [ {| p_nickname := Some "al"; p_wallet := Some "W1"; p_joinedAt := Some 1000 |};
      {| p_nickname := Some "alice"; p_wallet := None; p_joinedAt := None |} ]
    5000 empty_state eq_refl) as (st' & E & Htyped & _).
  exists st'. split; [exact E|exact Htyped].
Defined.

(** ** The user list *)

Lemma users_list_elem (players : gmap string PlayerData) (selfId : string) (u : UserEntry) :
  u ∈ users_list players selfId <->
  exists p, players !! u_id u = Some p /\ u_nickname u = nickname p
            /\ u_wallet u = wallet p /\ u_isSelf u = bool_decide (u_id u = selfId).
Proof.
  unfold users_list. rewrite list_elem_of_In, in_map_iff. split.
  - intros ([id p] & <- & Hin). apply list_elem_of_In, elem_of_map_to_list in Hin.
    exists p. done.
  - intros (p & Hp & Hn & Hw & Hs). exists (u_id u, p). split.
    + destruct u; simpl in *. now subst.
    + now apply list_elem_of_In, elem_of_map_to_list.
Qed.

(** X11: when the bulk read of the players succeeds, [broadcastUsers]
    emits one [users] event to the connections of the room, with exactly
    one entry per player of the map: no session id twice, each entry
    carrying the nickname and wallet of that player, and [isSelf] set
    exactly on the entry of the connection that triggered the broadcast;
    when the read is refused it emits nothing. It never writes to the
    store. *)
Theorem broadcastUsers_list (now : Z) (roomId selfId : string) (st : State) :
  redis (broadcastUsers now roomId selfId st).2 = redis st
  /\ rooms (broadcastUsers now roomId selfId st).2 = rooms st
  /\ ((getAllPlayers now roomId st).1 = None ->
        emitted st (broadcastUsers now roomId selfId st).2 = [])
  /\ (forall players, (getAllPlayers now roomId st).1 = Some players ->
        exists us,
          emitted st (broadcastUsers now roomId selfId st).2
          = [ {| e_target := ToRoom roomId; e_recipients := members st roomId;
                 e_event := E_users us |} ]
          /\ NoDup (map u_id us)
          /\ length us = size players
          /\ (forall u, u ∈ us <->
                exists p, players !! u_id u = Some p /\ u_nickname u = nickname p
                          /\ u_wallet u = wallet p
                          /\ u_isSelf u = bool_decide (u_id u = selfId))).
Proof.
  rewrite broadcastUsers_state. cbn [redis rooms].
  split; [done|]. split; [done|]. split.
  - intros Hnone. unfold emitted, users_events. cbn [outbox].
    rewrite Hnone, app_nil_r. apply drop_all.
  - intros players Hsome. exists (users_list players selfId).
    split; [|split; [|split]].
    + unfold emitted, users_events. cbn [outbox]. rewrite Hsome.
      now rewrite drop_app_length.
    + unfold users_list. rewrite map_map. cbn [u_id].
      apply (NoDup_fst_map_to_list players).
    + unfold users_list. rewrite length_map. apply length_map_to_list.
    + apply users_list_elem.
Qed.

(** ** The bulk reads, exactly *)

(** X12: in a store where the keys matching the player pattern of a room
    are its player keys (room id without glob characters), [getAllPlayers]
    succeeds, leaves the state unchanged and returns exactly the stored
    player records of the room, keyed by session id: each is parsed, at
    the time of reading, from the fields as the store client hands them
    back, so that a nickname or wallet whose text is JSON comes back as
    the value it denotes. Nothing more, nothing less. *)
Theorem getAllPlayers_exact (now : Z) (roomId : string) (st : State) :
  glob_literal roomId = true ->
  player_keys_ok st roomId = true ->
  exists players,
    getAllPlayers now roomId st = (Some players, st)
    /\ (forall id, players !! id
          = if colon_free id then player_at now st (playerKey roomId id) else None)
    /\ (forall id h, colon_free id = true ->
          redis st !! playerKey roomId id = Some (RHash h) -> h <> ∅ ->
          players !! id = Some (parsePlayerData (client_record h) now))
    /\ (forall id h n w j, colon_free id = true ->
          redis st !! playerKey roomId id = Some (RHash h) ->
          h !! "nickname" = Some n -> h !! "wallet" = Some w ->
          h !! "joinedAt" = Some (js_String j) ->
          players !! id = Some {| nickname := read_back n; wallet := read_back w;
                                  joinedAt := Num (if j =? 0 then now else j) |})
    /\ (forall id, redis st !! playerKey roomId id = None -> players !! id = None).
Proof.
  intros Hlit Hok.
  destruct (getAllPlayers_returns now roomId st Hlit Hok) as (players & Hrun & Hall).
  exists players. split; [exact Hrun|]. split; [exact Hall|].
  assert (forall id h, colon_free id = true ->
            redis st !! playerKey roomId id = Some (RHash h) -> h <> ∅ ->
            players !! id = Some (parsePlayerData (client_record h) now)) as Hrec.
  { intros id h Hid Hk Hne. rewrite Hall, Hid. unfold player_at. rewrite Hk.
    now rewrite decide_False. }
  split; [exact Hrec|]. split.
  - intros id h n w j Hid Hk Hn Hw Hj.
    rewrite (Hrec id h Hid Hk) by (intros ->; by rewrite lookup_empty in Hn).
    f_equal. now apply parsePlayerData_client.
  - intros id Hk. rewrite Hall. unfold player_at. rewrite Hk. now destruct (colon_free id).
Qed.

Lemma getAllPlayers_exact_witness :
  glob_literal "R1" = true
  /\ player_keys_ok drawn_R1 "R1" = true
  /\ exists players,
       getAllPlayers 9000 "R1" drawn_R1 = (Some players, drawn_R1)
       /\ forall id, players !! id
            = if colon_free id then player_at 9000 drawn_R1 (playerKey "R1" id) else None.
Proof.
  split; [reflexivity|]. split; [vm_compute; reflexivity|].
  destruct (getAllPlayers_exact 9000 "R1" drawn_R1) as (players & Hrun & Hall & _).
  - reflexivity.
  - vm_compute; reflexivity.
  - exists players. split; [exact Hrun|exact Hall].
Defined.

(** A nickname that is the text of a number, and one that is the text
    [null], as the user list of the room then shows them. *)
Example users_of_json_nicknames :
  map e_event
    (emitted (step 4000 "s4" (join "R1" "null" "W4" "10" None) room_R1)
       (step 5000 "s3" (join "R1" "123" "W3" "10" None)
          (step 4000 "s4" (join "R1" "null" "W4" "10" None) room_R1)))
  = [ E_meta {| fee := JNum (Num 10); createdAt := Num 1000; asset := Some (JStr "USDC");
                roundEnd := None; owner := Some (JStr "W1") |};
      E_users [ {| u_id := "s3"; u_nickname := JNum (Num 123); u_wallet := JStr "W3";
                   u_isSelf := true |};
                {| u_id := "s1"; u_nickname := JStr "al"; u_wallet := JStr "W1";
                   u_isSelf := false |};
                {| u_id := "s2"; u_nickname := JStr "bob"; u_wallet := JStr "W2";
                   u_isSelf := false |};
                {| u_id := "s4"; u_nickname := JStr ""; u_wallet := JStr "W4";
                   u_isSelf := false |} ] ].
Proof. vm_compute. reflexivity. Qed.

(** The texts that the store client returns as a falsy value. *)
Lemma falsy_replies :
  reply_truthy (parse_reply "") = false /\ reply_truthy (parse_reply "0") = false
  /\ reply_truthy (parse_reply "false") = false /\ reply_truthy (parse_reply "null") = false.
Proof. repeat split; vm_compute; reflexivity. Qed.

(** X13: in a store where the keys matching the drawing pattern of a room
    are its drawing keys, [getAllDrawings] succeeds, leaves the state
    unchanged and returns, keyed by session id, the drawings stored for
    the room as the store client returns them, those that are truthy: a
    stored drawing that is empty, or the text [0], [false] or [null], is
    left out, and a drawing whose text is JSON comes back as the value it
    denotes. *)
Theorem getAllDrawings_exact (roomId : string) (st : State) :
  glob_literal roomId = true ->
  graph_keys_ok st roomId = true ->
  exists drawings,
    getAllDrawings roomId st = (Some drawings, st)
    /\ (forall id, drawings !! id
          = if colon_free id then drawing_at st (graphKey roomId id) else None)
    /\ (forall id d, colon_free id = true -> redis st !! graphKey roomId id = Some (RStr d) ->
          drawings !! id = if reply_truthy (parse_reply d) then Some (parse_reply d) else None)
    /\ (forall id d, redis st !! graphKey roomId id = Some (RStr d) ->
          d = "" \/ d = "0" \/ d = "false" \/ d = "null" -> drawings !! id = None)
    /\ (forall id, redis st !! graphKey roomId id = None -> drawings !! id = None)
    /\ (forall id d, drawings !! id = Some d -> reply_truthy d = true).
Proof.
  intros Hlit Hok.
  destruct (getAllDrawings_returns roomId st Hlit Hok) as (drawings & Hrun & Hall).
  exists drawings. split; [exact Hrun|]. split; [exact Hall|].
  split; [|split; [|split]].
  - intros id d Hid Hk. rewrite Hall, Hid. unfold drawing_at. now rewrite Hk.
  - intros id d Hk Hd. rewrite Hall. unfold drawing_at. rewrite Hk.
    destruct falsy_replies as (H1 & H2 & H3 & H4).
    destruct Hd as [->|[->|[->| ->]]]; rewrite ?H1, ?H2, ?H3, ?H4; now destruct (colon_free id).
  - intros id Hk. rewrite Hall. unfold drawing_at. rewrite Hk. now destruct (colon_free id).
  - intros id d. rewrite Hall. destruct (colon_free id); [|done].
    unfold drawing_at. destruct (redis st !! graphKey roomId id) as [[h|d']|]; try done.
    destruct (reply_truthy (parse_reply d')) eqn:Ht; [|done]. now intros [= <-].
Qed.

Lemma getAllDrawings_exact_witness :
  glob_literal "R1" = true
  /\ graph_keys_ok drawn_R1 "R1" = true
  /\ exists drawings,
       getAllDrawings "R1" drawn_R1 = (Some drawings, drawn_R1)
       /\ forall id, drawings !! id
            = if colon_free id then drawing_at drawn_R1 (graphKey "R1" id) else None.
Proof.
  split; [reflexivity|]. split; [vm_compute; reflexivity|].
  destruct (getAllDrawings_exact "R1" drawn_R1) as (drawings & Hrun & Hall & _).
  - reflexivity.
  - vm_compute; reflexivity.
  - exists drawings. split; [exact Hrun|exact Hall].
Defined.

(** A drawing sent as the JSON text of its strokes comes back from the
    store as the array, not as the text. *)
Example drawing_of_json_text :
  (getAllDrawings "R1" (step 6000 "s2" (drawing_submit "R1" "[[1,2],[3,4]]") round_R1)).1
  = Some (<["s2" := Reply (JObj "[[1,2],[3,4]]")]> ∅).
Proof. vm_compute. reflexivity. Qed.

(** ** Rejected bulk reads *)

Lemma getAllPlayers_loop_rejected (now : Z) (keys : list string)
    (acc : gmap string PlayerData) (st : State) (key d : string) :
  key ∈ keys -> redis st !! key = Some (RStr d) ->
  getAllPlayers_loop now keys acc st = (None, st).
Proof.
  intros Hin Hkey. revert acc. induction keys as [|k keys IH]; intros acc.
  - by apply elem_of_nil in Hin.
  - cbn [getAllPlayers_loop]. unfold bind, redis_hgetall.
    destruct (redis st !! k) as [[h|s]|] eqn:Hk; [| reflexivity |].
    + apply IH. apply elem_of_cons in Hin as [->|Hin]; [congruence|done].
    + apply IH. apply elem_of_cons in Hin as [->|Hin]; [congruence|done].
Qed.

Lemma getAllDrawings_loop_rejected (keys : list string)
    (acc : gmap string reply) (st : State) (key : string) (h : gmap string string) :
  key ∈ keys -> redis st !! key = Some (RHash h) ->
  getAllDrawings_loop keys acc st = (None, st).
Proof.
  intros Hin Hkey. revert acc. induction keys as [|k keys IH]; intros acc.
  - by apply elem_of_nil in Hin.
  - cbn [getAllDrawings_loop]. unfold bind, redis_get.
    destruct (redis st !! k) as [[h'|s]|] eqn:Hk; [reflexivity | |].
    + apply IH. apply elem_of_cons in Hin as [->|Hin]; [congruence|done].
    + apply IH. apply elem_of_cons in Hin as [->|Hin]; [congruence|done].
Qed.

Lemma getAllPlayers_rejected (now : Z) (roomId key d : string) (st : State) :
  glob ("room:" +:+ roomId +:+ ":player:*") key = true ->
  redis st !! key = Some (RStr d) ->
  getAllPlayers now roomId st = (None, st).
Proof.
  intros Hg Hkey. unfold getAllPlayers, bind, redis_keys.
  apply (getAllPlayers_loop_rejected _ _ _ _ key d); [|done].
  apply (matching_keys_elem _ key st). split; [done|]. rewrite Hkey. now eexists.
Qed.

Lemma getAllDrawings_rejected (roomId key : string) (h : gmap string string) (st : State) :
  glob ("room:" +:+ roomId +:+ ":graph:*") key = true ->
  redis st !! key = Some (RHash h) ->
  getAllDrawings roomId st = (None, st).
Proof.
  intros Hg Hkey. unfold getAllDrawings, bind, redis_keys.
  apply (getAllDrawings_loop_rejected _ _ _ key h); [|done].
  apply (matching_keys_elem _ key st). split; [done|]. rewrite Hkey. now eexists.
Qed.

Lemma graphKey_as_playerKey (roomId x sid : string) :
  graphKey (roomId +:+ ":player:" +:+ x) sid = playerKey roomId (x +:+ ":graph:" +:+ sid).
Proof. unfold graphKey, playerKey. now rewrite !string_app_assoc. Qed.

Lemma playerKey_as_graphKey (roomId x sid : string) :
  playerKey (roomId +:+ ":graph:" +:+ x) sid = graphKey roomId (x +:+ ":player:" +:+ sid).
Proof. unfold graphKey, playerKey. now rewrite !string_app_assoc. Qed.

(** X14: room ids are not checked for colons, and the key patterns of the
    bulk reads match across them. After a [drawing_submit] to the room
    [R:player:x], the drawing sits under a key that matches the player
    pattern of room [R]; [getAllPlayers] of [R] then asks the store for
    the hash of a string key and is rejected, so [broadcastUsers] of [R]
    emits nothing. *)
Theorem users_blocked_by_drawing (now : Z) (sid roomId x : string) (d : DrawingData)
    (st : State) :
  glob_literal roomId = true ->
  let st1 := step now sid (drawing_submit (roomId +:+ ":player:" +:+ x) d) st in
  forall now' selfId,
    getAllPlayers now' roomId st1 = (None, st1)
    /\ emitted st1 (broadcastUsers now' roomId selfId st1).2 = [].
Proof.
  intros Hlit st1 now' selfId.
  assert (getAllPlayers now' roomId st1 = (None, st1)) as Hrej.
  { apply (getAllPlayers_rejected _ _ (graphKey (roomId +:+ ":player:" +:+ x) sid) d).
    - rewrite graphKey_as_playerKey. now apply glob_playerKey.
    - subst st1. unfold step. cbn [handle]. unfold on_drawing_submit, bind, redis_set.
      simpl. apply lookup_insert_eq. }
  split; [exact Hrej|].
  rewrite broadcastUsers_state. unfold emitted, users_events. cbn [outbox].
  rewrite Hrej. cbn [fst]. rewrite app_nil_r. apply drop_all.
Qed.

Lemma users_blocked_by_drawing_witness :
  glob_literal "R1" = true
  /\ getAllPlayers 7000 "R1" (step 6500 "s9" (drawing_submit "R1:player:x" "blob") round_R1)
     = (None, step 6500 "s9" (drawing_submit "R1:player:x" "blob") round_R1).
Proof.
  split; [reflexivity|].
  refine (proj1 (users_blocked_by_drawing 6500 "s9" "R1" "x" "blob" round_R1 _ 7000 "s1")).
  reflexivity.
Defined.

(** X15: in the same way, after a [join] to the room [R:graph:x] the
    player record sits under a key that matches the drawing pattern of
    room [R], and [getAllDrawings] of [R] is rejected. *)
Theorem drawings_blocked_by_join (now : Z) (sid roomId x nick w f : string)
    (a : option string) (st : State) :
  glob_literal roomId = true ->
  sid_ok sid = true ->
  hash_ok st (metaKey (roomId +:+ ":graph:" +:+ x)) = true ->
  hash_ok st (playerKey (roomId +:+ ":graph:" +:+ x) sid) = true ->
  let st1 := step now sid (join (roomId +:+ ":graph:" +:+ x) nick w f a) st in
  getAllDrawings roomId st1 = (None, st1).
Proof.
  intros Hlit Hsid Hmk Hpk st1.
  pose proof (join_state now sid _ nick w f a st Hsid Hmk Hpk) as Hst.
  cbn zeta in Hst. fold st1 in Hst.
  eapply (getAllDrawings_rejected _ (playerKey (roomId +:+ ":graph:" +:+ x) sid)).
  - rewrite playerKey_as_graphKey. now apply glob_graphKey.
  - rewrite Hst. cbn [redis]. unfold joined_store. apply lookup_insert_eq.
Qed.

Lemma drawings_blocked_by_join_witness :
  glob_literal "R1" = true
  /\ sid_ok "s9" = true
  /\ hash_ok round_R1 (metaKey ("R1" +:+ ":graph:" +:+ "x")) = true
  /\ hash_ok round_R1 (playerKey ("R1" +:+ ":graph:" +:+ "x") "s9") = true
  /\ getAllDrawings "R1" (step 6500 "s9" (join "R1:graph:x" "mal" "W9" "1" None) round_R1)
     = (None, step 6500 "s9" (join "R1:graph:x" "mal" "W9" "1" None) round_R1).
Proof.
  split; [reflexivity|]. split; [reflexivity|].
  split; [vm_compute; reflexivity|]. split; [vm_compute; reflexivity|].
  refine (drawings_blocked_by_join 6500 "s9" "R1" "x" "mal" "W9" "1" None round_R1 _ _ _ _).
  - reflexivity.
  - reflexivity.
  - vm_compute; reflexivity.
  - vm_compute; reflexivity.
Defined.

(** ** The last firing of a timer when a read is rejected *)

Lemma reader_rejected {A} (m : M A) (st st' : State) :
  reader m -> redis st' = redis st -> (m st).1 = None -> m st' = (None, st').
Proof. intros Hr E Hn. now rewrite (Hr st st' E), Hn. Qed.

(** X16: the last firing of an interval (time left [0]) clears the
    interval before it reads the store. If one of the three reads is then
    rejected, or the meta comes back [null], the firing has emitted the
    [timer] event and nothing else, the store and the subscriptions are
    unchanged, and no later firing of that interval emits anything: the
    room never gets a [round_end] from it. *)
Theorem tick_final_rejected (now : Z) (sid : string) (h : nat) (t : Timer) (st : State) :
  timers st !! h = Some t -> t_active t = true ->
  timeLeft_at (t_roundEnd t) now <= 0 ->
  (getAllDrawings (t_room t) st).1 = None
  \/ (getAllPlayers now (t_room t) st).1 = None
  \/ hash_ok st (metaKey (t_room t)) = false
  \/ has_fields st (metaKey (t_room t)) = false ->
  let st' := step now sid (tick h) st in
  emitted st st' = [to_room st (t_room t) (E_timer 0)]
  /\ redis st' = redis st /\ rooms st' = rooms st
  /\ timers st' = alter cleared h (timers st)
  /\ (forall times, run_ticks h times st' = st').
Proof.
  intros Ht Ha Hz Hrej st'.
  assert (timeLeft_at (t_roundEnd t) now = 0) as Hzero
    by (pose proof (timeLeft_at_nonneg (t_roundEnd t) now); lia).
  assert (st' = set_timers (alter cleared h)
                  (push_out (to_room st (t_room t) (E_timer 0)) st)) as Hst.
  { subst st'. unfold step. cbn [handle]. unfold timer_tick.
    rewrite Ht, Ha. unfold timer_callback. cbn zeta. rewrite Hzero.
    unfold bind at 1, io_to_emit at 1. cbn [Z.leb Z.compare].
    unfold bind at 1, clearInterval. fold cleared.
    set (st1 := set_timers _ _).
    assert (redis st1 = redis st) as E by reflexivity.
    unfold bind at 1.
    destruct (getAllDrawings (t_room t) st).1 as [drawings|] eqn:Hd; cycle 1.
    { now rewrite (reader_rejected _ st st1 (reader_getAllDrawings _) E Hd). }
    rewrite (reader_getAllDrawings _ st st1 E), Hd.
    unfold bind at 1.
    destruct (getAllPlayers now (t_room t) st).1 as [players|] eqn:Hp; cycle 1.
    { now rewrite (reader_rejected _ st st1 (reader_getAllPlayers _ _) E Hp). }
    rewrite (reader_getAllPlayers _ _ st st1 E), Hp.
    assert (has_fields st (metaKey (t_room t)) = false) as Hnf.
    { destruct Hrej as [?|[?|[Hmeta|Hmeta]]]; [discriminate..| |exact Hmeta].
      destruct (has_fields st (metaKey (t_room t))) eqn:Hf; [|done].
      apply has_fields_hash_ok in Hf. congruence. }
    unfold bind at 1. rewrite (reader_hgetall _ st st1 E).
    destruct (hash_ok st (metaKey (t_room t))) eqn:Hok.
    - rewrite hgetall_null by done. reflexivity.
    - rewrite hgetall_rejected by done. reflexivity. }
  split; [|split; [|split; [|split]]]; try (rewrite Hst; reflexivity).
  - rewrite Hst. unfold emitted. simpl. now rewrite drop_app_length.
  - intros times. apply (run_ticks_cleared h (cleared t)); [|reflexivity].
    rewrite Hst. simpl. rewrite list_lookup_alter, Ht, decide_True by done. reflexivity.
Qed.

Lemma tick_final_rejected_witness :
  (getAllDrawings "R1"
     (step 6500 "s9" (join "R1:graph:x" "mal" "W9" "1" None) round_R1)).1 = None
  /\ emitted (step 6500 "s9" (join "R1:graph:x" "mal" "W9" "1" None) round_R1)
       (step 305000 "" (tick 0)
          (step 6500 "s9" (join "R1:graph:x" "mal" "W9" "1" None) round_R1))
     = [to_room (step 6500 "s9" (join "R1:graph:x" "mal" "W9" "1" None) round_R1)
          "R1" (E_timer 0)].
Proof.
  split; [vm_compute; reflexivity|].
  refine (proj1 (tick_final_rejected 305000 "" 0
            {| t_room := "R1"; t_roundEnd := 305000; t_period := 1000; t_active := true |}
            (step 6500 "s9" (join "R1:graph:x" "mal" "W9" "1" None) round_R1) _ _ _ _)).
  - vm_compute; reflexivity.
  - reflexivity.
  - vm_compute; discriminate.
  - left. vm_compute; reflexivity.
Defined.

(** ** Changes of the timer table *)

(** X17: an interval, once created, is never removed, re-targeted or
    re-armed. After any run it is still in the timer table under the same
    handle, for the same room and round end, and it is active exactly when
    it was active before and the run contains no firing of it at or after
    its round end: nothing but its own last firing clears it (not a
    disconnect of the owner, not a new round). *)
Theorem timers_stable (evs : list Event) (st : State) (h : nat) (t : Timer) :
  timers st !! h = Some t ->
  timers (run evs st) !! h
  = Some {| t_room := t_room t; t_roundEnd := t_roundEnd t; t_period := t_period t;
            t_active := t_active t && negb (existsb (fires_last h t) evs) |}.
Proof.
  revert st t. induction evs as [|e evs IH]; intros st t Ht.
  - simpl. rewrite Ht, andb_true_r. now destruct t.
  - change (run (e :: evs) st) with (run evs (step (ev_now e) (ev_sid e) (ev_req e) st)).
    rewrite (IH _ _ (timer_step e st h t Ht)). cbn [t_room t_roundEnd t_period t_active existsb].
    unfold fires_last at 2. cbn [t_roundEnd]. fold (fires_last h t).
    now rewrite negb_orb, andb_assoc.
Qed.

Lemma timers_stable_witness :
  timers round_R1 !! 0%nat
  = Some {| t_room := "R1"; t_roundEnd := 305000; t_period := 1000; t_active := true |}
  /\ timers (run [ {| ev_now := 6000; ev_sid := "s1"; ev_req := disconnect |};
                   {| ev_now := 7000; ev_sid := ""; ev_req := tick 0 |} ] round_R1) !! 0%nat
     = Some {| t_room := "R1"; t_roundEnd := 305000; t_period := 1000; t_active := true |}.
Proof.
  split; [vm_compute; reflexivity|].
  refine (timers_stable
            [ {| ev_now := 6000; ev_sid := "s1"; ev_req := disconnect |};
              {| ev_now := 7000; ev_sid := ""; ev_req := tick 0 |} ] round_R1 0
            {| t_room := "R1"; t_roundEnd := 305000; t_period := 1000; t_active := true |} _).
  vm_compute; reflexivity.
Defined.

(** X18: the timer table only changes by a [start_round], which appends
    at most one active interval for the room it names, and by a firing,
    which at most clears the interval that fired; no request shortens the
    table. *)
Theorem timers_changes (now : Z) (sid : string) (req : request) (st : State) :
  timers (step now sid req st) = timers st
  \/ (exists roomId w z,
        req = start_round roomId w
        /\ timers (step now sid req st)
           = timers st ++ [{| t_room := roomId; t_roundEnd := z;
                              t_period := 1000; t_active := true |}])
  \/ (exists h t,
        req = tick h /\ timers st !! h = Some t /\ t_active t = true
        /\ timeLeft_at (t_roundEnd t) now <= 0
        /\ timers (step now sid req st) = alter cleared h (timers st)).
Proof.
  destruct req as [entryFee mp w nick r|r nick w f a|r w|r nick|r d| |h].
  1,2,4,5,6: left; now apply timers_quiet.
  - destruct (start_round_timers now sid r w st) as [H|[z H]]; [now left|].
    right; left. now exists r, w, z.
  - rewrite tick_timers. destruct (timers st !! h) as [t|] eqn:Ht; [|now left].
    destruct (t_active t) eqn:Ha; [|now left]. cbn [andb].
    destruct (Z.leb_spec (timeLeft_at (t_roundEnd t) now) 0); [|now left].
    right; right. now exists h, t.
Qed.

(** ** Subscriptions *)

Lemma rooms_of_join_other (st : State) (sid roomId s : string) :
  sid <> s ->
  rooms_of (set_rooms (insert sid ({[roomId]} ∪ rooms_of st sid)) st) s = rooms_of st s.
Proof. intros Hne. unfold rooms_of, set_rooms. simpl. now rewrite lookup_insert_ne. Qed.

Lemma members_join_mono (st : State) (sid roomId s r : string) :
  s ∈ members st r ->
  s ∈ members (set_rooms (insert sid ({[roomId]} ∪ rooms_of st sid)) st) r.
Proof.
  rewrite !elem_of_members. intros Hin.
  destruct (decide (sid = s)) as [->|Hne].
  - unfold rooms_of at 1. unfold set_rooms. simpl. rewrite lookup_insert_eq. simpl.
    now apply elem_of_union_r.
  - now rewrite rooms_of_join_other.
Qed.

(** The request changes the subscriptions of its connection. *)
Definition changes_subscriptions (req : request) : bool :=
  match req with
  | join _ _ _ _ _ | disconnect => true
  | _ => false
  end.

(** X19: the rooms a connection is subscribed to change only by that
    connection's own [join] or [disconnect]: no request of another
    connection, no other request of its own and no timer firing touches
    them; and apart from a disconnect nothing removes a connection from a
    room (there is no leave). *)
Theorem subscriptions_stable (e : Event) (s r : string) (st : State) :
  (ev_sid e <> s \/ changes_subscriptions (ev_req e) = false ->
   rooms_of (step (ev_now e) (ev_sid e) (ev_req e) st) s = rooms_of st s)
  /\ (ev_req e <> disconnect ->
      s ∈ members st r -> s ∈ members (step (ev_now e) (ev_sid e) (ev_req e) st) r).
Proof.
  destruct e as [now sid req]. cbn [ev_now ev_sid ev_req]. split.
  - intros Hown.
    generalize (eq_refl (rooms_of st s)). generalize (rooms_of st s) at 2 3. intros v Hv.
    unfold step.
    destruct req as [entryFee mp w nick roomId|roomId nick w f a|roomId w|roomId nick
                    |roomId d| |h]; cbn [handle]; simpl in Hown.
    + apply (keeps_create_lobby_room (fun x => rooms_of x s = v) (fun _ _ => True));
        try done.
    + destruct Hown as [Hne|?]; [|done].
      apply (keeps_join (fun x => rooms_of x s = v) (fun _ _ => True) (fun x _ => x <> s));
        try done.
      intros x y st0 Hx H. now rewrite rooms_of_join_other.
    + apply (keeps_start_round (fun x => rooms_of x s = v) (fun _ _ => True)); try done.
    + apply (keeps_set_nickname (fun x => rooms_of x s = v) (fun _ _ => True)); try done.
    + apply (keeps_drawing_submit (fun x => rooms_of x s = v) (fun _ => True)); try done.
    + destruct Hown as [Hne|?]; [|done].
      apply (keeps_bind (fun x => rooms_of x s = v)); [| |done].
      * intros st0 H. unfold rooms_of, set_rooms. simpl. now rewrite lookup_delete_ne.
      * intros _. apply (keeps_disconnect (fun x => rooms_of x s = v) (fun _ => True));
          try done.
    + apply (keeps_timer_tick (fun x => rooms_of x s = v)); try done.
  - intros Hreq Hin. unfold step.
    destruct req as [entryFee mp w nick roomId|roomId nick w f a|roomId w|roomId nick
                    |roomId d| |h]; cbn [handle]; [| | | | |done|].
    + apply (keeps_create_lobby_room (fun x => s ∈ members x r) (fun _ _ => True));
        try done.
    + apply (keeps_join (fun x => s ∈ members x r) (fun _ _ => True) (fun _ _ => True));
        try done.
      intros x y st0 _ H. now apply members_join_mono.
    + apply (keeps_start_round (fun x => s ∈ members x r) (fun _ _ => True)); try done.
    + apply (keeps_set_nickname (fun x => s ∈ members x r) (fun _ _ => True)); try done.
    + apply (keeps_drawing_submit (fun x => s ∈ members x r) (fun _ => True)); try done.
    + apply (keeps_timer_tick (fun x => s ∈ members x r)); try done.
Qed.
